(** * The form snapshot engine of exam-saas

    A shallow embedding of the snapshot store (formSnapshot.ts), the differ
    and validator (formSnapshotTools.ts), the migration manager
    (formSnapshotMigration.ts), the report generator (formSnapshotReport.ts)
    and the Markdown and HTML formatters, with the properties the
    specification states about them, and of the field history, the
    migration validation, the timeline and the charts, with further
    properties of the code.

    Pure functions of the source are functions here; code that reads the
    clock, draws identifiers, logs or touches the storage runs in the
    state-and-exception monad [M] over a [World]; code that can only
    throw returns an [outcome]. *)

From stdpp Require Import base tactics option list sorting strings gmap numbers pretty.
From Stdlib Require Import ZArith Ascii String Lia.

Open Scope Z_scope.

Set Warnings "-register-all,-clear-no-such-hyp".

(** ** JavaScript values

    Field values of a form state are [any] in the source.  Numbers are
    restricted to integers (no fractions, NaN or infinities); functions,
    symbols and bigints do not occur.  Arrays and objects carry the
    address [r] of the heap cell they live in: strict equality compares
    them by address, serialization ignores the address.  The properties
    of an object are kept in insertion order, as [Object.keys] and
    [JSON.stringify] enumerate them. *)

Inductive value : Type :=
| VUndefined
| VNull
| VBool (b : bool)
| VNum (n : Z)
| VStr (s : string)
| VArr (r : nat) (elems : list value)
| VObj (r : nat) (props : list (string * value)).

(** The properties of an object typed [Record<string, any>]. *)
Definition obj : Type := list (string * value).

Inductive jstype := TyUndefined | TyObject | TyBoolean | TyNumber | TyString.

Definition typeof (v : value) : jstype :=
  match v with
  | VUndefined => TyUndefined
  | VNull => TyObject
  | VBool _ => TyBoolean
  | VNum _ => TyNumber
  | VStr _ => TyString
  | VArr _ _ => TyObject
  | VObj _ _ => TyObject
  end.

Global Instance jstype_eq_dec : EqDecision jstype.
Proof. solve_decision. Defined.

(** ToBoolean. *)
Definition truthy (v : value) : bool :=
  match v with
  | VUndefined | VNull => false
  | VBool b => b
  | VNum n => negb (n =? 0)
  | VStr s => negb (String.eqb s "")
  | VArr _ _ | VObj _ _ => true
  end.

(** [a === b]: primitives by value, arrays and objects by address. *)
Definition strict_eq (a b : value) : bool :=
  match a, b with
  | VUndefined, VUndefined => true
  | VNull, VNull => true
  | VBool x, VBool y => Bool.eqb x y
  | VNum x, VNum y => x =? y
  | VStr x, VStr y => String.eqb x y
  | VArr r _, VArr r' _ => Nat.eqb r r'
  | VObj r _, VObj r' _ => Nat.eqb r r'
  | _, _ => false
  end.

(** ** Strings *)

Definition dq : string := String "034"%char EmptyString.
Definition nl : string := String "010"%char EmptyString.
Definition bsl : string := String "092"%char EmptyString.

(** [Array.prototype.join]. *)
Fixpoint join (sep : string) (l : list string) : string :=
  match l with
  | [] => ""
  | [x] => x
  | x :: l' => x +:+ sep +:+ join sep l'
  end.

(** [s.split(c)] for a one-character separator: never the empty list. *)
Fixpoint split_go (c : ascii) (cur : string) (s : string) : list string :=
  match s with
  | EmptyString => [String.rev cur]
  | String a s' =>
      if Ascii.eqb a c then String.rev cur :: split_go c EmptyString s'
      else split_go c (String a cur) s'
  end.

Definition split (c : ascii) (s : string) : list string := split_go c EmptyString s.

Definition hex_digit (n : nat) : ascii :=
  ascii_of_nat (if Nat.ltb n 10 then 48 + n else 87 + n)%nat.

(** QuoteJSONString on one code unit. *)
Definition json_escape_char (a : ascii) : string :=
  let n := nat_of_ascii a in
  if Nat.eqb n 34 then bsl +:+ dq
  else if Nat.eqb n 92 then bsl +:+ bsl
  else if Nat.eqb n 8 then bsl +:+ "b"
  else if Nat.eqb n 12 then bsl +:+ "f"
  else if Nat.eqb n 10 then bsl +:+ "n"
  else if Nat.eqb n 13 then bsl +:+ "r"
  else if Nat.eqb n 9 then bsl +:+ "t"
  else if Nat.ltb n 32 then
    bsl +:+ "u00" +:+ String (hex_digit (n / 16)) (String (hex_digit (n mod 16)) "")
  else String a "".

Fixpoint json_escape (s : string) : string :=
  match s with
  | EmptyString => ""
  | String a s' => json_escape_char a +:+ json_escape s'
  end.

Definition json_quote (s : string) : string := dq +:+ json_escape s +:+ dq.

(** ** JSON.stringify

    [ser gap ind v] is SerializeJSONProperty with the indentation unit
    [gap] at the current indentation [ind]; [None] is the [undefined] that
    [JSON.stringify(undefined)] returns.  An [undefined] array element is
    written [null], an [undefined] property is left out. *)

Definition json_wrap (open close gap ind : string) (parts : list string) : string :=
  match parts with
  | [] => open +:+ close
  | _ =>
      if String.eqb gap "" then open +:+ join "," parts +:+ close
      else
        let ind' := ind +:+ gap in
        open +:+ nl +:+ ind' +:+ join ("," +:+ nl +:+ ind') parts +:+ nl +:+ ind +:+ close
  end.

Fixpoint ser (gap ind : string) (v : value) {struct v} : option string :=
  match v with
  | VUndefined => None
  | VNull => Some "null"
  | VBool b => Some (if b then "true" else "false")
  | VNum n => Some (pretty n)
  | VStr s => Some (json_quote s)
  | VArr _ elems =>
      let parts :=
        (fix go (l : list value) : list string :=
           match l with
           | [] => []
           | x :: l' => default "null" (ser gap (ind +:+ gap) x) :: go l'
           end) elems in
      Some (json_wrap "[" "]" gap ind parts)
  | VObj _ props =>
      let colon := if String.eqb gap "" then ":" else ": " in
      let parts :=
        (fix go (l : list (string * value)) : list string :=
           match l with
           | [] => []
           | (k, x) :: l' =>
               match ser gap (ind +:+ gap) x with
               | None => go l'
               | Some s => (json_quote k +:+ colon +:+ s) :: go l'
               end
           end) props in
      Some (json_wrap "{" "}" gap ind parts)
  end.

(** [JSON.stringify(v)] and [JSON.stringify(v, null, 2)]. *)
Definition stringify (v : value) : option string := ser "" "" v.
Definition stringify2 (v : value) : option string := ser "  " "" v.

(** ** Objects as ordered property lists *)

(** [o[k]] on an object: [undefined] when [k] is not an own property
    (inherited properties of [Object.prototype] are not modelled). *)
Fixpoint get (o : obj) (k : string) : value :=
  match o with
  | [] => VUndefined
  | (k', v) :: o' => if decide (k' = k) then v else get o' k
  end.

(** [Object.keys(o)]. *)
Definition keys {A : Type} (o : list (string * A)) : list string := o.*1.

(** [o[k] = v]: overwrite in place, else append. *)
Fixpoint set {A : Type} (o : list (string * A)) (k : string) (v : A) : list (string * A) :=
  match o with
  | [] => [(k, v)]
  | (k', v') :: o' => if decide (k' = k) then (k, v) :: o' else (k', v') :: set o' k v
  end.

(** [new Set(l)]: the elements of [l] in order of first occurrence. *)
Fixpoint uniq_go (seen : list string) (l : list string) : list string :=
  match l with
  | [] => []
  | x :: l' =>
      if decide (x ∈ seen) then uniq_go seen l' else x :: uniq_go (x :: seen) l'
  end.

Definition new_Set (l : list string) : list string := uniq_go [] l.

(** [Array.prototype.includes] on strings, [Set.prototype.has]. *)
Definition includes (l : list string) (x : string) : bool := bool_decide (x ∈ l).

(** [Array.prototype.sort(cmp)]: stable; the comparator returns a number
    whose sign orders its arguments. *)
Fixpoint sort_insert {A : Type} (cmp : A → A → Z) (x : A) (l : list A) : list A :=
  match l with
  | [] => [x]
  | y :: l' => if cmp x y <=? 0 then x :: y :: l' else y :: sort_insert cmp x l'
  end.

Definition sort {A : Type} (cmp : A → A → Z) (l : list A) : list A :=
  foldr (sort_insert cmp) [] l.

(** ** Versions *)

Definition is_digit (a : ascii) : bool :=
  let n := nat_of_ascii a in Nat.leb 48 n && Nat.leb n 57.

Fixpoint digits_value (acc : Z) (s : string) : option Z :=
  match s with
  | EmptyString => Some acc
  | String a s' =>
      if is_digit a then digits_value (10 * acc + Z.of_nat (nat_of_ascii a - 48)) s'
      else None
  end.

(** [Number(s)] on a version segment: the empty string is 0, a run of
    decimal digits is its value, anything else is NaN ([None]).  Signed,
    fractional, exponent and radix-prefixed literals and surrounding
    white space are not modelled. *)
Definition Number (s : string) : option Z := digits_value 0 s.

(** [parts[i] || 0]: a missing segment, NaN and 0 all give 0. *)
Definition part_or_0 (parts : list (option Z)) (i : nat) : Z :=
  match parts !! i with
  | Some (Some n) => n
  | _ => 0
  end.

(** The [for] loop of compareVersions with [n] iterations left. *)
Fixpoint compareVersions_loop (parts1 parts2 : list (option Z)) (i n : nat) : Z :=
  match n with
  | O => 0
  | S n' =>
      let part1 := part_or_0 parts1 i in
      let part2 := part_or_0 parts2 i in
      if decide (part1 ≠ part2) then part1 - part2
      else compareVersions_loop parts1 parts2 (S i) n'
  end.

Definition version_parts (v : string) : list (option Z) := Number <$> split "."%char v.

Definition compareVersions (v1 v2 : string) : Z :=
  let parts1 := version_parts v1 in
  let parts2 := version_parts v2 in
  compareVersions_loop parts1 parts2 0 (Nat.max (List.length parts1) (List.length parts2)).


(** ** Data model (formSnapshot.ts, formTypes.ts) *)

(** [SnapshotFieldConfig]: [important] and the extension property
    [required] are only ever tested for truthiness. *)
Record SnapshotFieldConfig := {
  type : option string;
  label : option string;
  important : bool;
  required : bool;
}.

Definition SnapshotFormConfig : Type := list (string * SnapshotFieldConfig).

(** [config[field]]. *)
Fixpoint config_get (config : SnapshotFormConfig) (k : string) : option SnapshotFieldConfig :=
  match config with
  | [] => None
  | (k', c) :: config' => if decide (k' = k) then Some c else config_get config' k
  end.

(** [FormSnapshot<T>]: [state] holds the properties of the state object,
    [metadata] is [None] when the optional property is absent. *)
Record FormSnapshot := {
  snap_id : string;
  timestamp : Z;
  state : obj;
  version : string;
  metadata : option obj;
}.

Record FieldChange := { from : value; to : value }.

(** [StateChanges<T>]: the changed fields, in the order they were recorded. *)
Definition StateChanges : Type := list (string * FieldChange).

(** ** Exceptions and effects

    The store and the migration manager read the clock, draw identifiers,
    allocate objects, log, and read and write the storage; any of these
    steps and any caller-supplied function may throw. *)

Inductive exn :=
| JsError (name message : string)
| SnapshotMigrationError (message : string) (failed_version : string) (failed : FormSnapshot).

(** [String(error)] as used by a template literal. *)
Definition exn_to_string (e : exn) : string :=
  match e with
  | JsError name message => name +:+ ": " +:+ message
  | SnapshotMigrationError message _ _ => "SnapshotMigrationError: " +:+ message
  end.

Inductive outcome (A : Type) :=
| Return (a : A)
| Throw (e : exn).
Arguments Return {A} a.
Arguments Throw {A} e.

Global Instance outcome_fmap : FMap outcome :=
  λ A B f c, match c with Return a => Return (f a) | Throw e => Throw e end.

(** What [JSON.parse] of a persisted text yields: the array of snapshots
    that [saveSnapshots] wrote, or some other JSON value.  The snapshots
    are kept as they were written: what a round trip through JSON drops
    or renews (an [undefined] property, the address of an object) is not
    modelled. *)
Inductive doc :=
| DocSnapshots (l : list FormSnapshot)
| DocNonArray.

(** A persisted text, by what it decodes to.  [TextJson d] is the JSON
    text of [d]; [TextEncoded d] is [btoa(encodeURIComponent(_))] of that
    text; [TextGarbage] is a non-empty text that is neither.  A JSON text
    is not valid base64 of a JSON text, nor the other way round, so
    reading a text with the wrong setting throws. *)
Inductive text :=
| TextEmpty
| TextJson (d : doc)
| TextEncoded (d : doc)
| TextGarbage.

(** The Web Storage object: its items and whether [getItem] or [setItem]
    currently throw (access denied, quota exceeded). *)
Record Storage := {
  items : gmap string text;
  getItem_fault : option exn;
  setItem_fault : option exn;
}.

Record World := {
  storage : Storage;
  console : list string;
  clock : nat → Z;
  ticks : nat;
  uuids : nat → string;
  drawn : nat;
  next_ref : nat;
}.

Definition M (A : Type) : Type := World → outcome A * World.

Definition ret {A} (a : A) : M A := λ w, (Return a, w).
Definition throw {A} (e : exn) : M A := λ w, (Throw e, w).
Definition bind {A B} (c : M A) (k : A → M B) : M B :=
  λ w, match c w with
       | (Return a, w') => k a w'
       | (Throw e, w') => (Throw e, w')
       end.
Definition try_catch {A} (c : M A) (handler : exn → M A) : M A :=
  λ w, match c w with
       | (Return a, w') => (Return a, w')
       | (Throw e, w') => handler e w'
       end.

Notation "x <~ c ;; k" := (bind c (λ x, k))
  (at level 100, c at next level, right associativity, only parsing).
Notation "c ;;; k" := (bind c (λ _, k))
  (at level 100, right associativity, only parsing).

Definition with_storage (w : World) (s : Storage) : World :=
  {| storage := s; console := console w; clock := clock w; ticks := ticks w;
     uuids := uuids w; drawn := drawn w; next_ref := next_ref w |}.

(** [console.error] / [console.log]: one line per call. *)
Definition console_log (line : string) : M unit :=
  λ w, (Return (),
        {| storage := storage w; console := console w ++ [line]; clock := clock w;
           ticks := ticks w; uuids := uuids w; drawn := drawn w; next_ref := next_ref w |}).

Definition Date_now : M Z :=
  λ w, (Return (clock w (ticks w)),
        {| storage := storage w; console := console w; clock := clock w;
           ticks := S (ticks w); uuids := uuids w; drawn := drawn w; next_ref := next_ref w |}).

Definition randomUUID : M string :=
  λ w, (Return (uuids w (drawn w)),
        {| storage := storage w; console := console w; clock := clock w;
           ticks := ticks w; uuids := uuids w; drawn := S (drawn w); next_ref := next_ref w |}).

(** The address of a newly created array or object. *)
Definition fresh_ref : M nat :=
  λ w, (Return (next_ref w),
        {| storage := storage w; console := console w; clock := clock w;
           ticks := ticks w; uuids := uuids w; drawn := drawn w; next_ref := S (next_ref w) |}).

Definition storage_getItem (key : string) : M (option text) :=
  λ w, match getItem_fault (storage w) with
       | Some e => (Throw e, w)
       | None => (Return (items (storage w) !! key), w)
       end.

Definition storage_setItem (key : string) (data : text) : M unit :=
  λ w, match setItem_fault (storage w) with
       | Some e => (Throw e, w)
       | None =>
           (Return (),
            with_storage w {| items := <[key := data]> (items (storage w));
                              getItem_fault := getItem_fault (storage w);
                              setItem_fault := setItem_fault (storage w) |})
       end.


(** ** Snapshot store (formSnapshot.ts) *)

Record SnapshotOptions := {
  opt_maxSnapshots : option Z;
  opt_autoCleanup : option bool;
  opt_compressionEnabled : option bool;
  opt_namespace : option string;
}.

Record FormSnapshotManager := {
  maxSnapshots : Z;
  autoCleanup : bool;
  compressionEnabled : bool;
  namespace : string;
  snapshotKey : string;
}.

(** The constructor: [||] replaces a missing or falsy option, [??] only a
    missing one. *)
Definition new_FormSnapshotManager (formId : string) (options : SnapshotOptions)
  : FormSnapshotManager :=
  let ns := match opt_namespace options with
            | Some s => if String.eqb s "" then "form_snapshots" else s
            | None => "form_snapshots"
            end in
  {| maxSnapshots := match opt_maxSnapshots options with
                     | Some n => if n =? 0 then 10 else n
                     | None => 10
                     end;
     autoCleanup := default true (opt_autoCleanup options);
     compressionEnabled := default false (opt_compressionEnabled options);
     namespace := ns;
     snapshotKey := ns +:+ "_" +:+ formId |}.

Definition compress (mgr : FormSnapshotManager) (d : doc) : text :=
  if compressionEnabled mgr then TextEncoded d else TextJson d.

(** [JSON.parse(this.decompress(data))] on a non-empty text. *)
Definition parse_decompressed (mgr : FormSnapshotManager) (data : text) : M doc :=
  match compressionEnabled mgr, data with
  | false, TextJson d => ret d
  | true, TextEncoded d => ret d
  | false, _ => throw (JsError "SyntaxError" "Unexpected token in JSON")
  | true, _ => throw (JsError "InvalidCharacterError" "The string to be decoded is not correctly encoded")
  end.

(** The [try] block of getSnapshots. *)
Definition loadSnapshots (mgr : FormSnapshotManager) : M doc :=
  data <~ storage_getItem (snapshotKey mgr) ;;
  match data with
  | None | Some TextEmpty => ret (DocSnapshots [])
  | Some t => parse_decompressed mgr t
  end.

Definition getSnapshots (mgr : FormSnapshotManager) : M doc :=
  try_catch (loadSnapshots mgr)
    (λ error,
       console_log ("Error loading snapshots: " +:+ exn_to_string error) ;;;
       ret (DocSnapshots [])).

Definition saveSnapshots (mgr : FormSnapshotManager) (snapshots : list FormSnapshot) : M unit :=
  let data := compress mgr (DocSnapshots snapshots) in
  storage_setItem (snapshotKey mgr) data.

(** [snapshots.push(snapshot)]: a parsed value that is not an array has
    no [push]. *)
Definition push (snapshots : doc) (snapshot : FormSnapshot) : M (list FormSnapshot) :=
  match snapshots with
  | DocSnapshots l => ret (l ++ [snapshot])
  | DocNonArray => throw (JsError "TypeError" "snapshots.push is not a function")
  end.

Definition createSnapshot (mgr : FormSnapshotManager) (st : obj) (md : option obj)
  : M FormSnapshot :=
  snapshots <~ getSnapshots mgr ;;
  uuid <~ randomUUID ;;
  now <~ Date_now ;;
  let snapshot :=
    {| snap_id := uuid; timestamp := now; state := st; version := "1.0"; metadata := md |} in
  snapshots <~ push snapshots snapshot ;;
  let snapshots :=
    if autoCleanup mgr && (maxSnapshots mgr <? Z.of_nat (List.length snapshots))
    then tail snapshots (* Remove oldest snapshot *)
    else snapshots in
  saveSnapshots mgr snapshots ;;;
  ret snapshot.

Definition getAllSnapshots (mgr : FormSnapshotManager) : M doc := getSnapshots mgr.


(** The per-field test of createAutoSnapshot: [currentState[field] !== prevState[field]]. *)
Definition shallow_changed (currentState prevState : obj) (field : string) : bool :=
  negb (strict_eq (get currentState field) (get prevState field)).

(** The callback of the [forEach] over [Object.keys(formConfig)]. *)
Definition auto_step (currentState prevState : obj) (changes : StateChanges) (key : string)
  : StateChanges :=
  if shallow_changed currentState prevState key
  then set changes key {| from := get prevState key; to := get currentState key |}
  else changes.

Definition auto_changes (formConfig : SnapshotFormConfig) (currentState prevState : obj)
  : StateChanges :=
  foldl (auto_step currentState prevState) [] (keys formConfig).

(** The object [changes] as it sits in the metadata: one new object per
    recorded field. *)
Fixpoint changes_props (changes : StateChanges) : M obj :=
  match changes with
  | [] => ret []
  | (k, c) :: rest =>
      r <~ fresh_ref ;;
      props <~ changes_props rest ;;
      ret ((k, VObj r [("from", from c); ("to", to c)]) :: props)
  end.

Definition createAutoSnapshot (mgr : FormSnapshotManager) (formConfig : SnapshotFormConfig)
    (currentState prevState : obj) : M (option FormSnapshot) :=
  let hasImportantChanges :=
    existsb (λ '(key, config), important config && shallow_changed currentState prevState key)
            formConfig in
  if hasImportantChanges then
    let changes := auto_changes formConfig currentState prevState in
    r <~ fresh_ref ;;
    props <~ changes_props changes ;;
    snapshot <~ createSnapshot mgr currentState
                  (Some [("auto", VBool true); ("changes", VObj r props)]) ;;
    ret (Some snapshot)
  else ret None.

(** ** Snapshot differ (formSnapshotTools.ts) *)

Record SnapshotDiff := {
  added : obj;
  removed : obj;
  modified : StateChanges;
  unchanged : list string;
}.

(** [JSON.stringify(a) !== JSON.stringify(b)]. *)
Definition serialized_changed (a b : value) : bool :=
  bool_decide (stringify a ≠ stringify b).

(** The body of the loop over [keys2]. *)
Definition added_step (keys1 : list string) (state2 : obj) (added : obj) (key : string) : obj :=
  if negb (includes keys1 key) then set added key (get state2 key) else added.

(** The body of the loop over [keys1]. *)
Definition rest_step (keys2 : list string) (state1 state2 : obj)
    (acc : obj * StateChanges * list string) (key : string) : obj * StateChanges * list string :=
  let '(removed, modified, unchanged) := acc in
  if negb (includes keys2 key) then (set removed key (get state1 key), modified, unchanged)
  else if serialized_changed (get state1 key) (get state2 key) then
    (removed, set modified key {| from := get state1 key; to := get state2 key |}, unchanged)
  else (removed, modified, unchanged ++ [key]).

Definition compareSnapshots (snapshot1 snapshot2 : FormSnapshot) : SnapshotDiff :=
  let keys1 := new_Set (keys (state snapshot1)) in
  let keys2 := new_Set (keys (state snapshot2)) in
  (* Find added fields *)
  let added := foldl (added_step keys1 (state snapshot2)) [] keys2 in
  (* Find removed and modified fields *)
  let '(removed, modified, unchanged) :=
    foldl (rest_step keys2 (state snapshot1) (state snapshot2)) ([], [], []) keys1 in
  {| added := added; removed := removed; modified := modified; unchanged := unchanged |}.

(** ** Snapshot validator (formSnapshotTools.ts) *)

Record SnapshotValidationError := {
  field : option string;
  message : string;
  code : string;
}.

Record SnapshotValidationResult := {
  isValid : bool;
  errors : list SnapshotValidationError;
}.

(** The snapshot as the validator may meet it at run time: the body
    guards against a [state] and a [metadata] that are not what the type
    [FormSnapshot<T>] promises, so both are arbitrary values here. *)
Record RawSnapshot := {
  raw_state : value;
  raw_metadata : value;
}.

Definition raw_of (s : FormSnapshot) : RawSnapshot :=
  {| raw_state := VObj 0 (state s);
     raw_metadata := match metadata s with Some md => VObj 0 md | None => VUndefined end |}.

Definition obind {A B} (c : outcome A) (k : A → outcome B) : outcome B :=
  match c with
  | Return a => k a
  | Throw e => Throw e
  end.

(** The characters of a string, as [s[i]] yields them. *)
Fixpoint chars (s : string) : list string :=
  match s with
  | EmptyString => []
  | String a s' => String a EmptyString :: chars s'
  end.

(** [l[k]] on a list-like value: an element at a canonical index, the
    [length], else [undefined]. *)
Definition indexed_get (l : list value) (k : string) : value :=
  if decide (k = "length") then VNum (Z.of_nat (List.length l))
  else match Number k with
       | Some n => if decide (pretty n = k) then default VUndefined (l !! Z.to_nat n) else VUndefined
       | None => VUndefined
       end.

(** [v[k]]: reading a property of [undefined] or [null] throws. *)
Definition get_property (v : value) (k : string) : outcome value :=
  match v with
  | VUndefined => Throw (JsError "TypeError" "Cannot read properties of undefined")
  | VNull => Throw (JsError "TypeError" "Cannot read properties of null")
  | VBool _ | VNum _ => Return VUndefined
  | VStr s => Return (indexed_get (VStr <$> chars s) k)
  | VArr _ elems => Return (indexed_get elems k)
  | VObj _ props => Return (get props k)
  end.

Definition is_nullish (v : value) : bool :=
  match v with
  | VUndefined | VNull => true
  | _ => false
  end.

Definition isArray (v : value) : bool :=
  match v with
  | VArr _ _ => true
  | _ => false
  end.

Definition type_error (fld article expected : string) : SnapshotValidationError :=
  {| field := Some fld;
     message := "Field " +:+ dq +:+ fld +:+ dq +:+ " must be " +:+ article +:+ " " +:+ expected;
     code := "INVALID_TYPE" |}.

(** The callback of [Object.entries(config).forEach]. *)
Definition validate_field (st : value) (errors : list SnapshotValidationError)
    (entry : string * SnapshotFieldConfig) : outcome (list SnapshotValidationError) :=
  let '(fld, fieldConfig) := entry in
  obind (get_property st fld) (λ value,
    let errors :=
      if required fieldConfig && is_nullish value then
        errors ++ [{| field := Some fld;
                      message := "Required field " +:+ dq +:+ fld +:+ dq +:+ " is missing";
                      code := "REQUIRED_FIELD" |}]
      else errors in
    (* Type validation *)
    let errors :=
      if negb (is_nullish value) then
        match type fieldConfig with
        | Some "string" =>
            if bool_decide (typeof value ≠ TyString) then errors ++ [type_error fld "a" "string"]
            else errors
        | Some "number" =>
            if bool_decide (typeof value ≠ TyNumber) then errors ++ [type_error fld "a" "number"]
            else errors
        | Some "boolean" =>
            if bool_decide (typeof value ≠ TyBoolean) then errors ++ [type_error fld "a" "boolean"]
            else errors
        | Some "array" =>
            if negb (isArray value) then errors ++ [type_error fld "an" "array"]
            else errors
        | _ => errors
        end
      else errors in
    Return errors).

Fixpoint validate_fields (st : value) (errors : list SnapshotValidationError)
    (config : SnapshotFormConfig) : outcome (list SnapshotValidationError) :=
  match config with
  | [] => Return errors
  | entry :: config' =>
      obind (validate_field st errors entry) (λ errors, validate_fields st errors config')
  end.

Definition validateSnapshot (snapshot : RawSnapshot) (config : SnapshotFormConfig)
  : outcome SnapshotValidationResult :=
  let errors := [] in
  (* Validate state structure *)
  if negb (truthy (raw_state snapshot)) || bool_decide (typeof (raw_state snapshot) ≠ TyObject) then
    Return {| isValid := false;
              errors := errors ++ [{| field := None;
                                      message := "Invalid snapshot state structure";
                                      code := "INVALID_STATE" |}] |}
  else
    (* Validate required fields from config *)
    obind (validate_fields (raw_state snapshot) errors config) (λ errors,
      (* Validate metadata *)
      let errors :=
        if truthy (raw_metadata snapshot) && bool_decide (typeof (raw_metadata snapshot) ≠ TyObject)
        then errors ++ [{| field := None;
                           message := "Invalid metadata structure";
                           code := "INVALID_METADATA" |}]
        else errors in
      Return {| isValid := Nat.eqb (List.length errors) 0; errors := errors |}).

(** ** Migration manager (formSnapshotMigration.ts) *)

(** [up] and [down] are caller-supplied; they return the new state or
    throw (a rejected promise is a throw at the [await]). *)
Record Migration := {
  m_version : string;
  description : string;
  up : obj → outcome obj;
  down : obj → outcome obj;
}.

Inductive direction := dir_up | dir_down.

Definition direction_name (d : direction) : string :=
  match d with dir_up => "up" | dir_down => "down" end.

Record SnapshotMigrationManager := {
  migrations : list Migration;
  strict : bool;
}.

(** [this.options.logger(message, data)], by default [console.log]. *)
Definition logger (message : string) (data : option string) : M unit :=
  console_log (match data with Some d => message +:+ " " +:+ d | None => message end).

Definition lift {A} (c : outcome A) : M A := λ w, (c, w).

Definition addMigration (mgr : SnapshotMigrationManager) (migration : Migration)
  : SnapshotMigrationManager :=
  {| migrations :=
       (* Sort migrations by version *)
       sort (λ a b, compareVersions (m_version a) (m_version b)) (migrations mgr ++ [migration]);
     strict := strict mgr |}.

(** [...(v || [])] inside an array literal: the elements of an array, the
    characters of a string, nothing for a falsy value; any other value is
    not iterable. *)
Definition spread_or_empty (v : value) : outcome (list value) :=
  if truthy v then
    match v with
    | VArr _ elems => Return elems
    | VStr s => Return (VStr <$> chars s)
    | _ => Throw (JsError "TypeError" "Spread syntax requires ...iterable[Symbol.iterator] to be a function")
    end
  else Return [].

Definition executeMigration (snapshot : FormSnapshot) (migration : Migration) (dir : direction)
  : M FormSnapshot :=
  try_catch
    (let migrateFn := match dir with dir_up => up migration | dir_down => down migration end in
     newState <~ lift (migrateFn (state snapshot)) ;;
     let md := default [] (metadata snapshot) in
     r_list <~ fresh_ref ;;
     previous <~ lift (spread_or_empty (get md "migrations")) ;;
     r_entry <~ fresh_ref ;;
     now <~ Date_now ;;
     let entry :=
       VObj r_entry [("version", VStr (m_version migration));
                     ("direction", VStr (direction_name dir));
                     ("timestamp", VNum now);
                     ("description", VStr (description migration))] in
     ret {| snap_id := snap_id snapshot;
            timestamp := timestamp snapshot;
            state := newState;
            version := m_version migration;
            metadata := Some (set md "migrations" (VArr r_list (previous ++ [entry]))) |})
    (λ error,
       throw (SnapshotMigrationError
                ("Migration " +:+ direction_name dir +:+ " to version " +:+ m_version migration
                 +:+ " failed: " +:+ exn_to_string error)
                (m_version migration)
                snapshot)).

(** The callback of [this.migrations.filter]. *)
Definition migration_selected (isUpgrade : bool) (currentVersion targetVersion : string)
    (m : Migration) : bool :=
  if isUpgrade then
    (0 <? compareVersions (m_version m) currentVersion)
    && (compareVersions (m_version m) targetVersion <=? 0)
  else
    (compareVersions (m_version m) currentVersion <=? 0)
    && (0 <? compareVersions (m_version m) targetVersion).

(** The migrations [migrateToVersion] selects, in the order it runs them. *)
Definition relevantMigrations (mgr : SnapshotMigrationManager)
    (currentVersion targetVersion : string) : list Migration :=
  let isUpgrade := 0 <? compareVersions targetVersion currentVersion in
  sort (λ a b, if isUpgrade then compareVersions (m_version a) (m_version b)
               else compareVersions (m_version b) (m_version a))
       (filter (λ m, Is_true (migration_selected isUpgrade currentVersion targetVersion m))
               (migrations mgr)).

(** The [for] loop of migrateToVersion. *)
Fixpoint run_migrations (isUpgrade : bool) (relevant : list Migration)
    (currentSnapshot : FormSnapshot) : M FormSnapshot :=
  match relevant with
  | [] => ret currentSnapshot
  | migration :: rest =>
      logger ("Executing " +:+ (if isUpgrade then "up" else "down")
              +:+ " migration to version " +:+ m_version migration)
             (Some (description migration)) ;;;
      currentSnapshot <~ executeMigration currentSnapshot migration
                           (if isUpgrade then dir_up else dir_down) ;;
      run_migrations isUpgrade rest currentSnapshot
  end.

Definition migrateToVersion (mgr : SnapshotMigrationManager) (snapshot : FormSnapshot)
    (targetVersion : string) : M FormSnapshot :=
  let currentVersion := version snapshot in
  logger ("Migrating from version " +:+ currentVersion +:+ " to " +:+ targetVersion) None ;;;
  if decide (compareVersions currentVersion targetVersion = 0) then ret snapshot
  else
    let isUpgrade := 0 <? compareVersions targetVersion currentVersion in
    run_migrations isUpgrade (relevantMigrations mgr currentVersion targetVersion) snapshot.

Definition migrateToLatest (mgr : SnapshotMigrationManager) (snapshot : FormSnapshot)
  : M FormSnapshot :=
  match last (migrations mgr) with
  | Some m => if String.eqb (m_version m) "" then ret snapshot
              else migrateToVersion mgr snapshot (m_version m)
  | None => ret snapshot
  end.

(** ** Report generator (formSnapshotReport.ts) *)

Record ReportFilters := {
  fromDate : option Z;
  toDate : option Z;
  filter_versions : option (list string);
  filter_fields : option (list string);
  onlyImportant : bool;
}.

Definition no_filters : ReportFilters :=
  {| fromDate := None; toDate := None; filter_versions := None; filter_fields := None;
     onlyImportant := false |}.

Inductive report_format := fmt_text | fmt_markdown | fmt_html | fmt_json.

Record ReportOptions := {
  includeMetadata : option bool;
  includeTimestamps : option bool;
  format : option report_format;
  filters : option ReportFilters;
}.

Inductive Importance := high | medium | low.

Global Instance Importance_eq_dec : EqDecision Importance.
Proof. solve_decision. Defined.

Record ProcessedSnapshot := {
  snapshot : FormSnapshot;
  changes : option StateChanges;
  importance : Importance;
}.

Record ReportSummary := {
  totalSnapshots : nat;
  dateRange_from : Z;
  dateRange_to : Z;
  versions : list string;
  totalChanges : nat;
  importantChanges : nat;
}.

Record SnapshotReport := {
  summary : ReportSummary;
  snapshots : list ProcessedSnapshot;
}.

(** The chain of [filter] calls on the list sorted by timestamp. *)
Definition filterSnapshots (fs : ReportFilters) (l : list FormSnapshot) : list FormSnapshot :=
  let filteredSnapshots := sort (λ a b, timestamp a - timestamp b) l in
  let filteredSnapshots :=
    match fromDate fs with
    | Some d => filter (λ s, d ≤ timestamp s) filteredSnapshots
    | None => filteredSnapshots
    end in
  let filteredSnapshots :=
    match toDate fs with
    | Some d => filter (λ s, timestamp s ≤ d) filteredSnapshots
    | None => filteredSnapshots
    end in
  match filter_versions fs with
  | Some (v :: vs) => filter (λ s, version s ∈ v :: vs) filteredSnapshots
  | _ => filteredSnapshots
  end.

(** [!filters.fields || filters.fields.includes(String(field))]. *)
Definition field_selected (fs : ReportFilters) (key : string) : bool :=
  match filter_fields fs with
  | None => true
  | Some l => includes l key
  end.

(** [config[field]?.important]. *)
Definition is_important (config : SnapshotFormConfig) (key : string) : bool :=
  match config_get config key with
  | Some c => important c
  | None => false
  end.

(** The test of the [forEach] over [Object.keys(snapshot.state)]: the
    field is selected and its serialization differs from the previous one. *)
Definition field_changed (fs : ReportFilters) (previousSnapshot snap : FormSnapshot)
    (key : string) : bool :=
  field_selected fs key
  && serialized_changed (get (state snap) key) (get (state previousSnapshot) key).

(** The callback of the [forEach] over [Object.keys(snapshot.state)]. *)
Definition report_step (fs : ReportFilters) (config : SnapshotFormConfig)
    (previousSnapshot snap : FormSnapshot) (acc : StateChanges * nat) (key : string)
  : StateChanges * nat :=
  let '(changes, importantChangeCount) := acc in
  if field_changed fs previousSnapshot snap key
  then (set changes key {| from := get (state previousSnapshot) key;
                           to := get (state snap) key |},
        if is_important config key then S importantChangeCount else importantChangeCount)
  else (changes, importantChangeCount).

(** The changes against the previous snapshot and the number of
    important ones. *)
Definition report_changes (fs : ReportFilters) (config : SnapshotFormConfig)
    (previousSnapshot snap : FormSnapshot) : StateChanges * nat :=
  foldl (report_step fs config previousSnapshot snap) ([], O) (keys (state snap)).

(** The callback of [filteredSnapshots.map]. *)
Definition processSnapshot (fs : ReportFilters) (config : SnapshotFormConfig)
    (filteredSnapshots : list FormSnapshot) (index : nat) (snap : FormSnapshot)
  : ProcessedSnapshot :=
  let previousSnapshot :=
    if Nat.ltb 0 index then filteredSnapshots !! (index - 1)%nat else None in
  let '(changes, importantChangeCount) :=
    match previousSnapshot with
    | Some prev => report_changes fs config prev snap
    | None => ([], O)
    end in
  (* Determine importance level *)
  let importance :=
    if Nat.ltb 0 importantChangeCount then high
    else if Nat.ltb 3 (List.length changes) then medium
    else low in
  {| snapshot := snap;
     changes := if Nat.ltb 0 (List.length changes) then Some changes else None;
     importance := importance |}.

Definition processSnapshots (fs : ReportFilters) (config : SnapshotFormConfig)
    (filteredSnapshots : list FormSnapshot) : list ProcessedSnapshot :=
  imap (processSnapshot fs config filteredSnapshots) filteredSnapshots.

Definition finalSnapshots (fs : ReportFilters) (config : SnapshotFormConfig)
    (l : list FormSnapshot) : list ProcessedSnapshot :=
  let processedSnapshots := processSnapshots fs config (filterSnapshots fs l) in
  (* Filter by importance if needed *)
  if onlyImportant fs then filter (λ s, importance s = high) processedSnapshots
  else processedSnapshots.

(** [t || Date.now()] on an optional timestamp. *)
Definition timestamp_or_now (t : option Z) : M Z :=
  match t with
  | Some n => if n =? 0 then Date_now else ret n
  | None => Date_now
  end.

Definition generateReport (l : list FormSnapshot) (config : SnapshotFormConfig)
    (options : ReportOptions) : M SnapshotReport :=
  let fs := default no_filters (filters options) in
  let final := finalSnapshots fs config l in
  (* Generate summary *)
  date_from <~ timestamp_or_now (timestamp ∘ snapshot <$> head final) ;;
  date_to <~ timestamp_or_now (timestamp ∘ snapshot <$> last final) ;;
  ret {| summary :=
           {| totalSnapshots := List.length final;
              dateRange_from := date_from;
              dateRange_to := date_to;
              versions := sort compareVersions (new_Set (version ∘ snapshot <$> final));
              totalChanges := List.length (filter (λ s, is_Some (changes s)) final);
              importantChanges := List.length (filter (λ s, importance s = high) final) |};
         snapshots := final |}.

(** ** Report formatters (formSnapshotMarkdown.ts and the HTML formatter)

    A formatter builds its output from the text of its templates, from
    numbers, dates and labels it computes, and from strings that come with
    the report: field names, serialized field values, versions and
    metadata.  A [rope] is such an output string cut at these seams, with
    the provenance of each piece and, for a string of the report, whether
    the formatter passed it to its escape function.  [text_of] is the
    string the source builds. *)

Inductive piece :=
| Markup (s : string)
| Computed (s : string)
| Escaped (s : string)
| Verbatim (s : string).

Definition rope : Type := list piece.

Definition piece_text (escape : string → string) (p : piece) : string :=
  match p with
  | Markup s | Computed s | Verbatim s => s
  | Escaped s => escape s
  end.

Definition text_of (escape : string → string) (r : rope) : string :=
  foldr (λ p acc, piece_text escape p +:+ acc) "" r.

(** [Array.prototype.join] on ropes. *)
Fixpoint rjoin (sep : string) (l : list rope) : rope :=
  match l with
  | [] => []
  | [x] => x
  | x :: l' => x ++ [Markup sep] ++ rjoin sep l'
  end.

Definition multiline : list string → string := join nl.

(** [l.map(f)] for a callback that may throw. *)
Fixpoint omap {A B} (f : A → outcome B) (l : list A) : outcome (list B) :=
  match l with
  | [] => Return []
  | x :: l' => obind (f x) (λ y, obind (omap f l') (λ ys, Return (y :: ys)))
  end.

(** [escape(JSON.stringify(v))]: when the serialization is [undefined]
    the escape function throws on [text.replace]. *)
Definition escape_serialized (serialize : value → option string) (v : value) : outcome rope :=
  match serialize v with
  | Some s => Return [Escaped s]
  | None => Throw (JsError "TypeError" "Cannot read properties of undefined (reading 'replace')")
  end.

Definition importance_name (i : Importance) : string :=
  match i with high => "high" | medium => "medium" | low => "low" end.

(** [text.replace(/c/g, by)]. *)
Fixpoint replace_char (c : ascii) (by_ : string) (text : string) : string :=
  match text with
  | EmptyString => EmptyString
  | String a s => if Ascii.eqb a c then by_ +:+ replace_char c by_ s
                  else String a (replace_char c by_ s)
  end.

Definition htmlEscape (text : string) : string :=
  replace_char "039"%char "&#039;"
    (replace_char "034"%char "&quot;"
       (replace_char ">"%char "&gt;"
          (replace_char "<"%char "&lt;"
             (replace_char "&"%char "&amp;" text)))).

Definition md_special (a : ascii) : bool :=
  bool_decide (a ∈ ["*"%char; "_"%char; "`"%char; "["%char; "]"%char]).

(** [text.replace(/[*_`[\]]/g, '\\$&')]. *)
Fixpoint mdEscape (text : string) : string :=
  match text with
  | EmptyString => EmptyString
  | String a s => if md_special a then String "092"%char (String a (mdEscape s))
                  else String a (mdEscape s)
  end.

Section Formatters.

(** [Date.prototype.toLocaleDateString], [toLocaleString] and
    [toISOString] of the date with a given time value; the first two
    depend on the locale and time zone of the host. *)
Variables toLocaleDateString toLocaleString toISOString : Z → string.

(** The style sheet embedded in every HTML report. *)
Definition css : string :=
  multiline ["";
         "<style>";
         "  :root {";
         "    --primary: #3b82f6;";
         "    --success: #22c55e;";
         "    --warning: #eab308;";
         "    --danger: #ef4444;";
         "    --gray: #6b7280;";
         "  }";
         "  ";
         "  body {";
         ("    font-family: -apple-system, BlinkMacSystemFont, " +:+ dq +:+ "Segoe UI" +:+ dq +:+ ", Roboto, sans-serif;");
         "    line-height: 1.5;";
         "    max-width: 1200px;";
         "    margin: 0 auto;";
         "    padding: 2rem;";
         "    color: #1f2937;";
         "  }";
         "  ";
         "  @media (prefers-color-scheme: dark) {";
         "    body {";
         "      background-color: #111827;";
         "      color: #f9fafb;";
         "    }";
         "  }";
         "  ";
         "  h1, h2, h3, h4 { margin-top: 2rem; }";
         "  ";
         "  .card {";
         "    background: white;";
         "    border-radius: 0.5rem;";
         "    box-shadow: 0 1px 3px rgba(0,0,0,0.1);";
         "    padding: 1.5rem;";
         "    margin: 1rem 0;";
         "  }";
         "  ";
         "  @media (prefers-color-scheme: dark) {";
         "    .card {";
         "      background: #1f2937;";
         "    }";
         "  }";
         "  ";
         "  .table {";
         "    width: 100%;";
         "    border-collapse: collapse;";
         "    margin: 1rem 0;";
         "  }";
         "  ";
         "  .table th,";
         "  .table td {";
         "    padding: 0.75rem;";
         "    text-align: left;";
         "    border-bottom: 1px solid #e5e7eb;";
         "  }";
         "  ";
         "  @media (prefers-color-scheme: dark) {";
         "    .table th,";
         "    .table td {";
         "      border-color: #374151;";
         "    }";
         "  }";
         "  ";
         "  .badge {";
         "    display: inline-block;";
         "    padding: 0.25rem 0.5rem;";
         "    border-radius: 9999px;";
         "    font-size: 0.875rem;";
         "    font-weight: 500;";
         "  }";
         "  ";
         "  .badge-high { background: #fee2e2; color: #dc2626; }";
         "  .badge-medium { background: #fef3c7; color: #d97706; }";
         "  .badge-low { background: #ecfdf5; color: #059669; }";
         "  ";
         "  @media (prefers-color-scheme: dark) {";
         "    .badge-high { background: #7f1d1d; color: #fca5a5; }";
         "    .badge-medium { background: #78350f; color: #fcd34d; }";
         "    .badge-low { background: #064e3b; color: #6ee7b7; }";
         "  }";
         "  ";
         "  .changes {";
         "    display: grid;";
         "    grid-template-columns: 1fr 1fr;";
         "    gap: 1rem;";
         "    padding: 0.75rem;";
         "    background: #f9fafb;";
         "    border-radius: 0.375rem;";
         "    margin: 0.5rem 0;";
         "  }";
         "  ";
         "  @media (prefers-color-scheme: dark) {";
         "    .changes {";
         "      background: #374151;";
         "    }";
         "  }";
         "  ";
         "  .changed-value {";
         "    color: var(--primary);";
         "    font-weight: 500;";
         "  }";
         "  ";
         "  details summary {";
         "    cursor: pointer;";
         "    padding: 1rem;";
         "    background: #f3f4f6;";
         "    border-radius: 0.375rem;";
         "  }";
         "  ";
         "  @media (prefers-color-scheme: dark) {";
         "    details summary {";
         "      background: #1f2937;";
         "    }";
         "  }";
         "</style>"].

Definition formatChangesTable_row (entry : string * FieldChange) : outcome rope :=
  let '(fld, change) := entry in
  obind (escape_serialized stringify2 (from change)) (λ from_text,
  obind (escape_serialized stringify2 (to change)) (λ to_text,
  Return
    ([Markup (multiline ["";
                    "      <tr>";
                    "        <td>"])]
     ++ [Escaped fld]
     ++ [Markup (multiline ["</td>";
                    "        <td><pre>"])]
     ++ from_text
     ++ [Markup (multiline ["</pre></td>";
                    "        <td><pre>"])]
     ++ to_text
     ++ [Markup (multiline ["</pre></td>";
                    "      </tr>";
                    "    "])]))).

Definition formatChangesTable (changes : StateChanges) : outcome rope :=
  obind (omap formatChangesTable_row changes) (λ rows,
  let rows := rjoin "" rows in
  Return
    ([Markup (multiline ["";
                    ("    <table class=" +:+ dq +:+ "table" +:+ dq +:+ ">");
                    "      <thead>";
                    "        <tr>";
                    "          <th>Field</th>";
                    "          <th>Previous Value</th>";
                    "          <th>New Value</th>";
                    "        </tr>";
                    "      </thead>";
                    "      <tbody>";
                    "        "])]
     ++ rows
     ++ [Markup (multiline ["";
                    "      </tbody>";
                    "    </table>";
                    "  "])])).

Definition capitalized (i : Importance) : string :=
  match i with high => "High" | medium => "Medium" | low => "Low" end.

Definition formatSnapshotSection (processedSnapshot : ProcessedSnapshot) : outcome rope :=
  let snap := snapshot processedSnapshot in
  obind (match changes processedSnapshot with
         | Some (c :: cs) =>
             obind (formatChangesTable (c :: cs)) (λ table,
             Return
               ([Markup (multiline ["";
                               ("        <div style=" +:+ dq +:+ "margin-top: 1rem;" +:+ dq +:+ ">");
                               "          <h4>Changes</h4>";
                               "          "])]
                ++ table
                ++ [Markup (multiline ["";
                               "        </div>";
                               "      "])]))
         | _ => Return []
         end) (λ changes_part,
  obind (match metadata snap with
         | Some md =>
             obind (escape_serialized stringify2 (VObj 0 md)) (λ md_text,
             Return
               ([Markup (multiline ["";
                               ("        <div style=" +:+ dq +:+ "margin-top: 1rem;" +:+ dq +:+ ">");
                               "          <h4>Metadata</h4>";
                               ("          <pre style=" +:+ dq +:+ "background: #f3f4f6; padding: 1rem; border-radius: 0.375rem;" +:+ dq +:+ ">");
                               ""])]
                ++ md_text
                ++ [Markup (multiline ["";
                               "          </pre>";
                               "        </div>";
                               "      "])]))
         | None => Return []
         end) (λ metadata_part,
  Return
    ([Markup (multiline ["";
                    ("    <div class=" +:+ dq +:+ "card" +:+ dq +:+ ">");
                    ("      <div style=" +:+ dq +:+ "display: flex; justify-content: space-between; align-items: center;" +:+ dq +:+ ">");
                    ("        <h3 style=" +:+ dq +:+ "margin: 0;" +:+ dq +:+ ">");
                    "          Version "])]
     ++ [Escaped (version snap)]
     ++ [Markup (multiline ["";
                    ("          <span class=" +:+ dq +:+ "badge badge-")])]
     ++ [Computed (importance_name (importance processedSnapshot))]
     ++ [Markup (multiline [(dq +:+ ">");
                    "            "])]
     ++ [Computed (capitalized (importance processedSnapshot))]
     ++ [Markup (multiline ["";
                    "          </span>";
                    "        </h3>";
                    ("        <time datetime=" +:+ dq)])]
     ++ [Computed (toISOString (timestamp snap))]
     ++ [Markup (multiline [(dq +:+ ">");
                    "          "])]
     ++ [Computed (toLocaleString (timestamp snap))]
     ++ [Markup (multiline ["";
                    "        </time>";
                    "      </div>";
                    "      ";
                    "      "])]
     ++ changes_part
     ++ [Markup (multiline ["";
                    "      ";
                    "      "])]
     ++ metadata_part
     ++ [Markup (multiline ["";
                    "    </div>";
                    "  "])]))).

Definition formatHtmlReport_rope (report : SnapshotReport) : outcome rope :=
  let by_importance := λ i, filter (λ s, importance s = i) (snapshots report) in
  obind (match by_importance high with
         | [] => Return []
         | group =>
             obind (omap formatSnapshotSection group) (λ sections,
             Return
               ([Markup (multiline ["";
                               "    <h3>ðŸ”´ High Importance Changes</h3>";
                               "    "])]
                ++ rjoin nl sections
                ++ [Markup (multiline ["";
                               "  "])]))
         end) (λ high_part,
  obind (match by_importance medium with
         | [] => Return []
         | group =>
             obind (omap formatSnapshotSection group) (λ sections,
             Return
               ([Markup (multiline ["";
                               "    <h3>ðŸŸ¡ Medium Importance Changes</h3>";
                               "    "])]
                ++ rjoin nl sections
                ++ [Markup (multiline ["";
                               "  "])]))
         end) (λ medium_part,
  obind (match by_importance low with
         | [] => Return []
         | group =>
             obind (omap formatSnapshotSection group) (λ sections,
             Return
               ([Markup (multiline ["";
                               "    <h3>ðŸŸ¢ Low Importance Changes</h3>";
                               "    <details>";
                               "      <summary>Show low importance changes</summary>";
                               "      "])]
                ++ rjoin nl sections
                ++ [Markup (multiline ["";
                               "    </details>";
                               "  "])]))
         end) (λ low_part,
  Return
    ([Markup (multiline ["";
                    "<!DOCTYPE html>";
                    ("<html lang=" +:+ dq +:+ "en" +:+ dq +:+ ">");
                    "<head>";
                    ("  <meta charset=" +:+ dq +:+ "UTF-8" +:+ dq +:+ ">");
                    ("  <meta name=" +:+ dq +:+ "viewport" +:+ dq +:+ " content=" +:+ dq +:+ "width=device-width, initial-scale=1.0" +:+ dq +:+ ">");
                    "  <title>Form Snapshot Report</title>";
                    "  "])]
     ++ [Markup css]
     ++ [Markup (multiline ["";
                    "</head>";
                    "<body>";
                    "  <h1>Form Snapshot Report</h1>";
                    "  ";
                    ("  <div class=" +:+ dq +:+ "card" +:+ dq +:+ ">");
                    "    <h2>Summary</h2>";
                    ("    <table class=" +:+ dq +:+ "table" +:+ dq +:+ ">");
                    "      <tbody>";
                    "        <tr>";
                    "          <th>Total Snapshots</th>";
                    "          <td>"])]
     ++ [Computed (pretty (totalSnapshots (summary report)))]
     ++ [Markup (multiline ["</td>";
                    "        </tr>";
                    "        <tr>";
                    "          <th>Date Range</th>";
                    "          <td>";
                    "            "])]
     ++ [Computed (toLocaleDateString (dateRange_from (summary report)))]
     ++ [Markup (multiline [" - ";
                    "            "])]
     ++ [Computed (toLocaleDateString (dateRange_to (summary report)))]
     ++ [Markup (multiline ["";
                    "          </td>";
                    "        </tr>";
                    "        <tr>";
                    "          <th>Versions</th>";
                    "          <td>"])]
     ++ rjoin ", " ((λ v, [Verbatim v]) <$> versions (summary report))
     ++ [Markup (multiline ["</td>";
                    "        </tr>";
                    "        <tr>";
                    "          <th>Total Changes</th>";
                    "          <td>"])]
     ++ [Computed (pretty (totalChanges (summary report)))]
     ++ [Markup (multiline ["</td>";
                    "        </tr>";
                    "        <tr>";
                    "          <th>Important Changes</th>";
                    "          <td>"])]
     ++ [Computed (pretty (importantChanges (summary report)))]
     ++ [Markup (multiline ["</td>";
                    "        </tr>";
                    "      </tbody>";
                    "    </table>";
                    "  </div>";
                    "";
                    "  <h2>Snapshots</h2>";
                    "  ";
                    "  "])]
     ++ high_part
     ++ [Markup (multiline ["";
                    "  ";
                    "  "])]
     ++ medium_part
     ++ [Markup (multiline ["";
                    "  ";
                    "  "])]
     ++ low_part
     ++ [Markup (multiline ["";
                    "</body>";
                    "</html>"])])))).

Definition formatHtmlReport (report : SnapshotReport) : outcome string :=
  obind (formatHtmlReport_rope report) (λ r, Return (text_of htmlEscape r)).

Definition mdTable (headers : list rope) (rows : list (list rope)) : rope :=
  let headerRow := [Markup "| "] ++ rjoin " | " headers ++ [Markup " |"] in
  let separatorRow :=
    [Markup "| "] ++ rjoin " | " ((λ _, [Markup "---"]) <$> headers) ++ [Markup " |"] in
  let dataRows := (λ row, [Markup "| "] ++ rjoin " | " row ++ [Markup " |"]) <$> rows in
  rjoin nl (headerRow :: separatorRow :: dataRows).

Definition mdDetails (summary_ content : rope) : rope :=
  [Markup ("<details>" +:+ nl +:+ "<summary>")] ++ summary_
  ++ [Markup ("</summary>" +:+ nl +:+ nl)] ++ content
  ++ [Markup (nl +:+ "</details>")].

Definition mdCodeBlock (content : rope) (language : string) : rope :=
  [Markup ("```" +:+ language +:+ nl)] ++ content ++ [Markup (nl +:+ "```")].

(** A serialization interpolated as it is; [undefined] prints as such. *)
Definition verbatim_serialized (serialize : value → option string) (v : value) : rope :=
  match serialize v with
  | Some s => [Verbatim s]
  | None => [Markup "undefined"]
  end.

Definition formatChangesAsTable (changes : StateChanges) : outcome rope :=
  let headers := [[Markup "Field"]; [Markup "Previous Value"]; [Markup "New Value"]] in
  obind (omap (λ '(fld, change),
                 obind (escape_serialized stringify (from change)) (λ from_text,
                 obind (escape_serialized stringify (to change)) (λ to_text,
                 Return [[Escaped fld]; from_text; to_text])))
              changes) (λ rows,
  Return (mdTable headers rows)).

Definition addSnapshotSection (processedSnapshot : ProcessedSnapshot) (lines : list rope)
  : outcome (list rope) :=
  let snap := snapshot processedSnapshot in
  let lines :=
    lines ++ [[Markup "#### Version "; Escaped (version snap)];
              [];
              [Markup "*"; Computed (toLocaleString (timestamp snap)); Markup "*"];
              []] in
  obind (match changes processedSnapshot with
         | Some (c :: cs) =>
             obind (formatChangesAsTable (c :: cs)) (λ table,
             Return (lines ++ [[Markup "Changes:"]; []; table; []]))
         | _ => Return lines
         end) (λ lines,
  let lines :=
    match metadata snap with
    | Some md =>
        lines ++ [[Markup "Metadata:"];
                  [];
                  mdCodeBlock (verbatim_serialized stringify2 (VObj 0 md)) "json";
                  []]
    | None => lines
    end in
  Return (lines ++ [[Markup "---"]; []])).

(** [group.forEach(s => addSnapshotSection(s, lines))]. *)
Fixpoint addSnapshotSections (group : list ProcessedSnapshot) (lines : list rope)
  : outcome (list rope) :=
  match group with
  | [] => Return lines
  | s :: group' => obind (addSnapshotSection s lines) (addSnapshotSections group')
  end.

Definition formatMarkdownReport_rope (report : SnapshotReport) : outcome rope :=
  let lines :=
    [[Markup "# Form Snapshot Report"];
     [];
     [Markup "## Summary"];
     [];
     mdTable
       [[Markup "Metric"]; [Markup "Value"]]
       [[[Markup "Total Snapshots"]; [Computed (pretty (totalSnapshots (summary report)))]];
        [[Markup "Date Range"];
         [Computed (toLocaleDateString (dateRange_from (summary report)));
          Markup " - ";
          Computed (toLocaleDateString (dateRange_to (summary report)))]];
        [[Markup "Versions"]; rjoin ", " ((λ v, [Verbatim v]) <$> versions (summary report))];
        [[Markup "Total Changes"]; [Computed (pretty (totalChanges (summary report)))]];
        [[Markup "Important Changes"]; [Computed (pretty (importantChanges (summary report)))]]];
     [];
     [Markup "## Snapshots"];
     []] in
  (* Group snapshots by importance *)
  let by_importance := λ i, filter (λ s, importance s = i) (snapshots report) in
  (* Add high importance snapshots *)
  obind (match by_importance high with
         | [] => Return lines
         | group =>
             addSnapshotSections group (lines ++ [[Markup "### 🔴 High Importance Changes"]; []])
         end) (λ lines,
  (* Add medium importance snapshots *)
  obind (match by_importance medium with
         | [] => Return lines
         | group =>
             addSnapshotSections group (lines ++ [[Markup "### 🟡 Medium Importance Changes"]; []])
         end) (λ lines,
  (* Add low importance snapshots in a collapsible section *)
  obind (match by_importance low with
         | [] => Return lines
         | group =>
             let lines := lines ++ [[Markup "### 🟢 Low Importance Changes"]; []] in
             obind (addSnapshotSections group []) (λ lowImportanceLines,
             Return (lines ++ [mdDetails [Markup "Show low importance changes"]
                                         (rjoin nl lowImportanceLines)]))
         end) (λ lines,
  Return (rjoin nl lines)))).

Definition formatMarkdownReport (report : SnapshotReport) : outcome string :=
  obind (formatMarkdownReport_rope report) (λ r, Return (text_of mdEscape r)).

End Formatters.

(** ** Snapshot store: lookup and deletion (formSnapshot.ts) *)

(** [snapshots.find(s => s.id === id) || null]: a stored snapshot is an
    object, so [||] replaces only a missing one. *)
Definition getSnapshot (mgr : FormSnapshotManager) (id : string) : M (option FormSnapshot) :=
  snapshots <~ getSnapshots mgr ;;
  match snapshots with
  | DocSnapshots l => ret (snd <$> list_find (λ s, snap_id s = id) l)
  | DocNonArray => throw (JsError "TypeError" "snapshots.find is not a function")
  end.

(** [snapshot?.state || null]. *)
Definition restoreSnapshot (mgr : FormSnapshotManager) (id : string) : M (option obj) :=
  snapshot <~ getSnapshot mgr id ;;
  ret (state <$> snapshot).

(** [findIndex], then [splice(index, 1)] and a write when the index is
    not -1. *)
Definition deleteSnapshot (mgr : FormSnapshotManager) (id : string) : M bool :=
  snapshots <~ getSnapshots mgr ;;
  match snapshots with
  | DocSnapshots l =>
      match fst <$> list_find (λ s, snap_id s = id) l with
      | None => ret false
      | Some index =>
          saveSnapshots mgr (delete index l) ;;;
          ret true
      end
  | DocNonArray => throw (JsError "TypeError" "snapshots.findIndex is not a function")
  end.

(** ** The history of one field (formSnapshotTools.ts) *)

(** An element of the array findSnapshotDifferences returns:
    [{ timestamp, value }]. *)
Record ValueAt := {
  at_timestamp : Z;
  at_value : value;
}.

(** The callback of the [forEach]; [lastValue] starts as [undefined]. *)
Definition differences_step (field : string) (acc : list ValueAt * value)
    (snapshot : FormSnapshot) : list ValueAt * value :=
  let '(changes, lastValue) := acc in
  let currentValue := get (state snapshot) field in
  if strict_eq lastValue VUndefined || serialized_changed lastValue currentValue
  then (changes ++ [{| at_timestamp := timestamp snapshot; at_value := currentValue |}],
        currentValue)
  else (changes, lastValue).

(** [sort] works in place: the first component is the caller's array as
    the call leaves it, the second the returned changes. *)
Definition findSnapshotDifferences (snapshots : list FormSnapshot) (field : string)
  : list FormSnapshot * list ValueAt :=
  let snapshots := sort (λ a b, timestamp a - timestamp b) snapshots in
  (snapshots, (foldl (differences_step field) ([], VUndefined) snapshots).1).

(** ** Validation of the migration list (formSnapshotMigration.ts) *)

(** The callback of the [reduce] that checks version continuity: the
    accumulator is the previous version, [errors] the array the
    callbacks share. *)
Definition order_step (acc : list string * string) (migration : Migration)
  : list string * string :=
  let '(errors, prevVersion) := acc in
  (if negb (String.eqb prevVersion "")
      && (compareVersions (m_version migration) prevVersion <=? 0)
   then errors ++ ["Invalid version order: " +:+ prevVersion +:+ " -> " +:+ m_version migration]
   else errors,
   m_version migration).

(** The callback of the [forEach] that checks reversibility.  [up] and
    [down] are called without [await], on a new empty object: the model
    covers functions that return their result directly and leave their
    argument as it is. *)
Definition reversibility_step (errors : list string) (migration : Migration) : list string :=
  let testState : obj := [] in
  match obind (up migration testState) (λ upResult, down migration upResult) with
  | Return downResult =>
      if bool_decide (stringify (VObj 0 testState) ≠ stringify (VObj 0 downResult))
      then errors ++ ["Migration " +:+ m_version migration +:+ " is not reversible"]
      else errors
  | Throw error =>
      errors ++ ["Migration " +:+ m_version migration +:+ " validation failed: "
                 +:+ exn_to_string error]
  end.

Definition validateMigrations (mgr : SnapshotMigrationManager) (config : SnapshotFormConfig)
  : outcome unit :=
  if negb (strict mgr) then Return ()
  else
    let errors := [] in
    (* Version continuity *)
    let errors := (foldl order_step (errors, "0.0.0") (migrations mgr)).1 in
    (* Migration reversibility *)
    let errors := foldl reversibility_step errors (migrations mgr) in
    if Nat.ltb 0 (List.length errors)
    then Throw (JsError "Error" ("Migration validation failed:" +:+ nl +:+ join nl errors))
    else Return ().

(** ** Timeline (the FormSnapshotTimeline component) *)

(** The callback of the [forEach] in the [changes] memo of TimelineItem. *)
Definition timeline_step (snapshot previousSnapshot : FormSnapshot) (changes : StateChanges)
    (key : string) : StateChanges :=
  if serialized_changed (get (state snapshot) key) (get (state previousSnapshot) key)
  then set changes key {| from := get (state previousSnapshot) key;
                          to := get (state snapshot) key |}
  else changes.

(** The [changes] memo: [undefined] without a previous snapshot, else an
    object, empty when nothing changed. *)
Definition timeline_changes (snapshot : FormSnapshot) (previousSnapshot : option FormSnapshot)
  : option StateChanges :=
  match previousSnapshot with
  | None => None
  | Some previousSnapshot =>
      Some (foldl (timeline_step snapshot previousSnapshot) [] (keys (state snapshot)))
  end.

(** The [importantChanges] memo. *)
Definition timeline_importantChanges (changes : option StateChanges)
    (config : option SnapshotFormConfig) : list string :=
  match changes, config with
  | Some changes, Some config =>
      (filter (λ entry, Is_true (is_important config entry.1)) changes).*1
  | _, _ => []
  end.

(** What a TimelineItem shows. *)
Record TimelineItem := {
  item_snapshot : FormSnapshot;
  item_changes : option StateChanges;
  item_importantChanges : list string;
}.

(** Newest first. *)
Definition sortedSnapshots (snapshots : list FormSnapshot) : list FormSnapshot :=
  sort (λ a b, timestamp b - timestamp a) snapshots.

(** The items of the timeline: each snapshot against the next one of
    the sorted list. *)
Definition FormSnapshotTimeline (snapshots : list FormSnapshot)
    (config : option SnapshotFormConfig) : list TimelineItem :=
  let sortedSnapshots := sortedSnapshots snapshots in
  imap (λ index snapshot,
          let changes := timeline_changes snapshot (sortedSnapshots !! (index + 1)%nat) in
          {| item_snapshot := snapshot;
             item_changes := changes;
             item_importantChanges := timeline_importantChanges changes config |})
       sortedSnapshots.

(** ** Charts (FormSnapshotCharts.tsx) *)

(** The callback of the [forEach] in the [changesByVersion] memo. *)
Definition version_step (byVersion : list (string * nat)) (processed : ProcessedSnapshot)
  : list (string * nat) :=
  match changes processed with
  | Some recorded => set byVersion (version (snapshot processed)) (List.length (keys recorded))
  | None => byVersion
  end.

(** The [changesByVersion] memo: a later snapshot of a version
    overwrites the count of an earlier one. *)
Definition changesByVersion (report : SnapshotReport) : list (string * nat) :=
  foldl version_step [] (snapshots report).

Record ImportanceCounts := {
  count_high : nat;
  count_medium : nat;
  count_low : nat;
}.

(** [counts[snapshot.importance]++]. *)
Definition count_step (counts : ImportanceCounts) (processed : ProcessedSnapshot)
  : ImportanceCounts :=
  match importance processed with
  | high => {| count_high := S (count_high counts); count_medium := count_medium counts;
               count_low := count_low counts |}
  | medium => {| count_high := count_high counts; count_medium := S (count_medium counts);
                 count_low := count_low counts |}
  | low => {| count_high := count_high counts; count_medium := count_medium counts;
              count_low := S (count_low counts) |}
  end.

Definition importanceCounts (report : SnapshotReport) : ImportanceCounts :=
  foldl count_step {| count_high := 0; count_medium := 0; count_low := 0 |} (snapshots report).

(** ** Notions used in the statements *)

(** *** Versions *)

(** The [i]-th numeric segment of a version, 0 when it is missing. *)
Definition segment (v : string) (i : nat) : Z := part_or_0 (version_parts v) i.

(** *** Differ *)


(** *** Store *)

(** The world after a line was written to the console. *)
Definition logged (w : World) (line : string) : World := (console_log line w).2.

(** The snapshot createSnapshot builds in a world, the world after its
    two draws, and the list it then writes. *)
Definition new_snapshot (w : World) (st : obj) (md : option obj) : FormSnapshot :=
  {| snap_id := uuids w (drawn w); timestamp := clock w (ticks w);
     state := st; version := "1.0"; metadata := md |}.

Definition after_draws (w : World) : World := (Date_now (randomUUID w).2).2.

Definition kept_snapshots (mgr : FormSnapshotManager) (l : list FormSnapshot) : list FormSnapshot :=
  if autoCleanup mgr && (maxSnapshots mgr <? Z.of_nat (List.length l)) then tail l else l.

(** *** Migrations *)

(** The line migrateToVersion logs first, and the line it logs before
    each migration. *)
Definition migrating_line (currentVersion targetVersion : string) : string :=
  "Migrating from version " +:+ currentVersion +:+ " to " +:+ targetVersion.

Definition executing_line (isUpgrade : bool) (m : Migration) : string :=
  ("Executing " +:+ (if isUpgrade then "up" else "down") +:+ " migration to version "
   +:+ m_version m) +:+ " " +:+ description m.


(** The function of a migration that runs in a given direction. *)
Definition migrateFn (isUpgrade : bool) (m : Migration) : obj → outcome obj :=
  if isUpgrade then up m else down m.

(** *** Reports *)

(** The fields recorded for a processed snapshot. *)
Definition changed_fields (p : ProcessedSnapshot) : list string := keys (default [] (changes p)).

(** The two results of the loop that processSnapshot classifies. *)
Definition recorded (fs : ReportFilters) (config : SnapshotFormConfig)
    (filteredSnapshots : list FormSnapshot) (index : nat) (snap : FormSnapshot)
  : StateChanges * nat :=
  match (if Nat.ltb 0 index then filteredSnapshots !! (index - 1)%nat else None) with
  | Some prev => report_changes fs config prev snap
  | None => ([], O)
  end.

(** Snapshots in the order of their timestamps. *)
Definition chronological (l : list FormSnapshot) : Prop :=
  StronglySorted (λ a b, timestamp a ≤ timestamp b) l.


(** *** Formatters *)

(** The pieces of a rope that come from strings of the report. *)
Definition is_user (p : piece) : bool :=
  match p with
  | Escaped _ | Verbatim _ => true
  | Markup _ | Computed _ => false
  end.

Definition user_pieces (r : rope) : rope := filter (λ p, Is_true (is_user p)) r.

Definition is_verbatim (p : piece) : bool :=
  match p with
  | Verbatim _ => true
  | _ => false
  end.

Definition verbatim_pieces (r : rope) : rope := filter (λ p, Is_true (is_verbatim p)) r.

(** The strings of a list of lines. *)
Definition lines_strings (lines : list rope) : rope := user_pieces (List.concat lines).

(** The strings of one recorded change, as a table row embeds them. *)
Definition row_strings (serialize : value → option string) (entry : string * FieldChange)
  : rope :=
  [Escaped entry.1;
   Escaped (default "" (serialize (from entry.2)));
   Escaped (default "" (serialize (to entry.2)))].

(** The strings of a processed snapshot in the order a section embeds
    them: the version, then for each changed field its name and the two
    serialized values, then the serialized metadata as [md_piece]. *)
Definition section_strings (serialize : value → option string) (md_piece : string → piece)
    (p : ProcessedSnapshot) : rope :=
  Escaped (version (snapshot p))
  :: (default [] (changes p) ≫= row_strings serialize)
  ++ match metadata (snapshot p) with
     | Some md => [md_piece (default "" (stringify2 (VObj 0 md)))]
     | None => []
     end.

(** Every recorded value has a serialization. *)
Definition changes_serializable (p : ProcessedSnapshot) : Prop :=
  ∀ entry, entry ∈ default [] (changes p) →
           from entry.2 ≠ VUndefined ∧ to entry.2 ≠ VUndefined.

(** Every character of [s] satisfies [P]. *)
Fixpoint string_forall (P : ascii → bool) (s : string) : bool :=
  match s with
  | EmptyString => true
  | String a s' => P a && string_forall P s'
  end.

(** No character of [s] opens or closes a tag or an attribute value. *)
Definition html_inert (s : string) : bool :=
  string_forall
    (λ a, negb (bool_decide (a ∈ ["<"%char; ">"%char; "034"%char; "039"%char]))) s.

(** Every Markdown special character of [s] follows a backslash;
    [guarded] tells whether the character before [s] is one. *)
Fixpoint md_guarded (guarded : bool) (s : string) : bool :=
  match s with
  | EmptyString => true
  | String a s' =>
      (if md_special a then guarded else true) && md_guarded (Ascii.eqb a "092"%char) s'
  end.

(** [hay.includes(needle)]. *)
Fixpoint contains (needle hay : string) : bool :=
  String.prefix needle hay
  || match hay with
     | EmptyString => false
     | String _ hay' => contains needle hay'
     end.

(** *** Field histories *)

(** The entry findSnapshotDifferences builds from a snapshot. *)
Definition value_at (field : string) (s : FormSnapshot) : ValueAt :=
  {| at_timestamp := timestamp s; at_value := get (state s) field |}.

(** No entry repeats the serialization of a defined value before it. *)
Fixpoint no_repeat (l : list ValueAt) : Prop :=
  match l with
  | e1 :: (e2 :: _) as rest =>
      (at_value e1 = VUndefined ∨ stringify (at_value e1) ≠ stringify (at_value e2))
      ∧ no_repeat rest
  | _ => True
  end.

(** *** Validator *)

(** The test of one [case] of the type switch; a type without a case
    accepts every value. *)
Definition type_matches (t : option string) (v : value) : bool :=
  match t with
  | Some "string" => bool_decide (typeof v = TyString)
  | Some "number" => bool_decide (typeof v = TyNumber)
  | Some "boolean" => bool_decide (typeof v = TyBoolean)
  | Some "array" => isArray v
  | _ => true
  end.

(** A value the validator accepts for a field: a missing one unless the
    field is required, a present one if it has the configured type. *)
Definition field_passes (c : SnapshotFieldConfig) (v : value) : bool :=
  if is_nullish v then negb (required c) else type_matches (type c) v.

(** The guard on [snapshot.state] holds. *)
Definition state_accepted (st : value) : bool :=
  truthy st && bool_decide (typeof st = TyObject).

(** *** Migration runs *)

(** The audit trail of a snapshot: [metadata.migrations]. *)
Definition trail (s : FormSnapshot) : value := get (default [] (metadata s)) "migrations".

(** An entry of the trail for migration [m]. *)
Definition trail_entry (isUpgrade : bool) (m : Migration) (entry : value) : Prop :=
  ∃ r now, entry = VObj r [("version", VStr (m_version m));
                           ("direction", VStr (if isUpgrade then "up" else "down"));
                           ("timestamp", VNum now);
                           ("description", VStr (description m))].

(** The state after the functions of [relevant] ran in order. *)
Definition migrated_state (isUpgrade : bool) (relevant : list Migration) (st : obj)
  : outcome obj :=
  foldl (λ acc m, obind acc (migrateFn isUpgrade m)) (Return st) relevant.

(** The order in which migrateToVersion runs migrations. *)
Definition runs_before (isUpgrade : bool) (a b : Migration) : Prop :=
  if isUpgrade then compareVersions (m_version a) (m_version b) ≤ 0
  else compareVersions (m_version b) (m_version a) ≤ 0.

(** Each version is greater than the one before it, [prev] being the
    one before the first; an empty previous version is not compared. *)
Fixpoint versions_increase (prev : string) (l : list Migration) : Prop :=
  match l with
  | [] => True
  | m :: l' => (prev = "" ∨ 0 < compareVersions (m_version m) prev)
               ∧ versions_increase (m_version m) l'
  end.

(** [down] undoes [up] on the empty state, up to serialization. *)
Definition reversible (m : Migration) : Prop :=
  ∃ upResult downResult,
    up m [] = Return upResult ∧ down m upResult = Return downResult
    ∧ stringify (VObj 0 downResult) = stringify (VObj 0 []).

(** *** Report filters *)

(** A snapshot passes the date and version filters; an empty version
    list filters nothing. *)
Definition in_scope (fs : ReportFilters) (s : FormSnapshot) : Prop :=
  (∀ d, fromDate fs = Some d → d ≤ timestamp s)
  ∧ (∀ d, toDate fs = Some d → timestamp s ≤ d)
  ∧ (∀ vs, filter_versions fs = Some vs → vs ≠ [] → version s ∈ vs).

(** *** Formatter failures *)

Definition is_TypeError (e : exn) : Prop := ∃ message, e = JsError "TypeError" message.

(** ** Sample data *)

Module Sample.

(** The [n]-th identifier drawn and the [n]-th reading of the clock. *)
Fixpoint nth_uuid (n : nat) : string :=
  match n with
  | O => "uuid"
  | S n' => String "+"%char (nth_uuid n')
  end.

Fixpoint nth_time (n : nat) : Z :=
  match n with
  | O => 1700000000000
  | S n' => Z.succ (nth_time n')
  end.

(** A world with an empty, working storage. *)
Definition quiet_world : World :=
  {| storage := {| items := ∅; getItem_fault := None; setItem_fault := None |};
     console := [];
     clock := nth_time;
     ticks := 0;
     uuids := nth_uuid;
     drawn := 0;
     next_ref := 0 |}.

Definition default_manager : FormSnapshotManager :=
  new_FormSnapshotManager "exam"
    {| opt_maxSnapshots := None; opt_autoCleanup := None; opt_compressionEnabled := None;
       opt_namespace := None |}.

Definition keep_three : FormSnapshotManager :=
  new_FormSnapshotManager "exam"
    {| opt_maxSnapshots := Some 3; opt_autoCleanup := Some true;
       opt_compressionEnabled := None; opt_namespace := None |}.

Definition quota_exceeded : exn := JsError "QuotaExceededError" "The quota has been exceeded.".

(** A world whose storage refuses every write. *)
Definition full_disk_world : World :=
  with_storage quiet_world
    {| items := ∅; getItem_fault := None; setItem_fault := Some quota_exceeded |}.

(** A world whose storage holds a text that does not parse. *)
Definition corrupt_world : World :=
  with_storage quiet_world
    {| items := {[ snapshotKey default_manager := TextGarbage ]};
       getItem_fault := None; setItem_fault := None |}.

Definition snapshot_at (t : Z) (v : string) : FormSnapshot :=
  {| snap_id := v; timestamp := t; state := []; version := v; metadata := None |}.

(** A world whose storage holds three snapshots. *)
Definition three_held : World :=
  with_storage quiet_world
    {| items := {[ snapshotKey default_manager :=
                     TextJson (DocSnapshots [snapshot_at 1 "1.0"; snapshot_at 2 "1.0";
                                             snapshot_at 3 "1.0"]) ]};
       getItem_fault := None; setItem_fault := None |}.

Definition email_state (address : string) : obj := [("email", VStr address)].

Definition important_field : SnapshotFieldConfig :=
  {| type := Some "string"; label := None; important := true; required := false |}.

Definition plain_field : SnapshotFieldConfig :=
  {| type := Some "string"; label := None; important := false; required := false |}.

Definition sample_versions : list string := ["1.2.0"; "1.10.0"; "2.0.0"].

Definition plain_options : ReportOptions :=
  {| includeMetadata := None; includeTimestamps := None; format := None; filters := None |}.

(** A form state with the five fields a, b, c, d and e. *)
Definition five_fields (a b c d e : Z) : obj :=
  [("a", VNum a); ("b", VNum b); ("c", VNum c); ("d", VNum d); ("e", VNum e)].

Definition five_config : SnapshotFormConfig :=
  [("a", plain_field); ("b", plain_field); ("c", plain_field); ("d", plain_field);
   ("e", important_field)].

Definition five_at (t : Z) (st : obj) : FormSnapshot :=
  {| snap_id := pretty t; timestamp := t; state := st; version := "1.0"; metadata := None |}.

(** Three changed fields, then four, then the important one alone. *)
Definition five_history : list FormSnapshot :=
  [five_at 1 (five_fields 0 0 0 0 0);
   five_at 2 (five_fields 1 1 1 0 0);
   five_at 3 (five_fields 2 2 2 2 0);
   five_at 4 (five_fields 2 2 2 2 1)].



(** A migration that renames nothing, and one whose functions throw. *)
Definition keeping (v : string) : Migration :=
  {| m_version := v; description := "keep"; up := λ st, Return st; down := λ st, Return st |}.





(** Dates rendered as their time value. *)
Definition time_value : Z → string := pretty.

(** A report over two snapshots, the second with markup in its version
    and its metadata. *)
Definition scripted : FormSnapshot :=
  {| snap_id := "s"; timestamp := 5; state := [("name", VStr "Ann")];
     version := "<script>alert(1)</script>";
     metadata := Some [("note", VStr "*bold* <b>")] |}.

Definition scripted_before : FormSnapshot :=
  {| snap_id := "r"; timestamp := 4; state := [("name", VStr "<i>Al</i>")];
     version := "1.0"; metadata := None |}.

Definition scripted_report : SnapshotReport :=
  match (generateReport [scripted_before; scripted] [] plain_options quiet_world).1 with
  | Return r => r
  | Throw _ =>
      {| summary := {| totalSnapshots := 0; dateRange_from := 0; dateRange_to := 0;
                       versions := []; totalChanges := 0; importantChanges := 0 |};
         snapshots := [] |}
  end.

Definition scripted_processed : ProcessedSnapshot :=
  {| snapshot := scripted;
     changes := Some [("name", {| from := VStr "<i>Al</i>"; to := VStr "Ann" |})];
     importance := low |}.

(** The states and the configuration of the scenarios of the specification. *)
Definition ab_snapshot : FormSnapshot :=
  {| snap_id := "1"; timestamp := 1; state := [("a", VNum 1); ("b", VNum 2)];
     version := "1.0"; metadata := None |}.

Definition ac_snapshot : FormSnapshot :=
  {| snap_id := "2"; timestamp := 2; state := [("a", VNum 1); ("c", VNum 3)];
     version := "1.0"; metadata := None |}.

Definition age_only : FormSnapshot :=
  {| snap_id := "3"; timestamp := 3; state := [("age", VNum (-1))];
     version := "1.0.0"; metadata := None |}.

Definition age_name_config : SnapshotFormConfig :=
  [("age", {| type := Some "number"; label := None; important := false; required := true |});
   ("name", {| type := Some "string"; label := None; important := false; required := true |})].

End Sample.

Import Sample.

(** ** Further sample data *)

Module Scenes.

(** A snapshot to tell apart by its id. *)
Definition identified (id : string) (t : Z) : FormSnapshot :=
  {| snap_id := id; timestamp := t; state := []; version := "1.0"; metadata := None |}.

(** A world whose storage holds two snapshots under one id and a third
    one between them. *)
Definition twins_held : World :=
  with_storage quiet_world
    {| items := {[ snapshotKey default_manager :=
                     TextJson (DocSnapshots [identified "a" 1; identified "b" 2;
                                             identified "a" 3]) ]};
       getItem_fault := None; setItem_fault := None |}.

(** A world whose storage holds a JSON text that is not an array. *)
Definition object_stored : World :=
  with_storage quiet_world
    {| items := {[ snapshotKey default_manager := TextJson DocNonArray ]};
       getItem_fault := None; setItem_fault := None |}.

(** A form with an important and a plain field, and two states of it. *)
Definition contact_config : SnapshotFormConfig :=
  [("email", important_field); ("phone", plain_field); ("city", plain_field)].

Definition contact_state (address phone : string) : obj :=
  [("email", VStr address); ("phone", VStr phone); ("city", VStr "Haifa")].

(** A manager that registered 2.0.0 before 1.1.0. *)
Definition two_steps : SnapshotMigrationManager :=
  addMigration (addMigration {| migrations := []; strict := true |} (keeping "2.0.0"))
               (keeping "1.1.0").

(** A history in which the second snapshot brings a field the first
    does not have, and the report on it. *)
Definition named_later : list FormSnapshot :=
  [five_at 1 []; five_at 2 [("name", VStr "Ann")]].

Definition named_later_report : SnapshotReport :=
  match (generateReport named_later [] plain_options quiet_world).1 with
  | Return r => r
  | Throw _ =>
      {| summary := {| totalSnapshots := 0; dateRange_from := 0; dateRange_to := 0;
                       versions := []; totalChanges := 0; importantChanges := 0 |};
         snapshots := [] |}
  end.

End Scenes.

Import Scenes.

(** * Properties *)

(** ** Version order *)

Lemma part_or_0_beyond (parts : list (option Z)) (i : nat) :
  (List.length parts ≤ i)%nat → part_or_0 parts i = 0.
Proof.
  intros Hlen. unfold part_or_0.
  by rewrite (lookup_ge_None_2 parts i Hlen).
Qed.

(** What the loop returns after [n] rounds from index [i]: 0 when the
    segments agree on the whole range, else the difference at the first
    index where they do not. *)
Lemma compareVersions_loop_first_difference (p1 p2 : list (option Z)) (n i : nat) :
  (compareVersions_loop p1 p2 i n = 0
   ∧ ∀ j, (i ≤ j < i + n)%nat → part_or_0 p1 j = part_or_0 p2 j)
  ∨ (∃ k, (i ≤ k < i + n)%nat
          ∧ (∀ j, (i ≤ j < k)%nat → part_or_0 p1 j = part_or_0 p2 j)
          ∧ part_or_0 p1 k ≠ part_or_0 p2 k
          ∧ compareVersions_loop p1 p2 i n = part_or_0 p1 k - part_or_0 p2 k).
Proof.
  revert i. induction n as [|n IH]; intros i; simpl.
  - left. split; [done|]. intros j Hj. lia.
  - destruct (decide (part_or_0 p1 i ≠ part_or_0 p2 i)) as [Hne|Heq].
    + right. exists i. split; [lia|]. split; [intros j Hj; lia|]. by split.
    + apply dec_stable in Heq.
      destruct (IH (S i)) as [[H0 Hall]|(k & Hk & Hbefore & Hne & Hres)].
      * left. split; [done|]. intros j Hj.
        destruct (decide (j = i)) as [->|]; [done|]. apply Hall. lia.
      * right. exists k. split; [lia|]. split; [|by split].
        intros j Hj. destruct (decide (j = i)) as [->|]; [done|]. apply Hbefore. lia.
Qed.

Lemma compareVersions_first_difference (v1 v2 : string) :
  (compareVersions v1 v2 = 0 ∧ ∀ j, segment v1 j = segment v2 j)
  ∨ (∃ k, (∀ j, (j < k)%nat → segment v1 j = segment v2 j)
          ∧ segment v1 k ≠ segment v2 k
          ∧ compareVersions v1 v2 = segment v1 k - segment v2 k).
Proof.
  unfold compareVersions, segment.
  set (p1 := version_parts v1). set (p2 := version_parts v2).
  destruct (compareVersions_loop_first_difference p1 p2
              (Nat.max (List.length p1) (List.length p2)) 0)
    as [[H0 Hall]|(k & Hk & Hbefore & Hne & Hres)].
  - left. split; [done|]. intros j.
    destruct (decide (j < Nat.max (List.length p1) (List.length p2))%nat) as [Hlt|Hge].
    + apply Hall. lia.
    + rewrite !part_or_0_beyond; [done|lia|lia].
  - right. exists k. split; [|by split]. intros j Hj. apply Hbefore. lia.
Qed.

(** C7: the comparator returns the difference at the first index where
    the numeric segments differ, a missing segment counting as 0, and 0
    when there is none; so every arrangement of 1.2.0, 1.10.0 and 2.0.0
    sorts to that order, also as the version list of a report summary,
    although the lexical order of strings puts 1.10.0 before 1.2.0. *)
Theorem compareVersions_numeric_sort :
  (∀ v1 v2,
     (compareVersions v1 v2 = 0 ∧ ∀ j, segment v1 j = segment v2 j)
     ∨ (∃ k, (∀ j, (j < k)%nat → segment v1 j = segment v2 j)
             ∧ segment v1 k ≠ segment v2 k
             ∧ compareVersions v1 v2 = segment v1 k - segment v2 k))
  ∧ (segment "1.2" 2 = 0 ∧ compareVersions "1.2" "1.2.0" = 0)
  ∧ Forall (λ l, sort compareVersions l = sample_versions) (permutations sample_versions)
  ∧ (String.ltb "1.10.0" "1.2.0" = true ∧ 0 < compareVersions "1.10.0" "1.2.0")
  ∧ (generateReport
       [snapshot_at 1 "2.0.0"; snapshot_at 2 "1.10.0"; snapshot_at 3 "1.2.0";
        snapshot_at 4 "1.10.0"]
       [] plain_options quiet_world).1
    = Return
        {| summary :=
             {| totalSnapshots := 4; dateRange_from := 1; dateRange_to := 4;
                versions := sample_versions; totalChanges := 0; importantChanges := 0 |};
           snapshots :=
             (λ s, {| snapshot := s; changes := None; importance := low |})
               <$> [snapshot_at 1 "2.0.0"; snapshot_at 2 "1.10.0"; snapshot_at 3 "1.2.0";
                    snapshot_at 4 "1.10.0"] |}.
Proof.
  split; [exact compareVersions_first_difference|].
  split; [by vm_compute|].
  split; [apply (bool_decide_unpack _); by vm_compute|].
  split; [split; by vm_compute|].
  by vm_compute.
Qed.

(** ** Keys of objects and sets *)

Lemma elem_of_keys_set {A} (o : list (string * A)) (k : string) (v : A) (x : string) :
  x ∈ keys (set o k v) ↔ x = k ∨ x ∈ keys o.
Proof.
  unfold keys. induction o as [|[k' v'] o IH]; simpl.
  - rewrite list_elem_of_singleton. set_solver.
  - destruct (decide (k' = k)) as [->|Hne]; simpl.
    + rewrite !elem_of_cons. tauto.
    + rewrite !elem_of_cons, IH. tauto.
Qed.

Lemma NoDup_keys_set {A} (o : list (string * A)) (k : string) (v : A) :
  NoDup (keys o) → NoDup (keys (set o k v)).
Proof.
  unfold keys. induction o as [|[k' v'] o IH]; simpl; intros Hnd.
  - apply NoDup_singleton.
  - apply NoDup_cons in Hnd as [Hnotin Hnd].
    destruct (decide (k' = k)) as [->|Hne]; simpl.
    + by apply NoDup_cons.
    + apply NoDup_cons. split; [|by apply IH].
      intros Hin. apply (elem_of_keys_set o k v k') in Hin as [Heq|Hin]; [done|].
      by apply Hnotin.
Qed.

Lemma elem_of_uniq_go (seen l : list string) (x : string) :
  x ∈ uniq_go seen l ↔ x ∈ l ∧ x ∉ seen.
Proof.
  revert seen. induction l as [|y l IH]; intros seen; simpl.
  - set_solver.
  - destruct (decide (y ∈ seen)) as [Hin|Hnotin].
    + rewrite IH, elem_of_cons. split; [tauto|].
      intros [[->|Hx] Hns]; [done|tauto].
    + rewrite elem_of_cons, IH, !elem_of_cons. split.
      * intros [->|[Hx Hns]]; [tauto|]. split; [tauto|]. tauto.
      * intros [[->|Hx] Hns]; [tauto|].
        destruct (decide (x = y)) as [->|Hne]; [tauto|]. right. tauto.
Qed.

Lemma NoDup_uniq_go (seen l : list string) : NoDup (uniq_go seen l).
Proof.
  revert seen. induction l as [|y l IH]; intros seen; simpl.
  - apply NoDup_nil_2.
  - destruct (decide (y ∈ seen)); [apply IH|].
    apply NoDup_cons. split; [|apply IH].
    rewrite elem_of_uniq_go. set_solver.
Qed.

Lemma elem_of_new_Set (l : list string) (x : string) : x ∈ new_Set l ↔ x ∈ l.
Proof. unfold new_Set. rewrite elem_of_uniq_go. set_solver. Qed.

Lemma NoDup_new_Set (l : list string) : NoDup (new_Set l).
Proof. apply NoDup_uniq_go. Qed.

Lemma new_Set_NoDup_id (l : list string) : NoDup l → new_Set l = l.
Proof.
  unfold new_Set.
  assert (∀ seen, NoDup l → (∀ x, x ∈ l → x ∉ seen) → uniq_go seen l = l) as H.
  { induction l as [|y l IH]; intros seen Hnd Hdisj; simpl; [done|].
    apply NoDup_cons in Hnd as [Hy Hnd].
    destruct (decide (y ∈ seen)) as [Hin|_].
    - exfalso. apply (Hdisj y); [by left|done].
    - f_equal. apply IH; [done|]. intros x Hx. rewrite elem_of_cons.
      intros [->|Hs]; [done|]. apply (Hdisj x); [by right|done]. }
  intros Hnd. apply H; [done|]. intros x _. apply not_elem_of_nil.
Qed.



(** ** Snapshot differ *)

Arguments added_step : simpl never.
Arguments rest_step : simpl never.

Lemma compareSnapshots_unfold (a b : FormSnapshot) :
  compareSnapshots a b =
  let keys1 := new_Set (keys (state a)) in
  let keys2 := new_Set (keys (state b)) in
  let acc := foldl (rest_step keys2 (state a) (state b)) ([], [], []) keys1 in
  {| added := foldl (added_step keys1 (state b)) [] keys2;
     removed := acc.1.1; modified := acc.1.2; unchanged := acc.2 |}.
Proof.
  unfold compareSnapshots. simpl.
  by destruct (foldl _ _ _) as [[??]?].
Qed.






Example compareSnapshots_scenario :
  compareSnapshots ab_snapshot ac_snapshot
  = {| added := [("c", VNum 3)]; removed := [("b", VNum 2)]; modified := [];
       unchanged := ["a"] |}.
Proof. by vm_compute. Qed.

(** ** Snapshot validator *)

Lemma get_property_returns (st : value) (k : string) :
  is_nullish st = false → ∃ v, get_property st k = Return v.
Proof. destruct st; simpl; intros H; try discriminate; eauto. Qed.

Lemma validate_fields_returns (st : value) (config : SnapshotFormConfig)
    (errors : list SnapshotValidationError) :
  is_nullish st = false → ∃ errors', validate_fields st errors config = Return errors'.
Proof.
  intros Hst. revert errors. induction config as [|[fld fieldConfig] config IH]; intros errors.
  - simpl. eauto.
  - simpl. destruct (get_property_returns st fld Hst) as [v ->]. simpl. apply IH.
Qed.

Lemma guard_excludes_nullish (st : value) :
  negb (truthy st) || bool_decide (typeof st ≠ TyObject) = false → is_nullish st = false.
Proof. by destruct st. Qed.

(** C9: validateSnapshot returns a result for every snapshot, whatever
    its [state] and [metadata] are, and every field configuration, and
    the result is valid exactly when it lists no error. *)
Theorem validateSnapshot_never_throws (snap : RawSnapshot) (config : SnapshotFormConfig) :
  ∃ result, validateSnapshot snap config = Return result
            ∧ (isValid result = true ↔ errors result = []).
Proof.
  unfold validateSnapshot.
  destruct (negb (truthy (raw_state snap)) || bool_decide (typeof (raw_state snap) ≠ TyObject))
    eqn:Hguard.
  - eexists. split; [reflexivity|]. simpl. split; discriminate.
  - destruct (validate_fields_returns (raw_state snap) config []
                (guard_excludes_nullish _ Hguard)) as [errs ->].
    simpl. eexists. split; [reflexivity|]. simpl.
    destruct (truthy (raw_metadata snap) && bool_decide (typeof (raw_metadata snap) ≠ TyObject)).
    + rewrite length_app. simpl. split.
      * intros H. apply Nat.eqb_eq in H. lia.
      * intros H. by apply app_nil in H as [_ ?].
    + split.
      * intros H. apply Nat.eqb_eq in H. by apply nil_length_inv.
      * by intros ->.
Qed.

Example validateSnapshot_scenario :
  (λ r, (isValid r, (λ e, (field e, code e)) <$> errors r))
    <$> validateSnapshot (raw_of age_only) age_name_config
  = Return (false, [(Some "name", "REQUIRED_FIELD")]).
Proof. by vm_compute. Qed.

(** ** Snapshot store *)

Lemma getSnapshots_catches (mgr : FormSnapshotManager) (w : World) :
  match loadSnapshots mgr w with
  | (Return d, w') => getSnapshots mgr w = (Return d, w')
  | (Throw e, w') =>
      getSnapshots mgr w
      = (Return (DocSnapshots []), logged w' ("Error loading snapshots: " +:+ exn_to_string e))
  end.
Proof.
  unfold getSnapshots, try_catch. by destruct (loadSnapshots mgr w) as [[d|e] w'].
Qed.

Lemma loadSnapshots_world (mgr : FormSnapshotManager) (w : World) :
  (loadSnapshots mgr w).2 = w.
Proof.
  unfold loadSnapshots, bind, storage_getItem.
  destruct (getItem_fault (storage w)); [done|].
  destruct (items (storage w) !! snapshotKey mgr) as [[| | |]|]; try done;
    unfold parse_decompressed; by destruct (compressionEnabled mgr).
Qed.

(** What createSnapshot does once the stored list [l] is loaded. *)
Lemma createSnapshot_after_load (mgr : FormSnapshotManager) (st : obj) (md : option obj)
    (w w1 : World) (l : list FormSnapshot) :
  getSnapshots mgr w = (Return (DocSnapshots l), w1) →
  createSnapshot mgr st md w
  = match saveSnapshots mgr (kept_snapshots mgr (l ++ [new_snapshot w1 st md])) (after_draws w1) with
    | (Return _, w2) => (Return (new_snapshot w1 st md), w2)
    | (Throw e, w2) => (Throw e, w2)
    end.
Proof.
  intros Hload. unfold createSnapshot, bind at 1. rewrite Hload.
  unfold bind, randomUUID, Date_now, push, ret, kept_snapshots, after_draws, new_snapshot. simpl.
  by destruct (saveSnapshots mgr _ _) as [[[]|e] w3].
Qed.

Lemma saveSnapshots_ok (mgr : FormSnapshotManager) (l : list FormSnapshot) (w : World) :
  setItem_fault (storage w) = None →
  ∃ w', saveSnapshots mgr l w = (Return (), w')
        ∧ items (storage w') = <[snapshotKey mgr := compress mgr (DocSnapshots l)]> (items (storage w))
        ∧ getItem_fault (storage w') = getItem_fault (storage w)
        ∧ setItem_fault (storage w') = None
        ∧ console w' = console w.
Proof.
  intros Hset. unfold saveSnapshots, storage_setItem. rewrite Hset.
  eexists. split; [reflexivity|]. by simpl.
Qed.

Lemma saveSnapshots_fault (mgr : FormSnapshotManager) (l : list FormSnapshot) (w : World)
    (e : exn) :
  setItem_fault (storage w) = Some e → saveSnapshots mgr l w = (Throw e, w).
Proof. intros Hset. unfold saveSnapshots, storage_setItem. by rewrite Hset. Qed.

Lemma getSnapshots_after_save (mgr : FormSnapshotManager) (l : list FormSnapshot) (w : World) :
  getItem_fault (storage w) = None →
  items (storage w) !! snapshotKey mgr = Some (compress mgr (DocSnapshots l)) →
  getSnapshots mgr w = (Return (DocSnapshots l), w).
Proof.
  intros Hget Hitem.
  unfold getSnapshots, try_catch, loadSnapshots, bind, storage_getItem.
  rewrite Hget, Hitem. unfold compress, parse_decompressed.
  by destruct (compressionEnabled mgr).
Qed.

(** Only a successful read yields a non-empty list. *)
Lemma getSnapshots_nonempty (mgr : FormSnapshotManager) (w w' : World)
    (s : FormSnapshot) (l : list FormSnapshot) :
  getSnapshots mgr w = (Return (DocSnapshots (s :: l)), w') →
  w' = w ∧ getItem_fault (storage w) = None.
Proof.
  unfold getSnapshots, try_catch, loadSnapshots, bind, storage_getItem.
  destruct (getItem_fault (storage w)) eqn:Hget; simpl.
  { unfold console_log, ret. simpl. intros H. by simplify_eq. }
  destruct (items (storage w) !! snapshotKey mgr) as [[| | |]|]; unfold parse_decompressed, ret, throw;
    destruct (compressionEnabled mgr); simpl; intros H; by simplify_eq.
Qed.

Lemma createSnapshot_result (mgr : FormSnapshotManager) (st : obj) (md : option obj)
    (w : World) (s : FormSnapshot) :
  (createSnapshot mgr st md w).1 = Return s →
  version s = "1.0" ∧ state s = st ∧ metadata s = md.
Proof.
  intros Hret.
  pose proof (getSnapshots_catches mgr w) as Hload.
  assert (∃ d w1, getSnapshots mgr w = (Return d, w1)) as (d & w1 & Hget).
  { destruct (loadSnapshots mgr w) as [[d|e] w']; eauto. }
  destruct d as [l|].
  - rewrite (createSnapshot_after_load mgr st md w w1 l Hget) in Hret.
    destruct (saveSnapshots mgr _ _) as [[[]|e] w2]; simpl in Hret; by simplify_eq.
  - unfold createSnapshot, bind at 1 in Hret. rewrite Hget in Hret.
    by unfold bind, randomUUID, Date_now, push, throw in Hret.
Qed.

(** C10: whatever the state, the metadata and the world, a snapshot that
    createSnapshot returns, directly or through createAutoSnapshot, has
    the two-segment version 1.0. *)
Theorem created_snapshot_version (mgr : FormSnapshotManager) (formConfig : SnapshotFormConfig)
    (currentState prevState : obj) (md : option obj) (w : World) (s : FormSnapshot) :
  (createSnapshot mgr currentState md w).1 = Return s
  ∨ (createAutoSnapshot mgr formConfig currentState prevState w).1 = Return (Some s) →
  version s = "1.0" ∧ split "." (version s) = ["1"; "0"].
Proof.
  intros Hmade.
  assert (version s = "1.0") as ->; [|done].
  destruct Hmade as [Hret|Hret].
  - by apply createSnapshot_result in Hret as [? _].
  - unfold createAutoSnapshot in Hret.
    destruct (existsb _ formConfig); [|by unfold ret in Hret].
    unfold bind at 1 2 3 in Hret.
    destruct (fresh_ref w) as [[r|e] w1]; [|done].
    destruct (changes_props _ w1) as [[props|e] w2]; [|done].
    destruct (createSnapshot mgr currentState _ w2) as [[s'|e] w3] eqn:Hcreate; [|done].
    unfold ret in Hret. simpl in Hret. simplify_eq.
    assert ((createSnapshot mgr currentState
               (Some [("auto", VBool true); ("changes", VObj r props)]) w2).1 = Return s)
      as Hs by (by rewrite Hcreate).
    by apply createSnapshot_result in Hs as [? _].
Qed.

Lemma created_snapshot_version_witness :
  (∃ s, (createSnapshot default_manager (email_state "a@b.c") None quiet_world).1 = Return s
        ∧ version s = "1.0")
  ∧ (∃ s, (createAutoSnapshot default_manager [("email", important_field)]
             (email_state "new@b.c") (email_state "old@b.c") quiet_world).1 = Return (Some s)
          ∧ version s = "1.0").
Proof.
  split.
  - eexists. split; [by vm_compute|].
    refine (proj1 (created_snapshot_version default_manager [] (email_state "a@b.c") []
                     None quiet_world _ (or_introl _))).
    by vm_compute.
  - eexists. split; [by vm_compute|].
    refine (proj1 (created_snapshot_version default_manager [("email", important_field)]
                     (email_state "new@b.c") (email_state "old@b.c") None quiet_world _
                     (or_intror _))).
    by vm_compute.
Defined.

(** C6: with [maxSnapshots = 3] and autoCleanup on, creating a snapshot in
    a store that holds three leaves the last two of them followed by the
    new one. *)
Theorem eviction_boundary (mgr : FormSnapshotManager) (st : obj) (md : option obj)
    (w : World) (s1 s2 s3 : FormSnapshot) :
  maxSnapshots mgr = 3 →
  autoCleanup mgr = true →
  (getAllSnapshots mgr w).1 = Return (DocSnapshots [s1; s2; s3]) →
  setItem_fault (storage w) = None →
  ∃ s4 w', createSnapshot mgr st md w = (Return s4, w')
           ∧ state s4 = st ∧ metadata s4 = md
           ∧ getAllSnapshots mgr w' = (Return (DocSnapshots [s2; s3; s4]), w').
Proof.
  intros Hmax Hauto Hheld Hset. unfold getAllSnapshots in *.
  destruct (getSnapshots mgr w) as [o w1] eqn:Hget. simpl in Hheld. subst o.
  destruct (getSnapshots_nonempty _ _ _ _ _ Hget) as [-> Hread].
  rewrite (createSnapshot_after_load mgr st md w w _ Hget).
  set (s4 := new_snapshot w st md).
  assert (kept_snapshots mgr ([s1; s2; s3] ++ [s4]) = [s2; s3; s4]) as ->.
  { unfold kept_snapshots. by rewrite Hmax, Hauto. }
  destruct (saveSnapshots_ok mgr [s2; s3; s4] (after_draws w))
    as (w' & Hsave & Hitems & Hget' & _ & _); [done|].
  rewrite Hsave. exists s4, w'. split; [done|]. split; [done|]. split; [done|].
  apply getSnapshots_after_save.
  - by rewrite Hget'.
  - rewrite Hitems. apply lookup_insert_eq.
Qed.

Lemma eviction_boundary_witness :
  ∃ s4 w', createSnapshot keep_three (email_state "a@b.c") None three_held = (Return s4, w')
           ∧ state s4 = email_state "a@b.c" ∧ metadata s4 = None
           ∧ getAllSnapshots keep_three w'
             = (Return (DocSnapshots [snapshot_at 2 "1.0"; snapshot_at 3 "1.0"; s4]), w').
Proof.
  apply (eviction_boundary keep_three (email_state "a@b.c") None three_held
           (snapshot_at 1 "1.0") (snapshot_at 2 "1.0") (snapshot_at 3 "1.0"));
    by vm_compute.
Defined.

(** C2, as amended: when the read in getSnapshots throws, createSnapshot
    logs the error and goes on from an empty list; it returns the new
    snapshot when the write succeeds, and when the write throws that
    exception reaches the caller. *)
Theorem createSnapshot_read_error (mgr : FormSnapshotManager) (st : obj) (md : option obj)
    (w : World) (e : exn) :
  (loadSnapshots mgr w).1 = Throw e →
  let line := "Error loading snapshots: " +:+ exn_to_string e in
  match setItem_fault (storage w) with
  | None =>
      ∃ s w', createSnapshot mgr st md w = (Return s, w')
              ∧ state s = st ∧ metadata s = md
              ∧ console w' = console w ++ [line]
              ∧ items (storage w') !! snapshotKey mgr
                = Some (compress mgr
                          (DocSnapshots (if autoCleanup mgr && (maxSnapshots mgr <? 1)
                                         then [] else [s])))
  | Some e' =>
      ∃ w', createSnapshot mgr st md w = (Throw e', w') ∧ console w' = console w ++ [line]
  end.
Proof.
  intros Hthrow line.
  pose proof (getSnapshots_catches mgr w) as Hget.
  pose proof (loadSnapshots_world mgr w) as Hw.
  destruct (loadSnapshots mgr w) as [o w0]. simpl in Hthrow, Hw. subst o w0.
  fold line in Hget.
  rewrite (createSnapshot_after_load mgr st md w _ [] Hget).
  set (s := new_snapshot (logged w line) st md).
  assert (kept_snapshots mgr ([] ++ [s])
          = if autoCleanup mgr && (maxSnapshots mgr <? 1) then [] else [s]) as ->.
  { unfold kept_snapshots. change (Z.of_nat (List.length ([] ++ [s]))) with 1.
    by destruct (autoCleanup mgr && (maxSnapshots mgr <? 1)). }
  destruct (setItem_fault (storage w)) as [e'|] eqn:Hset.
  - rewrite (saveSnapshots_fault mgr _ (after_draws (logged w line)) e' Hset).
    eexists. split; [reflexivity|done].
  - destruct (saveSnapshots_ok mgr (if autoCleanup mgr && (maxSnapshots mgr <? 1) then [] else [s])
                (after_draws (logged w line)))
      as (w' & Hsave & Hitems & _ & _ & Hcons); [exact Hset|].
    rewrite Hsave. exists s, w'.
    split; [done|]. split; [done|]. split; [done|]. split; [done|].
    rewrite Hitems. apply lookup_insert_eq.
Qed.

Lemma createSnapshot_read_error_witness :
  ∃ s w', createSnapshot default_manager (email_state "a@b.c") None corrupt_world = (Return s, w')
          ∧ state s = email_state "a@b.c" ∧ metadata s = None
          ∧ console w'
            = console corrupt_world
              ++ ["Error loading snapshots: SyntaxError: Unexpected token in JSON"]
          ∧ items (storage w') !! snapshotKey default_manager
            = Some (TextJson (DocSnapshots [s])).
Proof.
  exact (createSnapshot_read_error default_manager (email_state "a@b.c") None corrupt_world
           (JsError "SyntaxError" "Unexpected token in JSON") eq_refl).
Defined.

(** C2, as stated, fails: an exception thrown by the storage write leaves
    createSnapshot uncaught and unlogged. *)
Lemma createSnapshot_write_error_propagates :
  setItem_fault (storage full_disk_world) = Some quota_exceeded
  ∧ (createSnapshot default_manager (email_state "a@b.c") None full_disk_world).1
    = Throw quota_exceeded
  ∧ console (createSnapshot default_manager (email_state "a@b.c") None full_disk_world).2 = [].
Proof. by vm_compute. Qed.

(** ** Report generator *)

Arguments report_step : simpl never.
Arguments auto_step : simpl never.

Lemma elem_of_set {A} (o : list (string * A)) (k : string) (v : A) (x : string) (c : A) :
  (x, c) ∈ set o k v → (x, c) ∈ o ∨ (x = k ∧ c = v).
Proof.
  induction o as [|[k' v'] o IH]; simpl.
  - rewrite list_elem_of_singleton. intros [= -> ->]. by right.
  - destruct (decide (k' = k)) as [->|Hne]; rewrite !elem_of_cons.
    + intros [[= -> ->]|Hin]; [by right|]. left. by right.
    + intros [Heq|Hin]; [left; by left|].
      destruct (IH Hin) as [?|?]; [left; by right|by right].
Qed.

Lemma report_step_spec (fs : ReportFilters) (config : SnapshotFormConfig)
    (prev snap : FormSnapshot) (k : string) (ch0 : StateChanges) (n0 : nat) :
  let res := report_step fs config prev snap (ch0, n0) k in
  (∀ x, x ∈ keys res.1 ↔ x ∈ keys ch0 ∨ (x = k ∧ field_changed fs prev snap k = true))
  ∧ res.2 = (n0 + if field_changed fs prev snap k && is_important config k then 1 else 0)%nat
  ∧ (∀ x c, (x, c) ∈ res.1 →
            (x, c) ∈ ch0 ∨ c = {| from := get (state prev) x; to := get (state snap) x |}).
Proof.
  intros res. subst res. unfold report_step.
  destruct (field_changed fs prev snap k); simpl.
  - split; [|split].
    + intros x. rewrite elem_of_keys_set. tauto.
    + destruct (is_important config k); lia.
    + intros x c Hin. apply elem_of_set in Hin as [?|[-> ->]]; [by left|by right].
  - split; [|split].
    + intros x. split; [tauto|]. intros [?|[_ ?]]; [done|discriminate].
    + lia.
    + intros x c Hin. by left.
Qed.

(** What the loop of generateReport has recorded after the keys [l]. *)
Lemma report_fold_spec (fs : ReportFilters) (config : SnapshotFormConfig)
    (prev snap : FormSnapshot) (l : list string) (ch0 : StateChanges) (n0 : nat) :
  let res := foldl (report_step fs config prev snap) (ch0, n0) l in
  (∀ x, x ∈ keys res.1 ↔ x ∈ keys ch0 ∨ (x ∈ l ∧ field_changed fs prev snap x = true))
  ∧ res.2 = (n0 + List.length
                    (filter (λ x, Is_true (field_changed fs prev snap x && is_important config x))
                            l))%nat
  ∧ (∀ x c, (x, c) ∈ res.1 →
            (x, c) ∈ ch0 ∨ c = {| from := get (state prev) x; to := get (state snap) x |}).
Proof.
  revert ch0 n0. induction l as [|k l IH]; intros ch0 n0 res.
  - subst res. simpl. split; [|split].
    + intros x. rewrite elem_of_nil. tauto.
    + lia.
    + intros x c Hin. by left.
  - subst res. simpl.
    destruct (report_step_spec fs config prev snap k ch0 n0) as (Skeys & Scount & Svals).
    destruct (report_step fs config prev snap (ch0, n0) k) as [ch1 n1].
    simpl in Skeys, Scount, Svals.
    destruct (IH ch1 n1) as (Hkeys & Hcount & Hvals).
    split; [|split].
    + intros x. rewrite Hkeys, Skeys, elem_of_cons. split.
      * intros [[?|[Heq ?]]|[? ?]]; [tauto| |tauto]. right. rewrite Heq. tauto.
      * intros [?|[[Heq|?] ?]]; [tauto| |tauto]. left. right. rewrite <- Heq. tauto.
    + rewrite Hcount, Scount, filter_cons.
      destruct (field_changed fs prev snap k && is_important config k); simpl; lia.
    + intros x c Hin. destruct (Hvals x c Hin) as [Hin1|?]; [|by right]. by apply Svals.
Qed.

Lemma report_changes_spec (fs : ReportFilters) (config : SnapshotFormConfig)
    (prev snap : FormSnapshot) :
  let res := report_changes fs config prev snap in
  (∀ x, x ∈ keys res.1 ↔ x ∈ keys (state snap) ∧ field_changed fs prev snap x = true)
  ∧ ((0 < res.2)%nat ↔ ∃ x, x ∈ keys res.1 ∧ is_important config x = true)
  ∧ (∀ x c, (x, c) ∈ res.1 → c = {| from := get (state prev) x; to := get (state snap) x |}).
Proof.
  intros res. subst res. unfold report_changes.
  destruct (report_fold_spec fs config prev snap (keys (state snap)) [] 0)
    as (Hkeys & Hcount & Hvals).
  assert (∀ x, x ∈ keys (foldl (report_step fs config prev snap) ([], 0%nat) (keys (state snap))).1
               ↔ x ∈ keys (state snap) ∧ field_changed fs prev snap x = true) as Hkeys'.
  { intros x. rewrite Hkeys. unfold keys at 2. simpl. rewrite elem_of_nil. tauto. }
  split; [done|]. split.
  - unfold StateChanges in *. rewrite Hcount. simpl. split.
    + intros Hpos.
      destruct (filter _ (keys (state snap))) as [|x rest] eqn:Hf; [simpl in Hpos; lia|].
      assert (x ∈ filter (λ x, Is_true (field_changed fs prev snap x && is_important config x))
                         (keys (state snap))) as Hx by (rewrite Hf; by left).
      apply list_elem_of_filter in Hx as [Hboth Hx]. apply andb_prop_elim in Hboth as [Hc Hi].
      exists x. split; [|by apply Is_true_eq_true]. apply Hkeys'. split; [done|].
      by apply Is_true_eq_true.
    + intros (x & Hx & Hi). apply Hkeys' in Hx as [Hx Hc].
      assert (x ∈ filter (λ x, Is_true (field_changed fs prev snap x && is_important config x))
                         (keys (state snap))) as Hin.
      { apply list_elem_of_filter. split; [|done]. rewrite Hc, Hi. done. }
      destruct (filter _ (keys (state snap))); [by apply elem_of_nil in Hin|simpl; lia].
  - intros x c Hin. destruct (Hvals x c Hin) as [Hnil|?]; [|done].
    by apply elem_of_nil in Hnil.
Qed.

Lemma processSnapshot_unfold (fs : ReportFilters) (config : SnapshotFormConfig)
    (filtered : list FormSnapshot) (index : nat) (snap : FormSnapshot) :
  let r := recorded fs config filtered index snap in
  processSnapshot fs config filtered index snap
  = {| snapshot := snap;
       changes := if Nat.ltb 0 (List.length r.1) then Some r.1 else None;
       importance := if Nat.ltb 0 r.2 then high
                     else if Nat.ltb 3 (List.length r.1) then medium else low |}.
Proof.
  unfold processSnapshot, recorded.
  destruct (if Nat.ltb 0 index then filtered !! (index - 1)%nat else None) as [prev|]; [|done].
  by destruct (report_changes fs config prev snap).
Qed.

Lemma changed_fields_recorded (fs : ReportFilters) (config : SnapshotFormConfig)
    (filtered : list FormSnapshot) (index : nat) (snap : FormSnapshot) :
  default [] (changes (processSnapshot fs config filtered index snap))
  = (recorded fs config filtered index snap).1.
Proof.
  rewrite processSnapshot_unfold. simpl.
  by destruct (recorded fs config filtered index snap).1.
Qed.

Lemma recorded_important (fs : ReportFilters) (config : SnapshotFormConfig)
    (filtered : list FormSnapshot) (index : nat) (snap : FormSnapshot) :
  let r := recorded fs config filtered index snap in
  (0 < r.2)%nat ↔ ∃ x, x ∈ keys r.1 ∧ is_important config x = true.
Proof.
  unfold recorded.
  destruct (if Nat.ltb 0 index then filtered !! (index - 1)%nat else None) as [prev|].
  - apply report_changes_spec.
  - simpl. split; [lia|]. intros (x & Hx & _). by apply elem_of_nil in Hx.
Qed.


Lemma timestamp_or_now_returns (t : option Z) (w : World) :
  ∃ z w', timestamp_or_now t w = (Return z, w').
Proof.
  destruct t as [n|]; simpl; [destruct (n =? 0)|]; unfold Date_now, ret; eauto.
Qed.

Lemma generateReport_returns (l : list FormSnapshot) (config : SnapshotFormConfig)
    (options : ReportOptions) (w : World) :
  ∃ report w', generateReport l config options w = (Return report, w')
               ∧ snapshots report = finalSnapshots (default no_filters (filters options)) config l.
Proof.
  unfold generateReport, bind.
  destruct (timestamp_or_now_returns
              (timestamp ∘ snapshot <$> head (finalSnapshots (default no_filters (filters options))
                                                              config l)) w)
    as (z1 & w1 & ->).
  destruct (timestamp_or_now_returns
              (timestamp ∘ snapshot <$> last (finalSnapshots (default no_filters (filters options))
                                                              config l)) w1)
    as (z2 & w2 & ->).
  unfold ret. eauto.
Qed.

Lemma serialized_changed_true (a b : value) :
  serialized_changed a b = true ↔ stringify a ≠ stringify b.
Proof. unfold serialized_changed. apply bool_decide_eq_true. Qed.

(** *** The filtered list *)

Lemma elem_of_sort_insert {A} (cmp : A → A → Z) (x y : A) (l : list A) :
  y ∈ sort_insert cmp x l ↔ y = x ∨ y ∈ l.
Proof.
  induction l as [|z l IH]; simpl.
  - rewrite list_elem_of_singleton, elem_of_nil. tauto.
  - destruct (cmp x z <=? 0); rewrite !elem_of_cons; [tauto|]. rewrite IH. tauto.
Qed.

Lemma elem_of_sort {A} (cmp : A → A → Z) (y : A) (l : list A) : y ∈ sort cmp l ↔ y ∈ l.
Proof.
  unfold sort. induction l as [|x l IH]; simpl; [done|].
  rewrite elem_of_sort_insert, IH, elem_of_cons. tauto.
Qed.

Lemma sort_insert_chronological (x : FormSnapshot) (l : list FormSnapshot) :
  chronological l → chronological (sort_insert (λ a b, timestamp a - timestamp b) x l).
Proof.
  unfold chronological. induction l as [|y l IH]; intros Hl; simpl.
  - repeat constructor.
  - apply StronglySorted_cons in Hl as [Hy Hl].
    destruct (timestamp x - timestamp y <=? 0) eqn:Hcmp.
    + apply Z.leb_le in Hcmp. apply StronglySorted_cons. split.
      * constructor; [lia|]. eapply Forall_impl; [exact Hy|]. simpl. intros z Hz. lia.
      * by apply StronglySorted_cons.
    + apply Z.leb_gt in Hcmp. apply StronglySorted_cons. split; [|by apply IH].
      apply Forall_forall. intros z Hz. apply elem_of_sort_insert in Hz as [->|Hz]; [lia|].
      rewrite Forall_forall in Hy. by apply Hy.
Qed.

Lemma sort_chronological (l : list FormSnapshot) :
  chronological (sort (λ a b, timestamp a - timestamp b) l).
Proof.
  unfold sort. induction l as [|x l IH]; simpl; [constructor|].
  by apply sort_insert_chronological.
Qed.

Lemma filter_chronological (P : FormSnapshot → Prop) `{!∀ x, Decision (P x)}
    (l : list FormSnapshot) :
  chronological l → chronological (filter P l).
Proof.
  unfold chronological. induction l as [|x l IH]; intros Hl; [done|].
  apply StronglySorted_cons in Hl as [Hx Hl]. rewrite filter_cons.
  destruct (decide (P x)); [|by apply IH].
  apply StronglySorted_cons. split; [|by apply IH].
  apply Forall_forall. intros z Hz. apply list_elem_of_filter in Hz as [_ Hz].
  rewrite Forall_forall in Hx. by apply Hx.
Qed.

Lemma filterSnapshots_chronological (fs : ReportFilters) (l : list FormSnapshot) :
  chronological (filterSnapshots fs l) ∧ ∀ s, s ∈ filterSnapshots fs l → s ∈ l.
Proof.
  unfold filterSnapshots. split.
  - destruct (filter_versions fs) as [[|v vs]|]; destruct (toDate fs); destruct (fromDate fs);
      repeat apply filter_chronological; apply sort_chronological.
  - intros s.
    destruct (filter_versions fs) as [[|v vs]|]; destruct (toDate fs); destruct (fromDate fs);
      rewrite ?list_elem_of_filter, elem_of_sort; tauto.
Qed.

(** Each snapshot of a report is the result of the map callback at some
    index of the filtered list. *)
Lemma report_snapshot_processed (l : list FormSnapshot) (config : SnapshotFormConfig)
    (options : ReportOptions) (w w' : World) (report : SnapshotReport) (p : ProcessedSnapshot) :
  let fs := default no_filters (filters options) in
  generateReport l config options w = (Return report, w') →
  p ∈ snapshots report →
  ∃ i snap, filterSnapshots fs l !! i = Some snap
            ∧ p = processSnapshot fs config (filterSnapshots fs l) i snap.
Proof.
  intros fs Hgen Hp.
  destruct (generateReport_returns l config options w) as (report' & w'' & Hgen' & Hsnaps).
  rewrite Hgen in Hgen'. simplify_eq. rewrite Hsnaps in Hp. fold fs in Hp.
  assert (p ∈ processSnapshots fs config (filterSnapshots fs l)) as Hproc.
  { unfold finalSnapshots in Hp.
    destruct (onlyImportant fs); [|done]. by apply list_elem_of_filter in Hp as [_ ?]. }
  unfold processSnapshots in Hproc.
  apply elem_of_lookup_imap in Hproc as (i & snap & -> & Hi). eauto.
Qed.





(** ** Migration manager *)

Lemma run_migrations_cons (isUpgrade : bool) (m : Migration) (rest : list Migration)
    (snap : FormSnapshot) (w : World) :
  run_migrations isUpgrade (m :: rest) snap w
  = match executeMigration snap m (if isUpgrade then dir_up else dir_down)
            (logged w (executing_line isUpgrade m)) with
    | (Return s', w') => run_migrations isUpgrade rest s' w'
    | (Throw e, w') => (Throw e, w')
    end.
Proof. reflexivity. Qed.


Lemma migrateToVersion_unfold (mgr : SnapshotMigrationManager) (snap : FormSnapshot)
    (targetVersion : string) (w : World) :
  compareVersions (version snap) targetVersion ≠ 0 →
  migrateToVersion mgr snap targetVersion w
  = run_migrations (0 <? compareVersions targetVersion (version snap))
      (relevantMigrations mgr (version snap) targetVersion) snap
      (logged w (migrating_line (version snap) targetVersion)).
Proof.
  intros Hne. unfold migrateToVersion, bind, logger. simpl.
  by rewrite decide_False by done.
Qed.




(** ** Report formatters *)

Lemma user_pieces_app (a b : rope) : user_pieces (a ++ b) = user_pieces a ++ user_pieces b.
Proof. apply filter_app. Qed.

Lemma user_pieces_rjoin (sep : string) (l : list rope) :
  user_pieces (rjoin sep l) = List.concat (user_pieces <$> l).
Proof.
  induction l as [|x l IH]; [done|].
  destruct l as [|y l].
  - simpl. by rewrite app_nil_r.
  - change (rjoin sep (x :: y :: l)) with (x ++ [Markup sep] ++ rjoin sep (y :: l)).
    rewrite !user_pieces_app, IH. done.
Qed.

Lemma user_pieces_concat (l : list rope) :
  user_pieces (List.concat l) = List.concat (user_pieces <$> l).
Proof.
  induction l as [|x l IH]; [done|]. simpl. by rewrite user_pieces_app, IH.
Qed.

Lemma ser_defined (gap ind : string) (v : value) :
  v ≠ VUndefined → ∃ s, ser gap ind v = Some s.
Proof. destruct v; simpl; intros Hv; try done; eauto. Qed.

Lemma escape_serialized_returns (serialize : value → option string) (v : value) (r : rope) :
  escape_serialized serialize v = Return r → r = [Escaped (default "" (serialize v))].
Proof.
  unfold escape_serialized. destruct (serialize v); intros H; by simplify_eq.
Qed.

Lemma omap_returns {A B} (f : A → outcome B) (l : list A) (ys : list B) :
  omap f l = Return ys → Forall2 (λ x y, f x = Return y) l ys.
Proof.
  revert ys. induction l as [|x l IH]; intros ys; simpl.
  - intros [= <-]. constructor.
  - destruct (f x) as [y|e] eqn:Hfx; [|done]. simpl.
    destruct (omap f l) as [ys'|e]; [|done]. simpl. intros [= <-].
    constructor; [done|]. by apply IH.
Qed.

Lemma omap_total {A B} (f : A → outcome B) (l : list A) :
  (∀ x, x ∈ l → ∃ y, f x = Return y) → ∃ ys, omap f l = Return ys.
Proof.
  induction l as [|x l IH]; intros Hall; simpl; [eauto|].
  destruct (Hall x) as [y ->]; [by left|]. simpl.
  destruct IH as [ys ->]; [|simpl; eauto].
  intros x' Hx'. apply Hall. by right.
Qed.

Lemma rows_strings {A B} (f : A → outcome B) (h : B → rope) (g : A → rope) (l : list A)
    (rows : list B) :
  (∀ x r, f x = Return r → h r = g x) →
  omap f l = Return rows →
  List.concat (h <$> rows) = l ≫= g.
Proof.
  intros Hf Hrows. apply omap_returns in Hrows.
  induction Hrows as [|x r l rows Hx _ IH]; [done|].
  rewrite fmap_cons, bind_cons. cbn [List.concat]. by rewrite (Hf x r Hx), IH.
Qed.

Lemma user_pieces_markup (s : string) (r : rope) :
  user_pieces (Markup s :: r) = user_pieces r.
Proof. reflexivity. Qed.

Lemma user_pieces_computed (s : string) (r : rope) :
  user_pieces (Computed s :: r) = user_pieces r.
Proof. reflexivity. Qed.

Lemma user_pieces_escaped (s : string) (r : rope) :
  user_pieces (Escaped s :: r) = Escaped s :: user_pieces r.
Proof. reflexivity. Qed.

Lemma user_pieces_verbatim (s : string) (r : rope) :
  user_pieces (Verbatim s :: r) = Verbatim s :: user_pieces r.
Proof. reflexivity. Qed.

Lemma user_pieces_nil : user_pieces [] = [].
Proof. reflexivity. Qed.

(** Push [user_pieces] through the seams of a rope. *)
Ltac strings :=
  repeat first
    [ rewrite user_pieces_app
    | rewrite user_pieces_rjoin
    | rewrite user_pieces_markup
    | rewrite user_pieces_computed
    | rewrite user_pieces_escaped
    | rewrite user_pieces_verbatim
    | rewrite user_pieces_nil
    | rewrite app_nil_r
    | rewrite app_nil_l ].

Section FormatterProperties.

Variables toLocaleDateString toLocaleString toISOString : Z → string.

Lemma formatChangesTable_row_strings (entry : string * FieldChange) (r : rope) :
  formatChangesTable_row entry = Return r → user_pieces r = row_strings stringify2 entry.
Proof.
  destruct entry as [fld change]. unfold formatChangesTable_row, row_strings.
  destruct (escape_serialized stringify2 (from change)) as [ft|e] eqn:Hf; [|done].
  destruct (escape_serialized stringify2 (to change)) as [tt|e] eqn:Ht; [|done].
  apply escape_serialized_returns in Hf as ->. apply escape_serialized_returns in Ht as ->.
  cbn [obind]. intros [= <-]. by strings.
Qed.

Lemma formatChangesTable_strings (changes : StateChanges) (r : rope) :
  formatChangesTable changes = Return r → user_pieces r = changes ≫= row_strings stringify2.
Proof.
  unfold formatChangesTable.
  destruct (omap formatChangesTable_row changes) as [rows|e] eqn:Hrows; [|done].
  cbn [obind]. intros [= <-]. strings.
  by rewrite (rows_strings _ user_pieces (row_strings stringify2) _ _
                formatChangesTable_row_strings Hrows).
Qed.

Lemma formatSnapshotSection_strings (p : ProcessedSnapshot) (r : rope) :
  formatSnapshotSection toLocaleString toISOString p = Return r →
  user_pieces r = section_strings stringify2 Escaped p.
Proof.
  unfold formatSnapshotSection, section_strings.
  destruct p as [snap ch imp]. cbn [snapshot changes importance].
  destruct ch as [[|c cs]|]; cbn [obind default mbind list_bind].
  - destruct (metadata snap) as [md|].
    + destruct (escape_serialized stringify2 (VObj 0 md)) as [mt|e] eqn:Hm; [|done].
      apply escape_serialized_returns in Hm as ->. cbn [obind]. intros [= <-]. by strings.
    + cbn [obind]. intros [= <-]. by strings.
  - destruct (formatChangesTable (c :: cs)) as [table|e] eqn:Htable; [|done].
    apply formatChangesTable_strings in Htable. cbn [obind].
    destruct (metadata snap) as [md|].
    + destruct (escape_serialized stringify2 (VObj 0 md)) as [mt|e] eqn:Hm; [|done].
      apply escape_serialized_returns in Hm as ->. cbn [obind]. intros [= <-].
      strings. by rewrite Htable.
    + cbn [obind]. intros [= <-]. strings. by rewrite Htable.
  - destruct (metadata snap) as [md|].
    + destruct (escape_serialized stringify2 (VObj 0 md)) as [mt|e] eqn:Hm; [|done].
      apply escape_serialized_returns in Hm as ->. cbn [obind]. intros [= <-]. by strings.
    + cbn [obind]. intros [= <-]. by strings.
Qed.

Lemma escape_serialized_total (serialize : value → option string) (v : value) :
  (∃ s, serialize v = Some s) → ∃ r, escape_serialized serialize v = Return r.
Proof. intros [s Hs]. unfold escape_serialized. rewrite Hs. eauto. Qed.

Lemma formatChangesTable_total (changes : StateChanges) :
  (∀ entry, entry ∈ changes → from entry.2 ≠ VUndefined ∧ to entry.2 ≠ VUndefined) →
  ∃ r, formatChangesTable changes = Return r.
Proof.
  intros Hser. unfold formatChangesTable.
  destruct (omap_total formatChangesTable_row changes) as [rows ->]; [|cbn [obind]; eauto].
  intros [fld change] Hin. destruct (Hser _ Hin) as [Hf Ht]. simpl in Hf, Ht.
  unfold formatChangesTable_row.
  destruct (escape_serialized_total stringify2 (from change) (ser_defined _ _ _ Hf)) as [ft ->].
  destruct (escape_serialized_total stringify2 (to change) (ser_defined _ _ _ Ht)) as [tt ->].
  cbn [obind]. eauto.
Qed.

Lemma formatSnapshotSection_total (p : ProcessedSnapshot) :
  changes_serializable p → ∃ r, formatSnapshotSection toLocaleString toISOString p = Return r.
Proof.
  intros Hser. unfold formatSnapshotSection, changes_serializable in *.
  destruct p as [snap ch imp]. cbn [snapshot changes importance] in *.
  assert (∃ part, match ch with
                  | Some (c :: cs) =>
                      obind (formatChangesTable (c :: cs))
                        (λ table, Return (_ ++ table ++ _))
                  | _ => Return []
                  end = Return part) as [part ->].
  { destruct ch as [[|c cs]|]; [eauto| |eauto].
    destruct (formatChangesTable_total (c :: cs) Hser) as [table ->]. cbn [obind]. eauto. }
  cbn [obind].
  destruct (metadata snap) as [md|]; [|cbn [obind]; eauto].
  destruct (escape_serialized_total stringify2 (VObj 0 md)) as [mt ->]; [|cbn [obind]; eauto].
  apply ser_defined. done.
Qed.

(** *** Markdown *)

Lemma separator_strings (headers : list rope) :
  List.concat (user_pieces <$> ((λ _, [Markup "---"]) <$> headers)) = [].
Proof. induction headers as [|h headers IH]; [done|]. rewrite !fmap_cons. by cbn [List.concat]. Qed.

Lemma mdTable_strings (headers : list rope) (rows : list (list rope)) :
  user_pieces (mdTable headers rows)
  = List.concat (user_pieces <$> headers)
    ++ List.concat ((λ row, List.concat (user_pieces <$> row)) <$> rows).
Proof.
  unfold mdTable. rewrite user_pieces_rjoin, !fmap_cons. cbn [List.concat].
  strings. rewrite separator_strings, app_nil_l. f_equal.
  induction rows as [|row rows IH]; [done|].
  rewrite !fmap_cons. cbn [List.concat]. strings. by rewrite IH.
Qed.

Lemma formatChangesAsTable_strings (changes : StateChanges) (r : rope) :
  formatChangesAsTable changes = Return r → user_pieces r = changes ≫= row_strings stringify.
Proof.
  unfold formatChangesAsTable.
  destruct (omap _ changes) as [rows|e] eqn:Hrows; [|done].
  cbn [obind]. intros [= <-]. rewrite mdTable_strings.
  rewrite !fmap_cons, fmap_nil. cbn [List.concat]. strings.
  apply (rows_strings _ (λ row, List.concat (user_pieces <$> row)) (row_strings stringify)
           _ _) in Hrows; [done|].
  intros [fld change] row. unfold row_strings.
  destruct (escape_serialized stringify (from change)) as [ft|e] eqn:Hf; [|done].
  destruct (escape_serialized stringify (to change)) as [tt|e] eqn:Ht; [|done].
  apply escape_serialized_returns in Hf as ->. apply escape_serialized_returns in Ht as ->.
  cbn [obind]. intros [= <-]. rewrite !fmap_cons, fmap_nil. cbn [List.concat]. by strings.
Qed.

Lemma formatChangesAsTable_total (changes : StateChanges) :
  (∀ entry, entry ∈ changes → from entry.2 ≠ VUndefined ∧ to entry.2 ≠ VUndefined) →
  ∃ r, formatChangesAsTable changes = Return r.
Proof.
  intros Hser. unfold formatChangesAsTable.
  match goal with |- context [omap ?f changes] =>
    destruct (omap_total f changes) as [rows ->]; [|cbn [obind]; eauto] end.
  intros [fld change] Hin. destruct (Hser _ Hin) as [Hf Ht]. simpl in Hf, Ht.
  destruct (escape_serialized_total stringify (from change) (ser_defined _ _ _ Hf)) as [ft ->].
  destruct (escape_serialized_total stringify (to change) (ser_defined _ _ _ Ht)) as [tt ->].
  cbn [obind]. eauto.
Qed.

Lemma lines_strings_app (a b : list rope) :
  lines_strings (a ++ b) = lines_strings a ++ lines_strings b.
Proof. unfold lines_strings. by rewrite concat_app, user_pieces_app. Qed.

Lemma lines_strings_cons (r : rope) (l : list rope) :
  lines_strings (r :: l) = user_pieces r ++ lines_strings l.
Proof. unfold lines_strings. cbn [List.concat]. by rewrite user_pieces_app. Qed.

Lemma metadata_block_strings (md : obj) :
  user_pieces (mdCodeBlock (verbatim_serialized stringify2 (VObj 0 md)) "json")
  = [Verbatim (default "" (stringify2 (VObj 0 md)))].
Proof.
  unfold mdCodeBlock, verbatim_serialized.
  destruct (ser_defined "  " "" (VObj 0 md)) as [s Hs]; [done|].
  unfold stringify2. rewrite Hs. cbn [default]. by strings.
Qed.

Lemma addSnapshotSection_strings (p : ProcessedSnapshot) (lines0 lines : list rope) :
  addSnapshotSection toLocaleString p lines0 = Return lines →
  lines_strings lines = lines_strings lines0 ++ section_strings stringify Verbatim p.
Proof.
  unfold addSnapshotSection, section_strings.
  destruct p as [snap ch imp]. cbn [snapshot changes importance].
  assert (lines_strings [[Markup "#### Version "; Escaped (version snap)]; [];
                         [Markup "*"; Computed (toLocaleString (timestamp snap)); Markup "*"];
                         []]
          = [Escaped (version snap)]) as Hhead
    by (rewrite !lines_strings_cons; by strings).
  assert (lines_strings [[Markup "---"]; []] = []) as Hfoot
    by (rewrite !lines_strings_cons; by strings).
  assert (∀ md, lines_strings [[Markup "Metadata:"]; [];
                               mdCodeBlock (verbatim_serialized stringify2 (VObj 0 md)) "json";
                               []]
                = [Verbatim (default "" (stringify2 (VObj 0 md)))]) as Hmeta.
  { intros md. rewrite !lines_strings_cons, metadata_block_strings. by strings. }
  destruct ch as [[|c cs]|]; cbn [obind default mbind list_bind].
  - destruct (metadata snap) as [md|]; intros [= <-];
      rewrite !lines_strings_app, ?Hmeta, Hfoot, Hhead, ?app_nil_r, <- ?app_assoc;
      reflexivity.
  - destruct (formatChangesAsTable (c :: cs)) as [table|e] eqn:Htable; [|done].
    apply formatChangesAsTable_strings in Htable. cbn [obind].
    assert (lines_strings [[Markup "Changes:"]; []; table; []]
            = (c :: cs) ≫= row_strings stringify) as Hchanges.
    { rewrite !lines_strings_cons, Htable. by strings. }
    destruct (metadata snap) as [md|]; intros [= <-];
      rewrite !lines_strings_app, ?Hmeta, Hfoot, Hchanges, Hhead, ?app_nil_r, <- ?app_assoc;
      reflexivity.
  - destruct (metadata snap) as [md|]; intros [= <-];
      rewrite !lines_strings_app, ?Hmeta, Hfoot, Hhead, ?app_nil_r, <- ?app_assoc;
      reflexivity.
Qed.

Lemma addSnapshotSection_total (p : ProcessedSnapshot) (lines0 : list rope) :
  changes_serializable p → ∃ lines, addSnapshotSection toLocaleString p lines0 = Return lines.
Proof.
  intros Hser. unfold addSnapshotSection, changes_serializable in *.
  destruct p as [snap ch imp]. cbn [snapshot changes importance] in *.
  destruct ch as [[|c cs]|]; cbn [obind]; [eauto| |eauto].
  destruct (formatChangesAsTable_total (c :: cs) Hser) as [table ->]. cbn [obind]. eauto.
Qed.

End FormatterProperties.

(** *** The escape functions *)

Lemma string_forall_app (P : ascii → bool) (a b : string) :
  string_forall P (a +:+ b) = string_forall P a && string_forall P b.
Proof. induction a as [|c a IH]; simpl; [done|]. by rewrite IH, andb_assoc. Qed.

Lemma string_forall_replace (P Q : ascii → bool) (c : ascii) (by_ s : string) :
  string_forall Q s = true →
  string_forall P by_ = true →
  (∀ a, Q a = true → a ≠ c → P a = true) →
  string_forall P (replace_char c by_ s) = true.
Proof.
  intros Hs Hby Himp. induction s as [|a s IH]; simpl; [done|].
  simpl in Hs. apply andb_true_iff in Hs as [Ha Hs].
  destruct (Ascii.eqb a c) eqn:Hac.
  - rewrite string_forall_app, Hby. by apply IH.
  - simpl. rewrite IH by done. rewrite Himp; [done|done|].
    intros ->. by rewrite Ascii.eqb_refl in Hac.
Qed.

Lemma string_forall_true (s : string) : string_forall (λ _, true) s = true.
Proof. induction s; simpl; done. Qed.

Lemma htmlEscape_inert (text : string) : html_inert (htmlEscape text) = true.
Proof.
  unfold html_inert, htmlEscape.
  set (P4 := λ a : ascii, negb (bool_decide (a ∈ ["<"%char; ">"%char; "034"%char; "039"%char]))).
  set (P3 := λ a : ascii, negb (bool_decide (a ∈ ["<"%char; ">"%char; "034"%char]))).
  set (P2 := λ a : ascii, negb (bool_decide (a ∈ ["<"%char; ">"%char]))).
  set (P1 := λ a : ascii, negb (bool_decide (a ∈ ["<"%char]))).
  assert (∀ (l : list ascii) (c a : ascii),
            negb (bool_decide (a ∈ l)) = true → a ≠ c →
            negb (bool_decide (a ∈ l ++ [c])) = true) as Hsnoc.
  { intros l c a. rewrite !negb_true_iff, !bool_decide_eq_false, elem_of_app,
      list_elem_of_singleton. tauto. }
  apply (string_forall_replace P4 P3); [|done|intros a; apply (Hsnoc [_; _; _])].
  apply (string_forall_replace P3 P2); [|done|intros a; apply (Hsnoc [_; _])].
  apply (string_forall_replace P2 P1); [|done|intros a; apply (Hsnoc [_])].
  apply (string_forall_replace P1 (λ _, true));
    [|done|intros a _ Hne; apply (Hsnoc [] _ a); [reflexivity|done]].
  apply (string_forall_replace (λ _, true) (λ _, true)); [|done|done].
  apply string_forall_true.
Qed.

Lemma mdEscape_guarded (text : string) (guarded : bool) :
  md_guarded guarded (mdEscape text) = true.
Proof.
  revert guarded. induction text as [|a text IH]; intros guarded; [done|].
  simpl. destruct (md_special a) eqn:Ha.
  - simpl. rewrite Ha. simpl. apply IH.
  - simpl. rewrite Ha. simpl. apply IH.
Qed.

(** C8, as amended: in the section of a snapshot the HTML formatter
    embeds the version, each changed field's name and two serialized
    values and the serialized metadata only through htmlEscape, whose
    output has none of the characters that open or close a tag or an
    attribute value; the Markdown formatter embeds the version, the names
    and the values only through mdEscape, whose output has a backslash
    before every one of its special characters, and embeds the
    serialized metadata as it is inside a fenced code block.  Both
    return when every recorded value has a serialization. *)
Theorem section_escaping (toLocaleString toISOString : Z → string) (p : ProcessedSnapshot) :
  (∀ r, formatSnapshotSection toLocaleString toISOString p = Return r →
        user_pieces r = section_strings stringify2 Escaped p)
  ∧ (∀ lines, addSnapshotSection toLocaleString p [] = Return lines →
              lines_strings lines = section_strings stringify Verbatim p)
  ∧ (changes_serializable p →
     (∃ r, formatSnapshotSection toLocaleString toISOString p = Return r)
     ∧ (∃ lines, addSnapshotSection toLocaleString p [] = Return lines))
  ∧ (∀ text, html_inert (htmlEscape text) = true)
  ∧ (∀ text, md_guarded false (mdEscape text) = true).
Proof.
  split; [apply formatSnapshotSection_strings|].
  split; [intros lines Hlines; by apply addSnapshotSection_strings in Hlines|].
  split; [|split; [apply htmlEscape_inert|intros text; apply mdEscape_guarded]].
  intros Hser. split.
  - by apply formatSnapshotSection_total.
  - by apply addSnapshotSection_total.
Qed.

Lemma section_escaping_witness :
  (∃ r, formatSnapshotSection time_value time_value scripted_processed = Return r
        ∧ user_pieces r = section_strings stringify2 Escaped scripted_processed)
  ∧ (∃ lines, addSnapshotSection time_value scripted_processed [] = Return lines
              ∧ lines_strings lines = section_strings stringify Verbatim scripted_processed).
Proof.
  pose proof (section_escaping time_value time_value scripted_processed)
    as (Hhtml & Hmd & Htotal & _).
  destruct Htotal as [[r Hr] [lines Hlines]].
  { intros entry Hin. apply list_elem_of_singleton in Hin as ->. by split. }
  split.
  - exists r. split; [done|]. by apply Hhtml.
  - exists lines. split; [done|]. by apply Hmd.
Defined.

(** C8, as stated, fails: both formatters embed the versions of the
    summary as they are, and the Markdown formatter also the serialized
    metadata, so a version that is a script element reaches the HTML
    document as one. *)
Lemma formatters_embed_unescaped :
  verbatim_pieces <$> formatHtmlReport_rope time_value time_value time_value scripted_report
  = Return [Verbatim "<script>alert(1)</script>"; Verbatim "1.0"]
  ∧ (match formatHtmlReport time_value time_value time_value scripted_report with
     | Return html => contains "<td><script>alert(1)</script>, 1.0</td>" html
     | Throw _ => false
     end) = true
  ∧ verbatim_pieces <$> formatMarkdownReport_rope time_value time_value scripted_report
    = Return [Verbatim "<script>alert(1)</script>"; Verbatim "1.0";
              Verbatim (default "" (stringify2 (VObj 0 [("note", VStr "*bold* <b>")])))]
  ∧ (match formatMarkdownReport time_value time_value scripted_report with
     | Return md => contains "| Versions | <script>alert(1)</script>, 1.0 |" md
                    && contains "*bold* <b>" md
     | Throw _ => false
     end) = true.
Proof. by vm_compute. Qed.

(** ** Snapshot store: lookup, deletion, retention *)

Lemma getSnapshots_storage (mgr : FormSnapshotManager) (w : World) :
  storage (getSnapshots mgr w).2 = storage w.
Proof.
  pose proof (getSnapshots_catches mgr w) as Hcatch.
  pose proof (loadSnapshots_world mgr w) as Hworld.
  destruct (loadSnapshots mgr w) as [[d|e] w1]; simpl in Hworld; subst w1; by rewrite Hcatch.
Qed.

Lemma getSnapshots_returns (mgr : FormSnapshotManager) (w : World) :
  ∃ d, (getSnapshots mgr w).1 = Return d.
Proof.
  pose proof (getSnapshots_catches mgr w) as Hcatch.
  destruct (loadSnapshots mgr w) as [[d|e] w1]; rewrite Hcatch; eauto.
Qed.

(** A healthy read is silent: with a readable storage, a loaded list
    other than the empty one of the [catch] block leaves the world as it
    was. *)
Lemma getSnapshots_healthy (mgr : FormSnapshotManager) (w : World) (l : list FormSnapshot) :
  getItem_fault (storage w) = None →
  (getSnapshots mgr w).1 = Return (DocSnapshots l) →
  items (storage w) !! snapshotKey mgr = Some (compress mgr (DocSnapshots l))
  ∨ l = [].
Proof.
  intros Hget. unfold getSnapshots, try_catch, loadSnapshots, bind, storage_getItem.
  rewrite Hget. unfold compress.
  destruct (items (storage w) !! snapshotKey mgr) as [[|d|d|]|]; unfold parse_decompressed, ret, throw;
    destruct (compressionEnabled mgr); simpl; intros H; simplify_eq; auto.
Qed.

(** What the storage holds after a createSnapshot that returned. *)
Lemma createSnapshot_stored (mgr : FormSnapshotManager) (st : obj) (md : option obj)
    (w w' : World) (s : FormSnapshot) (l : list FormSnapshot) :
  (getAllSnapshots mgr w).1 = Return (DocSnapshots l) →
  createSnapshot mgr st md w = (Return s, w') →
  items (storage w') !! snapshotKey mgr
  = Some (compress mgr (DocSnapshots (kept_snapshots mgr (l ++ [s]))))
  ∧ getItem_fault (storage w') = getItem_fault (storage w)
  ∧ setItem_fault (storage w') = setItem_fault (storage w).
Proof.
  unfold getAllSnapshots. intros Hheld Hcreate.
  destruct (getSnapshots mgr w) as [o w1] eqn:Hload. simpl in Hheld. subst o.
  pose proof (getSnapshots_storage mgr w) as Hstore. rewrite Hload in Hstore. simpl in Hstore.
  rewrite (createSnapshot_after_load mgr st md w w1 l Hload) in Hcreate.
  destruct (setItem_fault (storage (after_draws w1))) as [e|] eqn:Hset.
  { rewrite (saveSnapshots_fault _ _ _ _ Hset) in Hcreate. done. }
  destruct (saveSnapshots_ok mgr (kept_snapshots mgr (l ++ [new_snapshot w1 st md]))
              (after_draws w1) Hset) as (w2 & Hsave & Hitems & Hg & Hs & _).
  rewrite Hsave in Hcreate. simplify_eq.
  rewrite Hitems, lookup_insert_eq. split; [done|].
  rewrite Hg, Hs. unfold after_draws, Date_now, randomUUID in *. simpl in *.
  by rewrite <- Hstore.
Qed.

Lemma list_find_snoc_fresh (id : string) (l : list FormSnapshot) (s : FormSnapshot) :
  (∀ old, old ∈ l → snap_id old ≠ id) → snap_id s = id →
  list_find (λ x, snap_id x = id) (l ++ [s]) = Some (List.length l, s).
Proof.
  intros Hfresh Hid. apply list_find_Some. split; [by rewrite lookup_app_r, Nat.sub_diag|].
  split; [done|]. intros j y Hj Hlt. rewrite lookup_app_l in Hj by done.
  apply Hfresh. by eapply list_elem_of_lookup_2.
Qed.

(** X1: with a readable storage, a limit of at least one snapshot and an
    identifier no stored snapshot has yet, getSnapshot finds, under the
    id of the snapshot createSnapshot returned, a snapshot with that id,
    timestamp and version, and restoreSnapshot yields the state of that
    snapshot and not null; neither lookup changes the world. *)
Theorem getSnapshot_after_create (mgr : FormSnapshotManager) (st : obj) (md : option obj)
    (w w' : World) (s : FormSnapshot) (l : list FormSnapshot) :
  getItem_fault (storage w) = None →
  1 ≤ maxSnapshots mgr →
  (getAllSnapshots mgr w).1 = Return (DocSnapshots l) →
  createSnapshot mgr st md w = (Return s, w') →
  (∀ old, old ∈ l → snap_id old ≠ snap_id s) →
  ∃ found,
    getSnapshot mgr (snap_id s) w' = (Return (Some found), w')
    ∧ snap_id found = snap_id s ∧ timestamp found = timestamp s ∧ version found = "1.0"
    ∧ restoreSnapshot mgr (snap_id s) w' = (Return (Some (state found)), w').
Proof.
  intros Hget Hmax Hheld Hcreate Hfresh.
  destruct (createSnapshot_stored _ _ _ _ _ _ _ Hheld Hcreate) as (Hitem & Hg & _).
  assert ((createSnapshot mgr st md w).1 = Return s) as Hres by (by rewrite Hcreate).
  apply createSnapshot_result in Hres as (Hversion & _ & _).
  rewrite Hget in Hg.
  pose proof (getSnapshots_after_save mgr _ w' Hg Hitem) as Hread.
  assert (∃ l', kept_snapshots mgr (l ++ [s]) = l' ++ [s] ∧ ∀ old, old ∈ l' → old ∈ l)
    as (l' & Hkept & Hsub).
  { unfold kept_snapshots.
    destruct (autoCleanup mgr && (maxSnapshots mgr <? Z.of_nat (List.length (l ++ [s])))) eqn:Hc.
    - destruct l as [|x l]; simpl in *.
      + apply andb_true_iff in Hc as [_ Hc]. apply Z.ltb_lt in Hc. lia.
      + exists l. split; [done|]. intros old Hold. by right.
    - by exists l. }
  assert (getSnapshot mgr (snap_id s) w' = (Return (Some s), w')) as Hfound.
  { unfold getSnapshot, bind. rewrite Hread, Hkept.
    rewrite (list_find_snoc_fresh (snap_id s) l' s); [done| |done].
    intros old Hold. apply Hfresh. by apply Hsub. }
  exists s. split; [done|]. split; [done|]. split; [done|]. split; [done|].
  unfold restoreSnapshot, bind. by rewrite Hfound.
Qed.

Lemma getSnapshot_after_create_witness :
  ∃ s w' found,
    createSnapshot default_manager (email_state "a@b.c") None three_held = (Return s, w')
    ∧ getSnapshot default_manager (snap_id s) w' = (Return (Some found), w')
    ∧ snap_id found = snap_id s ∧ timestamp found = timestamp s ∧ version found = "1.0"
    ∧ restoreSnapshot default_manager (snap_id s) w' = (Return (Some (state found)), w').
Proof.
  exists (new_snapshot three_held (email_state "a@b.c") None),
         (createSnapshot default_manager (email_state "a@b.c") None three_held).2.
  destruct (getSnapshot_after_create default_manager (email_state "a@b.c") None three_held
              (createSnapshot default_manager (email_state "a@b.c") None three_held).2
              (new_snapshot three_held (email_state "a@b.c") None)
              [snapshot_at 1 "1.0"; snapshot_at 2 "1.0"; snapshot_at 3 "1.0"]
              ltac:(by vm_compute) ltac:(by vm_compute) ltac:(by vm_compute)
              ltac:(by vm_compute)) as (found & Hfound).
  { apply Forall_forall. by repeat constructor. }
  exists found. split; [by vm_compute|]. exact Hfound.
Defined.

Lemma getSnapshots_split (mgr : FormSnapshotManager) (w : World) (d : doc) :
  (getSnapshots mgr w).1 = Return d →
  ∃ w1, getSnapshots mgr w = (Return d, w1) ∧ storage w1 = storage w.
Proof.
  intros Hheld. pose proof (getSnapshots_storage mgr w) as Hstore.
  destruct (getSnapshots mgr w) as [o w1]. simpl in *. subst o. eauto.
Qed.

Lemma deleteSnapshot_after_load (mgr : FormSnapshotManager) (id : string) (w w1 : World)
    (l : list FormSnapshot) :
  getSnapshots mgr w = (Return (DocSnapshots l), w1) →
  deleteSnapshot mgr id w
  = match list_find (λ s, snap_id s = id) l with
    | None => (Return false, w1)
    | Some (index, _) =>
        match saveSnapshots mgr (delete index l) w1 with
        | (Return _, w2) => (Return true, w2)
        | (Throw e, w2) => (Throw e, w2)
        end
    end.
Proof.
  intros Hload. unfold deleteSnapshot, bind at 1. rewrite Hload.
  destruct (list_find _ l) as [[index s]|]; [|done]. simpl. unfold bind.
  by destruct (saveSnapshots mgr (delete index l) w1) as [[[]|e] w2].
Qed.

(** X2: deleteSnapshot returns false exactly when no stored snapshot
    has the id, and then leaves the storage as it was: nothing is
    written. *)
Theorem deleteSnapshot_absent (mgr : FormSnapshotManager) (id : string) (w : World)
    (l : list FormSnapshot) :
  (getAllSnapshots mgr w).1 = Return (DocSnapshots l) →
  ((deleteSnapshot mgr id w).1 = Return false ↔ ∀ s, s ∈ l → snap_id s ≠ id)
  ∧ ((deleteSnapshot mgr id w).1 = Return false →
     storage (deleteSnapshot mgr id w).2 = storage w).
Proof.
  unfold getAllSnapshots. intros Hheld.
  destruct (getSnapshots_split _ _ _ Hheld) as (w1 & Hload & Hstore).
  rewrite (deleteSnapshot_after_load _ _ _ _ _ Hload).
  destruct (list_find (λ s, snap_id s = id) l) as [[index s]|] eqn:Hfind.
  - apply list_find_Some in Hfind as (Hat & Hid & _).
    assert (¬ ∀ s0, s0 ∈ l → snap_id s0 ≠ id) as Hnot.
    { intros Hnone. apply (Hnone s); [by eapply list_elem_of_lookup_2|done]. }
    destruct (saveSnapshots mgr (delete index l) w1) as [[[]|e] w2]; simpl;
      (split; [split; [done|by intros ?]|done]).
  - simpl. split; [|done]. split; [|done].
    intros _ s Hs Hid. apply list_find_None in Hfind.
    rewrite Forall_forall in Hfind. by apply (Hfind s).
Qed.

Lemma deleteSnapshot_absent_witness :
  ((deleteSnapshot default_manager "absent" three_held).1 = Return false
   ↔ ∀ s, s ∈ [snapshot_at 1 "1.0"; snapshot_at 2 "1.0"; snapshot_at 3 "1.0"] →
          snap_id s ≠ "absent")
  ∧ ((deleteSnapshot default_manager "absent" three_held).1 = Return false →
     storage (deleteSnapshot default_manager "absent" three_held).2 = storage three_held).
Proof.
  exact (deleteSnapshot_absent default_manager "absent" three_held
           [snapshot_at 1 "1.0"; snapshot_at 2 "1.0"; snapshot_at 3 "1.0"]
           ltac:(by vm_compute)).
Defined.


(** X3: when a stored snapshot has the id, deleteSnapshot removes the
    first such snapshot and no other, keeps the order of the rest, and
    returns true; when the storage refuses the write it throws the
    storage's error and the world is unchanged. *)
Theorem deleteSnapshot_present (mgr : FormSnapshotManager) (id : string) (w : World)
    (before after : list FormSnapshot) (s : FormSnapshot) :
  (getAllSnapshots mgr w).1 = Return (DocSnapshots (before ++ s :: after)) →
  (∀ old, old ∈ before → snap_id old ≠ id) →
  snap_id s = id →
  match setItem_fault (storage w) with
  | None =>
      ∃ w', deleteSnapshot mgr id w = (Return true, w')
            ∧ getAllSnapshots mgr w' = (Return (DocSnapshots (before ++ after)), w')
  | Some e => deleteSnapshot mgr id w = (Throw e, w)
  end.
Proof.
  unfold getAllSnapshots. intros Hheld Hfresh Hid.
  destruct (getSnapshots mgr w) as [o w1] eqn:Hload. simpl in Hheld. subst o.
  assert (∃ x rest, before ++ s :: after = x :: rest) as (x & rest & Hcons).
  { destruct before; simpl; eauto. }
  rewrite Hcons in Hload.
  destruct (getSnapshots_nonempty _ _ _ _ _ Hload) as [-> Hget].
  rewrite <- Hcons in Hload.
  rewrite (deleteSnapshot_after_load _ _ _ _ _ Hload).
  assert (list_find (λ s0, snap_id s0 = id) (before ++ s :: after)
          = Some (List.length before, s)) as ->.
  { apply list_find_Some. split; [by rewrite list_lookup_middle|]. split; [done|].
    intros j y Hj Hlt. rewrite lookup_app_l in Hj by done.
    apply Hfresh. by eapply list_elem_of_lookup_2. }
  assert (delete (List.length before) (before ++ s :: after) = before ++ after) as ->.
  { clear. induction before as [|b before IH]; [done|]. simpl. by f_equal. }
  destruct (setItem_fault (storage w)) as [e|] eqn:Hset.
  - by rewrite (saveSnapshots_fault _ _ _ _ Hset).
  - destruct (saveSnapshots_ok mgr (before ++ after) w Hset) as (w2 & -> & Hitems & Hg & _).
    exists w2. split; [done|]. apply getSnapshots_after_save; [by rewrite Hg|].
    by rewrite Hitems, lookup_insert_eq.
Qed.

Lemma deleteSnapshot_present_witness :
  ∃ w', deleteSnapshot default_manager "a" twins_held = (Return true, w')
        ∧ getAllSnapshots default_manager w'
          = (Return (DocSnapshots ([] ++ [identified "b" 2; identified "a" 3])), w').
Proof.
  apply (deleteSnapshot_present default_manager "a" twins_held []
           [identified "b" 2; identified "a" 3] (identified "a" 1)).
  - by vm_compute.
  - intros old Hold. by apply elem_of_nil in Hold.
  - reflexivity.
Defined.


(** X4: a createSnapshot that returns adds one snapshot, or, with
    autoCleanup and a list that would exceed the limit, replaces the
    oldest one, so that the list keeps its length; a store within its
    limit stays within it.  Only one snapshot is ever dropped: a store
    above its limit stays above it. *)
Theorem createSnapshot_retention (mgr : FormSnapshotManager) (st : obj) (md : option obj)
    (w w' : World) (s : FormSnapshot) (l : list FormSnapshot) :
  getItem_fault (storage w) = None →
  (getAllSnapshots mgr w).1 = Return (DocSnapshots l) →
  createSnapshot mgr st md w = (Return s, w') →
  ∃ l', getAllSnapshots mgr w' = (Return (DocSnapshots l'), w')
        ∧ List.length l'
          = (if autoCleanup mgr && (maxSnapshots mgr <? Z.of_nat (List.length l) + 1)
             then List.length l else S (List.length l))
        ∧ (autoCleanup mgr = true → Z.of_nat (List.length l) ≤ maxSnapshots mgr →
           Z.of_nat (List.length l') ≤ maxSnapshots mgr)
        ∧ (l' = l ++ [s] ∨ l' = tail (l ++ [s])).
Proof.
  intros Hget Hheld Hcreate.
  destruct (createSnapshot_stored _ _ _ _ _ _ _ Hheld Hcreate) as (Hitem & Hg & _).
  rewrite Hget in Hg.
  exists (kept_snapshots mgr (l ++ [s])).
  split; [by apply getSnapshots_after_save|].
  rewrite (and_assoc _ _ (_ ∨ _)).
  split; [|unfold kept_snapshots; destruct (_ && _); auto].
  unfold kept_snapshots. rewrite length_app. simpl.
  replace (Z.of_nat (List.length l + 1)) with (Z.of_nat (List.length l) + 1) by lia.
  destruct (autoCleanup mgr); simpl.
  - destruct (maxSnapshots mgr <? Z.of_nat (List.length l) + 1) eqn:Hc.
    + assert (List.length (tail (l ++ [s])) = List.length l) as ->.
      { destruct l; simpl; [done|]. rewrite length_app. simpl. lia. }
      split; [done|]. intros _ Hle. done.
    + rewrite length_app. simpl. split; [lia|]. intros _ _. apply Z.ltb_ge in Hc. lia.
  - rewrite length_app. simpl. split; [lia|]. done.
Qed.

Lemma createSnapshot_retention_witness :
  ∃ s w' l',
    createSnapshot keep_three (email_state "a@b.c") None three_held = (Return s, w')
    ∧ getAllSnapshots keep_three w' = (Return (DocSnapshots l'), w')
    ∧ List.length l' = 3%nat.
Proof.
  exists (new_snapshot three_held (email_state "a@b.c") None),
         (createSnapshot keep_three (email_state "a@b.c") None three_held).2.
  destruct (createSnapshot_retention keep_three (email_state "a@b.c") None three_held
              (createSnapshot keep_three (email_state "a@b.c") None three_held).2
              (new_snapshot three_held (email_state "a@b.c") None)
              [snapshot_at 1 "1.0"; snapshot_at 2 "1.0"; snapshot_at 3 "1.0"]
              ltac:(by vm_compute) ltac:(by vm_compute) ltac:(by vm_compute))
    as (l' & Hget & Hlen & _).
  exists l'. split; [by vm_compute|]. split; [exact Hget|]. rewrite Hlen. by vm_compute.
Defined.



(** X6: getAllSnapshots never throws and never changes the storage; it
    either leaves the world as it is, or returns the empty list and
    logs one line that reports the read error. *)
Theorem getAllSnapshots_never_throws (mgr : FormSnapshotManager) (w : World) :
  ∃ d, (getAllSnapshots mgr w).1 = Return d
       ∧ storage (getAllSnapshots mgr w).2 = storage w
       ∧ ((getAllSnapshots mgr w).2 = w
          ∨ ∃ e, (getAllSnapshots mgr w).2 = logged w ("Error loading snapshots: " +:+ exn_to_string e)
                 ∧ d = DocSnapshots []).
Proof.
  unfold getAllSnapshots.
  pose proof (getSnapshots_catches mgr w) as Hcatch.
  pose proof (loadSnapshots_world mgr w) as Hworld.
  destruct (loadSnapshots mgr w) as [[d|e] w1]; simpl in Hworld; subst w1; rewrite Hcatch.
  - exists d. auto.
  - exists (DocSnapshots []). split; [done|]. split; [done|]. right. by exists e.
Qed.

(** X7: when the stored text parses to something that is not an array,
    getAllSnapshots returns it, and createSnapshot, getSnapshot,
    restoreSnapshot and deleteSnapshot throw a TypeError; createSnapshot
    has drawn its identifier and read the clock by then, the others
    leave the world as it is. *)
Theorem non_array_store_throws (mgr : FormSnapshotManager) (w : World) (st : obj)
    (md : option obj) (id : string) :
  (getAllSnapshots mgr w).1 = Return DocNonArray →
  (∃ message, createSnapshot mgr st md w = (Throw (JsError "TypeError" message), after_draws w))
  ∧ (∃ message, getSnapshot mgr id w = (Throw (JsError "TypeError" message), w))
  ∧ (∃ message, restoreSnapshot mgr id w = (Throw (JsError "TypeError" message), w))
  ∧ (∃ message, deleteSnapshot mgr id w = (Throw (JsError "TypeError" message), w)).
Proof.
  unfold getAllSnapshots. intros Hheld.
  assert (getSnapshots mgr w = (Return DocNonArray, w)) as Hload.
  { pose proof (getSnapshots_catches mgr w) as Hcatch.
    pose proof (loadSnapshots_world mgr w) as Hworld.
    destruct (loadSnapshots mgr w) as [[d|e] w1]; simpl in Hworld; subst w1;
      rewrite Hcatch in *; simpl in Hheld; by simplify_eq. }
  repeat split.
  - eexists. unfold createSnapshot, bind at 1. rewrite Hload. reflexivity.
  - eexists. unfold getSnapshot, bind. rewrite Hload. reflexivity.
  - eexists. unfold restoreSnapshot, getSnapshot, bind. rewrite Hload. reflexivity.
  - eexists. unfold deleteSnapshot, bind. rewrite Hload. reflexivity.
Qed.

Lemma non_array_store_throws_witness :
  (∃ message, createSnapshot default_manager (email_state "a@b.c") None object_stored
              = (Throw (JsError "TypeError" message), after_draws object_stored))
  ∧ (∃ message, getSnapshot default_manager "a" object_stored
                = (Throw (JsError "TypeError" message), object_stored))
  ∧ (∃ message, restoreSnapshot default_manager "a" object_stored
                = (Throw (JsError "TypeError" message), object_stored))
  ∧ (∃ message, deleteSnapshot default_manager "a" object_stored
                = (Throw (JsError "TypeError" message), object_stored)).
Proof.
  exact (non_array_store_throws default_manager object_stored (email_state "a@b.c") None "a"
           ltac:(by vm_compute)).
Defined.


(** ** Automatic snapshots *)

(** A loop that records [val k] under every key [k] that passes [test]:
    the recorded keys are distinct, they are the keys that pass, and
    each holds its own value. *)
Lemma conditional_set_fold {A} (test : string → bool) (val : string → A) (l : list string)
    (acc : list (string * A)) :
  let res := foldl (λ acc k, if test k then set acc k (val k) else acc) acc l in
  NoDup (keys acc) → (∀ k v, (k, v) ∈ acc → v = val k) →
  NoDup (keys res)
  ∧ (∀ k v, (k, v) ∈ res → v = val k)
  ∧ ∀ k, k ∈ keys res ↔ k ∈ keys acc ∨ (k ∈ l ∧ test k = true).
Proof.
  revert acc. induction l as [|x l IH]; intros acc; simpl; intros Hnd Hval.
  - split; [done|]. split; [done|]. intros k. rewrite elem_of_nil. tauto.
  - destruct (test x) eqn:Htest.
    + destruct (IH (set acc x (val x))) as (Hnd' & Hval' & Hkeys).
      { by apply NoDup_keys_set. }
      { intros k v [Hin|[-> ->]]%elem_of_set; [by apply Hval|done]. }
      split; [done|]. split; [done|]. intros k.
      rewrite Hkeys, elem_of_keys_set, elem_of_cons. split.
      * intros [[->|?]|[? ?]]; auto.
      * intros [?|[[->|?] ?]]; auto.
    + destruct (IH acc Hnd Hval) as (Hnd' & Hval' & Hkeys).
      split; [done|]. split; [done|]. intros k. rewrite Hkeys, elem_of_cons. split.
      * intros [?|[? ?]]; auto.
      * intros [?|[[->|?] ?]]; auto. congruence.
Qed.

Lemma auto_changes_spec (formConfig : SnapshotFormConfig) (currentState prevState : obj) :
  let changes := auto_changes formConfig currentState prevState in
  NoDup (keys changes)
  ∧ (∀ k c, (k, c) ∈ changes → c = {| from := get prevState k; to := get currentState k |})
  ∧ ∀ k, k ∈ keys changes
         ↔ k ∈ keys formConfig ∧ shallow_changed currentState prevState k = true.
Proof.
  destruct (conditional_set_fold (shallow_changed currentState prevState)
              (λ k, {| from := get prevState k; to := get currentState k |})
              (keys formConfig) []) as (Hnd & Hval & Hkeys).
  { apply NoDup_nil_2. }
  { intros k v Hin. by apply elem_of_nil in Hin. }
  split; [exact Hnd|]. split; [exact Hval|]. intros k.
  etrans; [apply Hkeys|]. unfold keys at 1. simpl. rewrite elem_of_nil. tauto.
Qed.

Lemma changes_props_spec (changes : StateChanges) (w : World) :
  ∃ props w', changes_props changes w = (Return props, w')
              ∧ storage w' = storage w ∧ console w' = console w
              ∧ ticks w' = ticks w ∧ drawn w' = drawn w
              ∧ clock w' = clock w ∧ uuids w' = uuids w
              ∧ Forall2 (λ entry prop,
                           prop.1 = entry.1
                           ∧ ∃ r, prop.2 = VObj r [("from", from entry.2); ("to", to entry.2)])
                        changes props.
Proof.
  revert w. induction changes as [|[k c] changes IH]; intros w; simpl.
  - exists [], w. unfold ret. repeat split; constructor.
  - unfold bind at 1, fresh_ref. simpl.
    set (w1 := {| storage := storage w; next_ref := S (next_ref w) |}).
    destruct (IH w1) as (props & w' & Hrun & Hst & Hco & Hti & Hdr & Hcl & Huu & Hall).
    unfold bind. rewrite Hrun. unfold ret.
    exists ((k, VObj (next_ref w) [("from", from c); ("to", to c)]) :: props), w'.
    repeat split; try done. constructor; [|done]. simpl. eauto.
Qed.

(** The test of the [some] over [Object.entries(formConfig)]. *)
Lemma hasImportantChanges_spec (formConfig : SnapshotFormConfig) (currentState prevState : obj) :
  existsb (λ '(key, config), important config && shallow_changed currentState prevState key)
          formConfig = false
  ↔ ∀ key c, (key, c) ∈ formConfig → important c = true →
             strict_eq (get currentState key) (get prevState key) = true.
Proof.
  split.
  - intros Hnone key c Hin Himp.
    destruct (strict_eq (get currentState key) (get prevState key)) eqn:Heq; [done|].
    exfalso. apply not_true_iff_false in Hnone. apply Hnone.
    apply existsb_exists. exists (key, c). split; [by apply list_elem_of_In|].
    unfold shallow_changed. by rewrite Himp, Heq.
  - intros Hall. apply not_true_iff_false. intros Hsome.
    apply existsb_exists in Hsome as ([key c] & Hin & Htest).
    apply andb_true_iff in Htest as [Himp Hch]. unfold shallow_changed in Hch.
    apply list_elem_of_In in Hin. by rewrite (Hall key c Hin Himp) in Hch.
Qed.

Lemma createAutoSnapshot_run (mgr : FormSnapshotManager) (formConfig : SnapshotFormConfig)
    (currentState prevState : obj) (w : World) :
  existsb (λ '(key, config), important config && shallow_changed currentState prevState key)
          formConfig = true →
  ∃ props w2,
    Forall2 (λ entry prop,
               prop.1 = entry.1
               ∧ ∃ r, prop.2 = VObj r [("from", from entry.2); ("to", to entry.2)])
            (auto_changes formConfig currentState prevState) props
    ∧ createAutoSnapshot mgr formConfig currentState prevState w
      = match createSnapshot mgr currentState
                (Some [("auto", VBool true); ("changes", VObj (next_ref w) props)]) w2 with
        | (Return s, w3) => (Return (Some s), w3)
        | (Throw e, w3) => (Throw e, w3)
        end.
Proof.
  intros Hsome. unfold createAutoSnapshot. rewrite Hsome.
  unfold bind at 1 2 3. unfold fresh_ref at 1.
  match goal with |- context [changes_props ?c ?w1] =>
    destruct (changes_props_spec c w1) as (props & w2 & -> & _ & _ & _ & _ & _ & _ & Hprops) end.
  exists props, w2. split; [done|].
  by destruct (createSnapshot mgr currentState _ w2) as [[s|e] w3].
Qed.

(** X8: createAutoSnapshot returns null exactly when every important
    field of the configuration holds strictly equal values in the two
    states, and then it leaves the world untouched: nothing is read,
    drawn or written. *)
Theorem createAutoSnapshot_skips (mgr : FormSnapshotManager) (formConfig : SnapshotFormConfig)
    (currentState prevState : obj) (w : World) :
  ((createAutoSnapshot mgr formConfig currentState prevState w).1 = Return None
   ↔ ∀ key c, (key, c) ∈ formConfig → important c = true →
              strict_eq (get currentState key) (get prevState key) = true)
  ∧ ((createAutoSnapshot mgr formConfig currentState prevState w).1 = Return None →
     createAutoSnapshot mgr formConfig currentState prevState w = (Return None, w)).
Proof.
  rewrite <- hasImportantChanges_spec.
  destruct (existsb _ formConfig) eqn:Hsome.
  - destruct (createAutoSnapshot_run mgr _ _ _ w Hsome) as (props & w2 & _ & ->).
    destruct (createSnapshot mgr currentState _ w2) as [[s|e] w3]; simpl;
      (split; [split; [done|by intros ?]|done]).
  - unfold createAutoSnapshot. rewrite Hsome. by unfold ret.
Qed.

(** X9: a snapshot that createAutoSnapshot returns holds the current
    state, and its metadata is [auto: true] with a [changes] object
    whose keys are the configured fields, important or not, whose
    values differ strictly, each once, with the previous and the
    current value; at least one of them is important. *)
Theorem createAutoSnapshot_records (mgr : FormSnapshotManager) (formConfig : SnapshotFormConfig)
    (currentState prevState : obj) (w : World) (s : FormSnapshot) :
  (createAutoSnapshot mgr formConfig currentState prevState w).1 = Return (Some s) →
  state s = currentState
  ∧ ∃ r props,
      metadata s = Some [("auto", VBool true); ("changes", VObj r props)]
      ∧ NoDup (keys props)
      ∧ (∀ k, k ∈ keys props
              ↔ k ∈ keys formConfig ∧ strict_eq (get currentState k) (get prevState k) = false)
      ∧ (∀ k v, (k, v) ∈ props →
                ∃ r', v = VObj r' [("from", get prevState k); ("to", get currentState k)])
      ∧ ∃ k c, (k, c) ∈ formConfig ∧ important c = true ∧ k ∈ keys props.
Proof.
  destruct (existsb (λ '(key, config),
                       important config && shallow_changed currentState prevState key)
                    formConfig) eqn:Hsome;
    [|unfold createAutoSnapshot; rewrite Hsome; by unfold ret].
  destruct (createAutoSnapshot_run mgr _ _ _ w Hsome) as (props & w2 & Hprops & ->).
  destruct (createSnapshot mgr currentState _ w2) as [[s'|e] w3] eqn:Hcreate; [|done].
  simpl. intros Hs. simplify_eq.
  assert ((createSnapshot mgr currentState
             (Some [("auto", VBool true); ("changes", VObj (next_ref w) props)]) w2).1 = Return s)
    as Hres by (by rewrite Hcreate).
  apply createSnapshot_result in Hres as (_ & Hst & Hmd).
  split; [done|]. exists (next_ref w), props. split; [done|].
  destruct (auto_changes_spec formConfig currentState prevState) as (Hnd & Hval & Hkeys).
  assert (keys props = keys (auto_changes formConfig currentState prevState)) as Hsame.
  { unfold keys. clear -Hprops. induction Hprops as [|e p l l' [Hk _] _ IH]; [done|].
    rewrite !fmap_cons. by f_equal. }
  assert (∀ k, k ∈ keys props
               ↔ k ∈ keys formConfig ∧ strict_eq (get currentState k) (get prevState k) = false)
    as Hmem.
  { intros k. rewrite Hsame, Hkeys. unfold shallow_changed. by rewrite negb_true_iff. }
  split; [by rewrite Hsame|]. split; [done|]. split.
  - intros k v Hin. apply list_elem_of_lookup in Hin as [i Hi].
    destruct (Forall2_lookup_r _ _ _ _ _ Hprops Hi) as ([k' c] & Hc & Hk & r' & Hv).
    simpl in *. subst k'. exists r'. rewrite Hv.
    apply list_elem_of_lookup_2 in Hc. apply Hval in Hc. by subst c.
  - apply existsb_exists in Hsome as ([k c] & Hin & Htest).
    apply andb_true_iff in Htest as [Himp Hch]. apply list_elem_of_In in Hin.
    exists k, c. split; [done|]. split; [done|]. apply Hmem. split.
    + unfold keys. apply list_elem_of_fmap. by exists (k, c).
    + unfold shallow_changed in Hch. by apply negb_true_iff.
Qed.

Lemma createAutoSnapshot_records_witness :
  ∃ s, (createAutoSnapshot default_manager contact_config (contact_state "new@b.c" "2")
          (contact_state "old@b.c" "1") quiet_world).1 = Return (Some s)
       ∧ state s = contact_state "new@b.c" "2"
       ∧ ∃ r props,
           metadata s = Some [("auto", VBool true); ("changes", VObj r props)]
           ∧ keys props = ["email"; "phone"].
Proof.
  eexists. split; [by vm_compute|].
  destruct (createAutoSnapshot_records default_manager contact_config
              (contact_state "new@b.c" "2") (contact_state "old@b.c" "1") quiet_world
              _ ltac:(by vm_compute)) as (Hstate & r & props & Hmd & _).
  split; [exact Hstate|]. exists r, props. split; [exact Hmd|].
  vm_compute in Hmd. injection Hmd as <- <-. by vm_compute.
Defined.


(** ** Snapshot differ: the four parts as comprehensions *)

Lemma set_fresh {A} (o : list (string * A)) (k : string) (v : A) :
  k ∉ keys o → set o k v = o ++ [(k, v)].
Proof.
  unfold keys. induction o as [|[k' v'] o IH]; simpl; intros Hk; [done|].
  apply not_elem_of_cons in Hk as [Hne Hk].
  destruct (decide (k' = k)) as [->|_]; [done|]. by rewrite IH.
Qed.

Lemma keys_app {A} (o1 o2 : list (string * A)) : keys (o1 ++ o2) = keys o1 ++ keys o2.
Proof. unfold keys. by rewrite fmap_app. Qed.

Lemma added_fold_filter (keys1 : list string) (state2 : obj) (l : list string) (acc : obj) :
  NoDup l → (∀ x, x ∈ l → x ∉ keys acc) →
  foldl (added_step keys1 state2) acc l
  = acc ++ ((λ k, (k, get state2 k)) <$> filter (λ k, k ∉ keys1) l).
Proof.
  revert acc. induction l as [|k l IH]; intros acc Hnd Hfresh; simpl.
  - by rewrite app_nil_r.
  - apply NoDup_cons in Hnd as [Hk Hnd].
    unfold added_step at 2. unfold includes.
    destruct (decide (k ∈ keys1)) as [Hin|Hout].
    + rewrite bool_decide_eq_true_2 by done. simpl.
      rewrite filter_cons_False by tauto. apply IH; [done|].
      intros x Hx. apply Hfresh. by right.
    + rewrite bool_decide_eq_false_2 by done. simpl.
      rewrite filter_cons_True by done.
      rewrite set_fresh by (apply Hfresh; by left).
      rewrite IH; [by rewrite <- app_assoc|done|].
      intros x Hx. rewrite keys_app. unfold keys at 2. simpl.
      rewrite elem_of_app, list_elem_of_singleton.
      intros [Hacc|Heq]; [|by subst x]. apply (Hfresh x); [by right|done].
Qed.

Lemma rest_fold_filter (keys2 : list string) (state1 state2 : obj) (l : list string)
    (r : obj) (m : StateChanges) (u : list string) :
  NoDup l → (∀ x, x ∈ l → (x ∉ keys r) ∧ (x ∉ keys m)) →
  foldl (rest_step keys2 state1 state2) (r, m, u) l
  = (r ++ ((λ k, (k, get state1 k)) <$> filter (λ k, k ∉ keys2) l),
     m ++ ((λ k, (k, {| from := get state1 k; to := get state2 k |}))
             <$> filter (λ k, k ∈ keys2
                              ∧ serialized_changed (get state1 k) (get state2 k) = true) l),
     u ++ filter (λ k, k ∈ keys2
                       ∧ serialized_changed (get state1 k) (get state2 k) = false) l).
Proof.
  revert r m u. induction l as [|k l IH]; intros r m u Hnd Hfresh; simpl.
  - by rewrite !app_nil_r.
  - apply NoDup_cons in Hnd as [Hk Hnd].
    destruct (Hfresh k) as [Hkr Hkm]; [by left|].
    unfold rest_step at 2. unfold includes.
    destruct (decide (k ∈ keys2)) as [Hin|Hout].
    + rewrite bool_decide_eq_true_2 by done. simpl.
      rewrite (filter_cons_False (λ k, k ∉ keys2)) by tauto.
      destruct (serialized_changed (get state1 k) (get state2 k)) eqn:Hch.
      * rewrite (filter_cons_True (λ k, k ∈ keys2 ∧ _ = true)) by done.
        rewrite (filter_cons_False (λ k, k ∈ keys2 ∧ _ = false)) by (rewrite Hch; naive_solver).
        rewrite set_fresh by done. rewrite IH; [by rewrite <- app_assoc|done|].
        intros x Hx. destruct (Hfresh x) as [Hxr Hxm]; [by right|]. split; [done|].
        rewrite keys_app. unfold keys at 2. simpl.
        rewrite elem_of_app, list_elem_of_singleton. intros [?|?]; [done|by subst x].
      * rewrite (filter_cons_False (λ k, k ∈ keys2 ∧ _ = true)) by (rewrite Hch; naive_solver).
        rewrite (filter_cons_True (λ k, k ∈ keys2 ∧ _ = false)) by done.
        rewrite IH; [by rewrite <- app_assoc|done|].
        intros x Hx. apply Hfresh. by right.
    + rewrite bool_decide_eq_false_2 by done. simpl.
      rewrite (filter_cons_True (λ k, k ∉ keys2)) by done.
      rewrite (filter_cons_False (λ k, k ∈ keys2 ∧ _ = true)) by tauto.
      rewrite (filter_cons_False (λ k, k ∈ keys2 ∧ _ = false)) by tauto.
      rewrite set_fresh by done. rewrite IH; [by rewrite <- app_assoc|done|].
      intros x Hx. destruct (Hfresh x) as [Hxr Hxm]; [by right|]. split; [|done].
      rewrite keys_app. unfold keys at 2. simpl.
      rewrite elem_of_app, list_elem_of_singleton. intros [?|?]; [done|by subst x].
Qed.

(** The loops of compareSnapshots, one part at a time. *)
Lemma compareSnapshots_parts (a b : FormSnapshot) :
  let keys1 := new_Set (keys (state a)) in
  let keys2 := new_Set (keys (state b)) in
  let changed k := serialized_changed (get (state a) k) (get (state b) k) in
  added (compareSnapshots a b)
  = ((λ k, (k, get (state b) k)) <$> filter (λ k, k ∉ keys1) keys2)
  ∧ removed (compareSnapshots a b)
    = ((λ k, (k, get (state a) k)) <$> filter (λ k, k ∉ keys2) keys1)
  ∧ modified (compareSnapshots a b)
    = ((λ k, (k, {| from := get (state a) k; to := get (state b) k |}))
         <$> filter (λ k, k ∈ keys2 ∧ changed k = true) keys1)
  ∧ unchanged (compareSnapshots a b) = filter (λ k, k ∈ keys2 ∧ changed k = false) keys1.
Proof.
  intros keys1 keys2 changed. rewrite compareSnapshots_unfold. cbv zeta.
  fold keys1 keys2.
  rewrite rest_fold_filter; [|apply NoDup_new_Set|by intros x _; split; apply not_elem_of_nil].
  rewrite added_fold_filter; [|apply NoDup_new_Set|by intros x _; apply not_elem_of_nil].
  done.
Qed.


(** X11: comparing in the other direction swaps [added] with [removed]
    and [from] with [to] in every modified entry, and keeps the
    unchanged keys up to their order. *)
Theorem compareSnapshots_swap (a b : FormSnapshot) :
  added (compareSnapshots a b) = removed (compareSnapshots b a)
  ∧ removed (compareSnapshots a b) = added (compareSnapshots b a)
  ∧ (∀ k f t, (k, {| from := f; to := t |}) ∈ modified (compareSnapshots a b)
              ↔ (k, {| from := t; to := f |}) ∈ modified (compareSnapshots b a))
  ∧ unchanged (compareSnapshots a b) ≡ₚ unchanged (compareSnapshots b a).
Proof.
  assert (∀ x y, serialized_changed x y = serialized_changed y x) as Hsym.
  { intros x y. unfold serialized_changed. apply bool_decide_ext. split; intros H ?; by apply H. }
  destruct (compareSnapshots_parts a b) as (-> & -> & -> & ->).
  destruct (compareSnapshots_parts b a) as (-> & -> & -> & ->).
  split; [done|]. split; [done|]. split.
  - intros k f t. rewrite !list_elem_of_fmap. split.
    + intros (x & [= -> -> ->] & Hx). exists x. split; [done|].
      apply list_elem_of_filter in Hx as [[Hb Hch] Ha].
      apply list_elem_of_filter. rewrite Hsym. tauto.
    + intros (x & Heq & Hx). injection Heq as -> -> ->. exists x. split; [done|].
      apply list_elem_of_filter in Hx as [[Hb Hch] Ha].
      apply list_elem_of_filter. rewrite Hsym. tauto.
  - apply NoDup_Permutation.
    + apply NoDup_filter, NoDup_new_Set.
    + apply NoDup_filter, NoDup_new_Set.
    + intros k. rewrite !list_elem_of_filter, (Hsym (get (state b) k)). tauto.
Qed.

(** ** The history of one field *)

Arguments differences_step : simpl never.

Lemma strict_eq_undefined (v : value) : strict_eq v VUndefined = true ↔ v = VUndefined.
Proof. destruct v; simpl; split; intros H; try done. Qed.

Lemma no_repeat_snoc (l : list ValueAt) (e : ValueAt) :
  no_repeat l →
  (∀ e0, last l = Some e0 →
         at_value e0 = VUndefined ∨ stringify (at_value e0) ≠ stringify (at_value e)) →
  no_repeat (l ++ [e]).
Proof.
  induction l as [|e1 l IH]; intros Hl Hlast; [done|].
  destruct l as [|e2 l].
  - simpl. split; [|done]. by apply Hlast.
  - destruct Hl as [H12 Hl]. change (no_repeat (e1 :: e2 :: (l ++ [e]))).
    split; [done|]. apply IH; [done|]. intros e0 He0. apply Hlast. by rewrite last_cons_cons.
Qed.

(** The loop from any point on: the entries it adds are taken in order
    from the snapshots it visits, the remembered value is that of the
    last entry, and no entry repeats its predecessor. *)
Lemma differences_fold_spec (field : string) (l : list FormSnapshot)
    (changes : list ValueAt) (lastValue : value) :
  let res := foldl (differences_step field) (changes, lastValue) l in
  no_repeat changes →
  (∀ e0, last changes = Some e0 → at_value e0 = lastValue) →
  (changes = [] → lastValue = VUndefined) →
  no_repeat res.1
  ∧ ∃ new, res.1 = changes ++ new ∧ new `sublist_of` (value_at field <$> l).
Proof.
  revert changes lastValue. induction l as [|s l IH]; intros changes lastValue; simpl;
    intros Hnr Hlast Hempty.
  - split; [done|]. exists []. by rewrite app_nil_r.
  - destruct (strict_eq lastValue VUndefined || serialized_changed lastValue (get (state s) field))
      eqn:Htest.
    + assert (differences_step field (changes, lastValue) s
              = (changes ++ [value_at field s], get (state s) field)) as ->.
      { unfold differences_step. by rewrite Htest. }
      destruct (IH (changes ++ [value_at field s]) (get (state s) field)) as (Hnr' & new & Hres & Hsub).
      * apply no_repeat_snoc; [done|]. intros e0 He0. rewrite (Hlast e0 He0). simpl.
        apply orb_true_iff in Htest as [Hu|Hc].
        -- left. by apply strict_eq_undefined.
        -- right. by apply serialized_changed_true.
      * intros e0. rewrite last_snoc. by intros [= <-].
      * intros Hnil. by apply app_nil in Hnil as [_ ?].
      * split; [exact Hnr'|]. exists (value_at field s :: new).
        split; [by rewrite Hres, <- app_assoc|]. by apply sublist_skip.
    + assert (differences_step field (changes, lastValue) s = (changes, lastValue)) as ->.
      { unfold differences_step. by rewrite Htest. }
      destruct (IH changes lastValue Hnr Hlast Hempty) as (Hnr' & new & Hres & Hsub).
      split; [exact Hnr'|]. exists new. split; [done|]. by apply sublist_cons.
Qed.

Lemma sort_insert_Permutation {A} (cmp : A → A → Z) (x : A) (l : list A) :
  sort_insert cmp x l ≡ₚ x :: l.
Proof.
  induction l as [|y l IH]; simpl; [done|].
  destruct (cmp x y <=? 0); [done|]. rewrite IH. apply Permutation_swap.
Qed.

Lemma sort_Permutation {A} (cmp : A → A → Z) (l : list A) : sort cmp l ≡ₚ l.
Proof.
  unfold sort. induction l as [|x l IH]; simpl; [done|].
  by rewrite sort_insert_Permutation, IH.
Qed.

(** X12: findSnapshotDifferences leaves the given array sorted by
    timestamp.  The entries it returns are taken in that order from the
    snapshots, start with the earliest snapshot, and no entry has the
    serialization of the entry before it, unless that entry's value is
    [undefined]. *)
Theorem findSnapshotDifferences_history (snapshots : list FormSnapshot) (field : string) :
  let sorted := (findSnapshotDifferences snapshots field).1 in
  let changes := (findSnapshotDifferences snapshots field).2 in
  sorted ≡ₚ snapshots
  ∧ chronological sorted
  ∧ changes `sublist_of` (value_at field <$> sorted)
  ∧ head changes = value_at field <$> head sorted
  ∧ no_repeat changes.
Proof.
  unfold findSnapshotDifferences. cbn [fst snd].
  set (sorted := sort _ snapshots).
  split; [apply sort_Permutation|]. split; [apply sort_chronological|].
  destruct (differences_fold_spec field sorted [] VUndefined) as (Hnr & new & Hres & Hsub);
    try done.
  rewrite Hres. simpl. split; [done|]. split; [|by rewrite Hres in Hnr].
  destruct sorted as [|s rest]; simpl.
  - simpl in Hres. by rewrite <- Hres.
  - simpl in Hres.
    assert (differences_step field ([], VUndefined) s = ([value_at field s], get (state s) field))
      as Hstep by done.
    rewrite Hstep in Hres.
    destruct (differences_fold_spec field rest [value_at field s] (get (state s) field))
      as (_ & new' & Hres' & _); try done.
    { intros e0 [= <-]. done. }
    rewrite Hres in Hres'. by rewrite Hres'.
Qed.

(** X13: for a field that is [undefined] in every snapshot,
    findSnapshotDifferences returns one entry per snapshot; for a field
    whose value serializes alike in every snapshot and is not
    [undefined], it returns the entry of the earliest snapshot only. *)
Theorem findSnapshotDifferences_edges (snapshots : list FormSnapshot) (field : string) :
  let sorted := (findSnapshotDifferences snapshots field).1 in
  let changes := (findSnapshotDifferences snapshots field).2 in
  ((∀ s, s ∈ snapshots → get (state s) field = VUndefined) →
   changes = value_at field <$> sorted)
  ∧ (∀ v, v ≠ VUndefined →
          (∀ s, s ∈ snapshots → stringify (get (state s) field) = stringify v) →
          changes = value_at field <$> option_list (head sorted)).
Proof.
  unfold findSnapshotDifferences. cbn [fst snd].
  set (sorted := sort _ snapshots).
  assert (∀ s, s ∈ sorted → s ∈ snapshots) as Hin.
  { intros s. subst sorted. by rewrite elem_of_sort. }
  clearbody sorted. split.
  - intros Hundef.
    assert (∀ l acc, (∀ s, s ∈ l → get (state s) field = VUndefined) →
                     (foldl (differences_step field) (acc, VUndefined) l).1
                     = acc ++ (value_at field <$> l)) as Hfold.
    { induction l as [|s l IH]; intros acc Hl; simpl; [by rewrite app_nil_r|].
      assert (differences_step field (acc, VUndefined) s
              = (acc ++ [value_at field s], VUndefined)) as ->.
      { unfold differences_step, value_at. simpl. by rewrite (Hl s) by (by left). }
      rewrite IH; [by rewrite <- app_assoc|]. intros s' Hs'. apply Hl. by right. }
    apply (Hfold sorted []). intros s Hs. apply Hundef. by apply Hin.
  - intros v Hv Hconst.
    assert (∀ l acc last, last ≠ VUndefined → stringify last = stringify v →
                     (∀ s, s ∈ l → stringify (get (state s) field) = stringify v) →
                     (foldl (differences_step field) (acc, last) l).1 = acc) as Hfold.
    { induction l as [|s l IH]; intros acc last Hlast Hser Hl; simpl; [done|].
      assert (differences_step field (acc, last) s = (acc, last)) as ->.
      { unfold differences_step.
        assert (strict_eq last VUndefined = false) as ->.
        { apply not_true_iff_false. by rewrite strict_eq_undefined. }
        assert (serialized_changed last (get (state s) field) = false) as ->; [|done].
        apply not_true_iff_false. rewrite serialized_changed_true.
        rewrite Hser, (Hl s) by (by left). tauto. }
      apply IH; [done|done|]. intros s' Hs'. apply Hl. by right. }
    destruct sorted as [|s rest]; [done|]. simpl.
    assert (differences_step field ([], VUndefined) s = ([value_at field s], get (state s) field))
      as -> by done.
    assert (stringify (get (state s) field) = stringify v) as Hs.
    { apply Hconst, Hin. by left. }
    apply Hfold; [|done|].
    + intros Hu. rewrite Hu in Hs. destruct (ser_defined "" "" v Hv) as [t Ht].
      unfold stringify in Hs. rewrite Ht in Hs. done.
    + intros s' Hs'. apply Hconst, Hin. by right.
Qed.

(** ** Snapshot validator: what makes a snapshot valid *)

(** The [switch] on the configured type, by equality tests. *)
Lemma type_switch {T} (t : option string) (a b c d e : T) :
  match t with
  | Some "string" => a
  | Some "number" => b
  | Some "boolean" => c
  | Some "array" => d
  | _ => e
  end
  = if decide (t = Some "string") then a
    else if decide (t = Some "number") then b
    else if decide (t = Some "boolean") then c
    else if decide (t = Some "array") then d
    else e.
Proof.
  destruct t as [t|]; [|reflexivity].
  repeat (let x := fresh "x" in
          destruct t as [|x t]; [reflexivity|];
          destruct x as [b0 b1 b2 b3 b4 b5 b6 b7];
          destruct b0; try reflexivity; destruct b1; try reflexivity;
          destruct b2; try reflexivity; destruct b3; try reflexivity;
          destruct b4; try reflexivity; destruct b5; try reflexivity;
          destruct b6; try reflexivity; destruct b7; try reflexivity).
  all: destruct t; reflexivity.
Qed.

Lemma validate_field_spec (st : value) (errors : list SnapshotValidationError)
    (fld : string) (c : SnapshotFieldConfig) :
  is_nullish st = false →
  ∃ v new,
    get_property st fld = Return v
    ∧ validate_field st errors (fld, c) = Return (errors ++ new)
    ∧ (new = [] ↔ field_passes c v = true)
    ∧ (List.length new ≤ 1)%nat
    ∧ ∀ e, e ∈ new → field e = Some fld ∧ (code e = "REQUIRED_FIELD" ∨ code e = "INVALID_TYPE").
Proof.
  intros Hst. destruct (get_property_returns st fld Hst) as [v Hv].
  exists v. unfold validate_field. rewrite Hv. cbn [obind]. unfold field_passes, type_matches.
  rewrite !type_switch.
  assert (∀ (b : bool) e0,
            field e0 = Some fld → code e0 = "REQUIRED_FIELD" ∨ code e0 = "INVALID_TYPE" →
            ∃ new, (if b then errors ++ [e0] else errors) = errors ++ new
                   ∧ (new = [] ↔ negb b = true)
                   ∧ (List.length new ≤ 1)%nat
                   ∧ ∀ e, e ∈ new →
                          field e = Some fld
                          ∧ (code e = "REQUIRED_FIELD" ∨ code e = "INVALID_TYPE")) as Hcase.
  { intros [|] e0 Hf Hc.
    - exists [e0]. split; [done|]. split; [done|]. split; [simpl; lia|].
      intros e ->%list_elem_of_singleton. auto.
    - exists []. rewrite app_nil_r. split; [done|]. split; [done|]. split; [simpl; lia|].
      intros e He. by apply elem_of_nil in He. }
  destruct (is_nullish v) eqn:Hnull; cbn [negb].
  - rewrite andb_true_r.
    destruct (Hcase (required c)
                {| field := Some fld;
                   message := "Required field " +:+ dq +:+ fld +:+ dq +:+ " is missing";
                   code := "REQUIRED_FIELD" |}) as (new & -> & Hrest); [done|by left|].
    exists new. split; [done|]. split; [done|]. exact Hrest.
  - rewrite andb_false_r.
    assert (∀ b : bool, negb (bool_decide (b = true)) = negb b) as Hb by (by intros []).
    destruct (decide (type c = Some "string")); [|destruct (decide (type c = Some "number"));
      [|destruct (decide (type c = Some "boolean")); [|destruct (decide (type c = Some "array"))]]].
    + destruct (Hcase (bool_decide (typeof v ≠ TyString)) (type_error fld "a" "string"))
        as (new & -> & Hiff & Hrest); [done|by right|].
      exists new. split; [done|]. split; [done|]. split; [|done].
      rewrite Hiff, negb_true_iff, bool_decide_eq_false, bool_decide_eq_true.
      split; [apply dec_stable|by intros ??].
    + destruct (Hcase (bool_decide (typeof v ≠ TyNumber)) (type_error fld "a" "number"))
        as (new & -> & Hiff & Hrest); [done|by right|].
      exists new. split; [done|]. split; [done|]. split; [|done].
      rewrite Hiff, negb_true_iff, bool_decide_eq_false, bool_decide_eq_true.
      split; [apply dec_stable|by intros ??].
    + destruct (Hcase (bool_decide (typeof v ≠ TyBoolean)) (type_error fld "a" "boolean"))
        as (new & -> & Hiff & Hrest); [done|by right|].
      exists new. split; [done|]. split; [done|]. split; [|done].
      rewrite Hiff, negb_true_iff, bool_decide_eq_false, bool_decide_eq_true.
      split; [apply dec_stable|by intros ??].
    + destruct (Hcase (negb (isArray v)) (type_error fld "an" "array"))
        as (new & -> & Hiff & Hrest); [done|by right|].
      exists new. split; [done|]. split; [done|]. split; [|done].
      by rewrite Hiff, negb_involutive.
    + exists []. rewrite app_nil_r. split; [done|]. split; [done|]. split; [done|].
      split; [simpl; lia|]. intros e He. by apply elem_of_nil in He.
Qed.

Lemma validate_fields_spec (st : value) (config : SnapshotFormConfig)
    (errors : list SnapshotValidationError) :
  is_nullish st = false →
  ∃ new,
    validate_fields st errors config = Return (errors ++ new)
    ∧ (new = [] ↔ ∀ fld c v, (fld, c) ∈ config → get_property st fld = Return v →
                             field_passes c v = true)
    ∧ (List.length new ≤ List.length config)%nat
    ∧ ∀ e, e ∈ new → ∃ fld, field e = Some fld ∧ fld ∈ keys config
                            ∧ (code e = "REQUIRED_FIELD" ∨ code e = "INVALID_TYPE").
Proof.
  intros Hst. revert errors. induction config as [|[fld c] config IH]; intros errors.
  - exists []. simpl. rewrite app_nil_r. split; [done|]. split.
    + split; [|done]. intros _ fld c v Hin. by apply elem_of_nil in Hin.
    + split; [done|]. intros e He. by apply elem_of_nil in He.
  - cbn [validate_fields].
    destruct (validate_field_spec st errors fld c Hst) as (v & new1 & Hv & -> & Hok1 & Hlen1 & Hf1).
    cbn [obind]. destruct (IH (errors ++ new1)) as (new2 & -> & Hok2 & Hlen2 & Hf2).
    exists (new1 ++ new2). split; [by rewrite app_assoc|]. split; [|split].
    + split.
      * intros [Hn1 Hn2]%app_eq_nil fld' c' v' [Heq|Hin]%elem_of_cons Hv'.
        -- injection Heq as -> ->. rewrite Hv in Hv'. injection Hv' as <-.
           by apply (proj1 Hok1 Hn1).
        -- by apply (proj1 Hok2 Hn2 fld' c' v').
      * intros Hall. assert (new1 = []) as ->.
        { apply Hok1. apply (Hall fld c v); [by left|done]. }
        assert (new2 = []) as ->; [|done].
        apply Hok2. intros fld' c' v' Hin. apply Hall. by right.
    + rewrite length_app. simpl. lia.
    + intros e [He|He]%elem_of_app.
      * exists fld. destruct (Hf1 e He) as [? ?]. split; [done|]. split; [|done].
        unfold keys. simpl. by left.
      * destruct (Hf2 e He) as (fld' & ? & ? & ?). exists fld'. split; [done|]. split; [|done].
        unfold keys in *. simpl. by right.
Qed.

(** X14: a state that is not an object yields the single error
    INVALID_STATE, whatever the configuration and the metadata.
    Otherwise the snapshot is valid exactly when every configured field
    is present if required and of the configured type if present, and
    the metadata is falsy or an object; there is at most one error per
    configured field and one for the metadata, and every error that
    names a field names a configured one. *)
Theorem validateSnapshot_verdict (snap : RawSnapshot) (config : SnapshotFormConfig) :
  ∃ result,
    validateSnapshot snap config = Return result
    ∧ if state_accepted (raw_state snap) then
        (isValid result = true
         ↔ (∀ fld c v, (fld, c) ∈ config → get_property (raw_state snap) fld = Return v →
                       field_passes c v = true)
           ∧ (truthy (raw_metadata snap) = false ∨ typeof (raw_metadata snap) = TyObject))
        ∧ (List.length (errors result) ≤ List.length config + 1)%nat
        ∧ ∀ e, e ∈ errors result →
               match field e with
               | Some fld =>
                   fld ∈ keys config ∧ (code e = "REQUIRED_FIELD" ∨ code e = "INVALID_TYPE")
               | None => code e = "INVALID_METADATA"
               end
      else
        result = {| isValid := false;
                    errors := [{| field := None; message := "Invalid snapshot state structure";
                                  code := "INVALID_STATE" |}] |}.
Proof.
  unfold validateSnapshot, state_accepted.
  destruct (truthy (raw_state snap)) eqn:Htruthy; cbn [negb orb andb]; [|eauto].
  destruct (decide (typeof (raw_state snap) = TyObject)) as [Hobj|Hobj].
  2:{ rewrite (bool_decide_eq_true_2 (_ ≠ _)), (bool_decide_eq_false_2 (_ = _)) by done. eauto. }
  rewrite (bool_decide_eq_false_2 (_ ≠ _)), (bool_decide_eq_true_2 (_ = _)) by tauto.
  assert (is_nullish (raw_state snap) = false) as Hst by (by destruct (raw_state snap)).
  destruct (validate_fields_spec (raw_state snap) config [] Hst)
    as (new & -> & Hok & Hlen & Hfields).
  cbn [obind app]. eexists. split; [reflexivity|]. cbn [isValid errors].
  destruct (truthy (raw_metadata snap)) eqn:Hmd; cbn [andb].
  - destruct (decide (typeof (raw_metadata snap) = TyObject)) as [Hmo|Hmo].
    + rewrite bool_decide_eq_false_2 by tauto. split; [|split].
      * rewrite Nat.eqb_eq, length_zero_iff_nil, Hok. tauto.
      * lia.
      * intros e He. destruct (Hfields e He) as (fld & -> & ? & ?). done.
    + rewrite bool_decide_eq_true_2 by done. split; [|split].
      * rewrite Nat.eqb_eq, length_app. simpl. split; [lia|]. intros [_ [?|?]]; done.
      * rewrite length_app. simpl. lia.
      * intros e [He| ->%list_elem_of_singleton]%elem_of_app; [|done].
        destruct (Hfields e He) as (fld & -> & ? & ?). done.
  - split; [|split].
    + rewrite Nat.eqb_eq, length_zero_iff_nil, Hok. tauto.
    + lia.
    + intros e He. destruct (Hfields e He) as (fld & -> & ? & ?). done.
Qed.

(** X15: the validator reads only the configured fields: two object
    states that agree on them get the same result. *)
Theorem validateSnapshot_configured_fields_only (r1 r2 : nat) (props1 props2 : obj)
    (md : value) (config : SnapshotFormConfig) :
  (∀ k, k ∈ keys config → get props1 k = get props2 k) →
  validateSnapshot {| raw_state := VObj r1 props1; raw_metadata := md |} config
  = validateSnapshot {| raw_state := VObj r2 props2; raw_metadata := md |} config.
Proof.
  intros Hagree. unfold validateSnapshot. cbn [raw_state raw_metadata truthy typeof negb orb].
  rewrite !bool_decide_eq_false_2 by (by intros H).
  assert (∀ errors, validate_fields (VObj r1 props1) errors config
                    = validate_fields (VObj r2 props2) errors config) as ->; [|done].
  induction config as [|[fld c] config IH]; intros errors; [done|].
  cbn [validate_fields validate_field get_property obind].
  rewrite (Hagree fld) by (unfold keys; simpl; by left).
  apply IH. intros k Hk. apply Hagree. unfold keys in *. simpl. by right.
Qed.

Lemma validateSnapshot_configured_fields_only_witness :
  validateSnapshot {| raw_state := VObj 1 [("age", VNum 30); ("nick", VStr "x")];
                      raw_metadata := VUndefined |} age_name_config
  = validateSnapshot {| raw_state := VObj 2 [("age", VNum 30)];
                        raw_metadata := VUndefined |} age_name_config.
Proof.
  apply (validateSnapshot_configured_fields_only 1 2 [("age", VNum 30); ("nick", VStr "x")]
           [("age", VNum 30)] VUndefined age_name_config).
  apply Forall_forall. by repeat constructor.
Defined.


(** ** Version order and the migration list *)

Lemma compareVersions_zero (v1 v2 : string) :
  compareVersions v1 v2 = 0 ↔ ∀ j, segment v1 j = segment v2 j.
Proof.
  destruct (compareVersions_first_difference v1 v2) as [[H0 Hall]|(k & Hbefore & Hne & Hres)].
  - tauto.
  - split; [lia|]. intros Hall. by specialize (Hall k).
Qed.

Lemma compareVersions_negative (v1 v2 : string) :
  compareVersions v1 v2 < 0
  ↔ ∃ k, (∀ j, (j < k)%nat → segment v1 j = segment v2 j) ∧ segment v1 k < segment v2 k.
Proof.
  destruct (compareVersions_first_difference v1 v2) as [[H0 Hall]|(k & Hbefore & Hne & Hres)].
  - split; [lia|]. intros (k & _ & Hlt). specialize (Hall k). lia.
  - split.
    + intros Hlt. exists k. split; [done|]. lia.
    + intros (k' & Hbefore' & Hlt).
      destruct (Nat.lt_trichotomy k k') as [Hk|[->|Hk]].
      * specialize (Hbefore' k Hk). done.
      * lia.
      * specialize (Hbefore k' Hk). lia.
Qed.

Lemma compareVersions_opp (v1 v2 : string) : compareVersions v2 v1 = - compareVersions v1 v2.
Proof.
  destruct (compareVersions_first_difference v1 v2) as [[H0 Hall]|(k & Hbefore & Hne & Hres)];
    destruct (compareVersions_first_difference v2 v1)
      as [[H0' Hall']|(k' & Hbefore' & Hne' & Hres')].
  - lia.
  - by specialize (Hall k').
  - by specialize (Hall' k).
  - destruct (Nat.lt_trichotomy k k') as [Hk|[->|Hk]].
    + by specialize (Hbefore' k Hk).
    + lia.
    + by specialize (Hbefore k' Hk).
Qed.

Lemma compareVersions_trans (v1 v2 v3 : string) :
  compareVersions v1 v2 ≤ 0 → compareVersions v2 v3 ≤ 0 → compareVersions v1 v3 ≤ 0.
Proof.
  intros H12 H23.
  destruct (decide (compareVersions v1 v2 = 0)) as [E12|N12].
  { rewrite compareVersions_zero in E12.
    destruct (decide (compareVersions v2 v3 = 0)) as [E23|N23].
    - assert (compareVersions v1 v3 = 0) as ->; [|done].
      apply compareVersions_zero. intros j. by rewrite E12, <- (proj1 (compareVersions_zero _ _) E23).
    - assert (compareVersions v2 v3 < 0) as (k & Hb & Hlt)%compareVersions_negative by lia.
      apply Z.lt_le_incl, compareVersions_negative. exists k. split.
      + intros j Hj. rewrite E12. by apply Hb.
      + by rewrite E12. }
  assert (compareVersions v1 v2 < 0) as (k & Hb & Hlt)%compareVersions_negative by lia.
  destruct (decide (compareVersions v2 v3 = 0)) as [E23|N23].
  { rewrite compareVersions_zero in E23.
    apply Z.lt_le_incl, compareVersions_negative. exists k. split.
    - intros j Hj. rewrite <- E23. by apply Hb.
    - by rewrite <- E23. }
  assert (compareVersions v2 v3 < 0) as (k' & Hb' & Hlt')%compareVersions_negative by lia.
  apply Z.lt_le_incl, compareVersions_negative.
  destruct (Nat.lt_trichotomy k k') as [Hk|[->|Hk]].
  - exists k. split.
    + intros j Hj. rewrite (Hb j Hj). apply Hb'. lia.
    + rewrite <- (Hb' k Hk). done.
  - exists k'. split.
    + intros j Hj. rewrite (Hb j Hj). by apply Hb'.
    + lia.
  - exists k'. split.
    + intros j Hj. rewrite (Hb j) by lia. by apply Hb'.
    + rewrite (Hb k' Hk). done.
Qed.

(** X16: the version comparator is a total preorder on version
    strings: swapping its arguments negates the result, [≤ 0] is
    transitive, and it returns 0 exactly for versions with the same
    numeric segments, a missing or non-numeric segment counting as 0. *)
Theorem compareVersions_total_preorder :
  (∀ v1 v2, compareVersions v2 v1 = - compareVersions v1 v2)
  ∧ (∀ v1 v2 v3, compareVersions v1 v2 ≤ 0 → compareVersions v2 v3 ≤ 0 →
                 compareVersions v1 v3 ≤ 0)
  ∧ (∀ v1 v2, compareVersions v1 v2 = 0 ↔ ∀ j, segment v1 j = segment v2 j).
Proof.
  split; [exact compareVersions_opp|]. split; [exact compareVersions_trans|].
  exact compareVersions_zero.
Qed.

(** Sorting with a comparator that is a total preorder. *)
Section SortedBy.
Context {A : Type} (cmp : A → A → Z).
Hypothesis cmp_opp : ∀ a b, cmp b a = - cmp a b.
Hypothesis cmp_trans : ∀ a b c, cmp a b ≤ 0 → cmp b c ≤ 0 → cmp a c ≤ 0.

Lemma sort_insert_sorted (x : A) (l : list A) :
  StronglySorted (λ a b, cmp a b ≤ 0) l →
  StronglySorted (λ a b, cmp a b ≤ 0) (sort_insert cmp x l).
Proof.
  induction l as [|y l IH]; intros Hl; simpl.
  - repeat constructor.
  - apply StronglySorted_cons in Hl as [Hy Hl].
    destruct (cmp x y <=? 0) eqn:Hcmp.
    + apply Z.leb_le in Hcmp. apply StronglySorted_cons. split.
      * constructor; [done|]. eapply Forall_impl; [exact Hy|]. simpl. intros z Hz.
        by apply (cmp_trans x y z).
      * by apply StronglySorted_cons.
    + apply Z.leb_gt in Hcmp. apply StronglySorted_cons. split; [|by apply IH].
      apply Forall_forall. intros z Hz. apply elem_of_sort_insert in Hz as [->|Hz].
      * rewrite cmp_opp. lia.
      * rewrite Forall_forall in Hy. by apply Hy.
Qed.

Lemma sort_sorted (l : list A) : StronglySorted (λ a b, cmp a b ≤ 0) (sort cmp l).
Proof.
  unfold sort. induction l as [|x l IH]; simpl; [constructor|].
  by apply sort_insert_sorted.
Qed.

(** A sorted list is left as it is. *)
Lemma sort_sorted_id (l : list A) :
  StronglySorted (λ a b, cmp a b ≤ 0) l → sort cmp l = l.
Proof.
  unfold sort. induction l as [|x l IH]; intros Hl; simpl; [done|].
  apply StronglySorted_cons in Hl as [Hx Hl]. rewrite IH by done.
  destruct l as [|y l]; [done|]. simpl.
  apply Forall_cons in Hx as [Hxy _]. by rewrite (proj2 (Z.leb_le _ _) Hxy).
Qed.

End SortedBy.

(** X17: whatever list the manager held, after addMigration it holds
    the same migrations and the new one, ordered by version: no
    migration is followed by one of a smaller version.  The strict flag
    is kept. *)
Theorem addMigration_sorted (mgr : SnapshotMigrationManager) (migration : Migration) :
  migrations (addMigration mgr migration) ≡ₚ migrations mgr ++ [migration]
  ∧ StronglySorted (λ a b, compareVersions (m_version a) (m_version b) ≤ 0)
      (migrations (addMigration mgr migration))
  ∧ strict (addMigration mgr migration) = strict mgr.
Proof.
  unfold addMigration. cbn [migrations strict].
  split; [apply sort_Permutation|]. split; [|done].
  apply (sort_sorted (λ a b, compareVersions (m_version a) (m_version b))).
  - intros a b. apply compareVersions_opp.
  - intros a b c. apply compareVersions_trans.
Qed.

(** ** Migration runs *)

(** X18: migrateToVersion selects, for an upgrade, the registered
    migrations whose version is above the snapshot's and at most the
    target, and runs them by ascending version; for a downgrade those
    whose version is at most the snapshot's and above the target, by
    descending version. *)
Theorem relevantMigrations_selection (mgr : SnapshotMigrationManager)
    (currentVersion targetVersion : string) :
  let isUpgrade := 0 <? compareVersions targetVersion currentVersion in
  let relevant := relevantMigrations mgr currentVersion targetVersion in
  (∀ m, m ∈ relevant
        ↔ m ∈ migrations mgr
          ∧ if isUpgrade
            then 0 < compareVersions (m_version m) currentVersion
                 ∧ compareVersions (m_version m) targetVersion ≤ 0
            else compareVersions (m_version m) currentVersion ≤ 0
                 ∧ 0 < compareVersions (m_version m) targetVersion)
  ∧ StronglySorted (runs_before isUpgrade) relevant.
Proof.
  intros isUpgrade relevant. subst relevant. unfold relevantMigrations. fold isUpgrade. split.
  - intros m. rewrite elem_of_sort, list_elem_of_filter. unfold migration_selected.
    destruct isUpgrade; rewrite andb_True, !Is_true_true, Z.ltb_lt, Z.leb_le; tauto.
  - unfold runs_before. destruct isUpgrade.
    + apply (sort_sorted (λ a b, compareVersions (m_version a) (m_version b))).
      * intros a b. apply compareVersions_opp.
      * intros a b c. apply compareVersions_trans.
    + apply (sort_sorted (λ a b, compareVersions (m_version b) (m_version a))).
      * intros a b. apply compareVersions_opp.
      * intros a b c H1 H2. by apply (compareVersions_trans _ (m_version b)).
Qed.

Lemma get_set_same (o : obj) (k : string) (v : value) : get (set o k v) k = v.
Proof.
  induction o as [|[k' v'] o IH]; simpl.
  - by rewrite decide_True.
  - destruct (decide (k' = k)) as [->|Hne]; simpl.
    + by rewrite decide_True.
    + by rewrite decide_False.
Qed.

(** What a migration that ran left behind. *)
Lemma executeMigration_returns (snap s' : FormSnapshot) (m : Migration) (isUpgrade : bool)
    (w w' : World) :
  executeMigration snap m (if isUpgrade then dir_up else dir_down) w = (Return s', w') →
  snap_id s' = snap_id snap ∧ timestamp s' = timestamp snap ∧ version s' = m_version m
  ∧ migrateFn isUpgrade m (state snap) = Return (state s')
  ∧ ∃ r previous entry,
      spread_or_empty (trail snap) = Return previous
      ∧ trail s' = VArr r (previous ++ [entry])
      ∧ trail_entry isUpgrade m entry.
Proof.
  unfold executeMigration, try_catch, bind, lift, migrateFn, trail.
  assert ((match (if isUpgrade then dir_up else dir_down) with
           | dir_up => up m | dir_down => down m end) (state snap)
          = (if isUpgrade then up m else down m) (state snap)) as -> by (by destruct isUpgrade).
  destruct ((if isUpgrade then up m else down m) (state snap)) as [newState|e]; [|done].
  unfold fresh_ref at 1. cbn [fst snd].
  destruct (spread_or_empty (get (default [] (metadata snap)) "migrations")) as [previous|e];
    [|done].
  unfold fresh_ref, Date_now, ret. simpl. intros [= <- <-]. simpl.
  repeat split; try done.
  eexists _, previous, _. split; [done|]. rewrite get_set_same. split; [done|].
  unfold trail_entry. eexists _, _. by destruct isUpgrade.
Qed.

Lemma migrated_state_cons (isUpgrade : bool) (m : Migration) (rest : list Migration)
    (st st' : obj) :
  migrateFn isUpgrade m st = Return st' →
  migrated_state isUpgrade (m :: rest) st = migrated_state isUpgrade rest st'.
Proof. intros Hm. unfold migrated_state. simpl. by rewrite Hm. Qed.

Lemma run_migrations_returns (isUpgrade : bool) (relevant : list Migration)
    (snap s' : FormSnapshot) (w w' : World) :
  run_migrations isUpgrade relevant snap w = (Return s', w') →
  snap_id s' = snap_id snap ∧ timestamp s' = timestamp snap
  ∧ version s' = default (version snap) (m_version <$> last relevant)
  ∧ migrated_state isUpgrade relevant (state snap) = Return (state s')
  ∧ match relevant with
    | [] => s' = snap
    | _ :: _ =>
        ∃ r previous entries,
          spread_or_empty (trail snap) = Return previous
          ∧ trail s' = VArr r (previous ++ entries)
          ∧ Forall2 (λ entry m, trail_entry isUpgrade m entry) entries relevant
    end.
Proof.
  revert snap w. induction relevant as [|m rest IH]; intros snap w.
  - simpl. unfold ret. intros [= <- <-]. done.
  - rewrite run_migrations_cons.
    destruct (executeMigration snap m _ _) as [[s1|e] w1] eqn:Hexec; [|done].
    intros Hrest.
    apply executeMigration_returns in Hexec
      as (Hid & Hts & Hv & Hfn & r & previous & entry & Hprev & Htrail & Hentry).
    destruct (IH s1 w1 Hrest) as (Hid' & Hts' & Hv' & Hst' & Hmore).
    split; [congruence|]. split; [congruence|]. split; [|split].
    + rewrite Hv'. destruct rest as [|m' rest]; [exact Hv|]. rewrite last_cons_cons.
      destruct (last (m' :: rest)) eqn:Hl; [done|]. by apply last_None in Hl.
    + by rewrite (migrated_state_cons _ _ _ _ _ Hfn).
    + destruct rest as [|m' rest].
      * subst s'. exists r, previous, [entry]. split; [done|]. split; [done|]. by repeat constructor.
      * destruct Hmore as (r' & previous' & entries & Hprev' & Htrail' & Hentries).
        rewrite Htrail in Hprev'. simpl in Hprev'.
        assert (previous' = previous ++ [entry]) as ->.
        { destruct (previous ++ [entry]) eqn:Hl; [by destruct previous|].
          simpl in Hprev'. by injection Hprev' as <-. }
        exists r', previous, (entry :: entries). split; [done|].
        split; [by rewrite Htrail', <- app_assoc|]. by constructor.
Qed.

(** X19: a migrateToVersion that returns keeps the id and the
    timestamp.  When the two versions compare equal it returns the
    snapshot itself and only logs the announcement.  Otherwise the state
    is the result of the selected functions applied in order, the
    version is that of the last migration that ran (after a downgrade
    the version of the last migration undone, not the target; the
    snapshot's own when none was selected), and the audit trail
    [metadata.migrations] holds the former entries followed by one entry
    per migration, in the order they ran. *)
Theorem migrateToVersion_success (mgr : SnapshotMigrationManager) (snap s' : FormSnapshot)
    (targetVersion : string) (w w' : World) :
  let isUpgrade := 0 <? compareVersions targetVersion (version snap) in
  let relevant := relevantMigrations mgr (version snap) targetVersion in
  migrateToVersion mgr snap targetVersion w = (Return s', w') →
  snap_id s' = snap_id snap ∧ timestamp s' = timestamp snap
  ∧ (compareVersions (version snap) targetVersion = 0 →
     s' = snap ∧ w' = logged w (migrating_line (version snap) targetVersion))
  ∧ (compareVersions (version snap) targetVersion ≠ 0 →
     version s' = default (version snap) (m_version <$> last relevant)
     ∧ migrated_state isUpgrade relevant (state snap) = Return (state s')
     ∧ match relevant with
       | [] => s' = snap
       | _ :: _ =>
           ∃ r previous entries,
             spread_or_empty (trail snap) = Return previous
             ∧ trail s' = VArr r (previous ++ entries)
             ∧ Forall2 (λ entry m, trail_entry isUpgrade m entry) entries relevant
       end).
Proof.
  intros isUpgrade relevant Hrun.
  destruct (decide (compareVersions (version snap) targetVersion = 0)) as [Heq|Hne].
  - unfold migrateToVersion, bind, logger in Hrun. simpl in Hrun.
    rewrite decide_True in Hrun by done. unfold ret in Hrun. injection Hrun as <- <-.
    split; [done|]. split; [done|]. split; [done|]. by intros Hne.
  - rewrite migrateToVersion_unfold in Hrun by done.
    apply run_migrations_returns in Hrun as (Hid & Hts & Hrest).
    split; [done|]. split; [done|]. split; [by intros Heq|]. intros _. exact Hrest.
Qed.

Lemma migrateToVersion_success_witness :
  ∃ s' w',
    migrateToVersion two_steps (snapshot_at 1 "2.0.0") "1.0.0" quiet_world = (Return s', w')
    ∧ snap_id s' = "2.0.0" ∧ timestamp s' = 1 ∧ version s' = "1.1.0".
Proof.
  eexists _, _. split; [by vm_compute|].
  match goal with |- snap_id ?s = _ ∧ _ =>
    destruct (migrateToVersion_success two_steps (snapshot_at 1 "2.0.0") s "1.0.0" quiet_world
                _ ltac:(by vm_compute)) as (Hid & Hts & _ & Hrun)
  end.
  destruct Hrun as (Hversion & _); [by vm_compute|].
  split; [exact Hid|]. split; [exact Hts|]. rewrite Hversion. by vm_compute.
Defined.


Lemma last_sorted_max {A} (R : A → A → Prop) (l : list A) (x latest : A) :
  (∀ a, R a a) → StronglySorted R l → last l = Some latest → x ∈ l → R x latest.
Proof.
  intros Hrefl Hl Hlast Hx. apply last_Some in Hlast as [l' ->].
  apply elem_of_app in Hx as [Hx|Hx].
  - apply (StronglySorted_app_1_elem_of _ _ _ _ _ Hl Hx). by apply list_elem_of_singleton.
  - apply list_elem_of_singleton in Hx. by subst x.
Qed.

(** X20: after addMigration, migrateToLatest migrates to the version
    of the last migration of the list, which is one of the registered
    migrations and has the greatest version; when that version is the
    empty string it returns the snapshot untouched. *)
Theorem migrateToLatest_after_add (mgr : SnapshotMigrationManager) (migration : Migration)
    (snap : FormSnapshot) (w : World) :
  let mgr' := addMigration mgr migration in
  ∃ latest,
    last (migrations mgr') = Some latest
    ∧ (latest ∈ migrations mgr ∨ latest = migration)
    ∧ (∀ m, m ∈ migrations mgr ∨ m = migration →
            compareVersions (m_version m) (m_version latest) ≤ 0)
    ∧ migrateToLatest mgr' snap w
      = if String.eqb (m_version latest) "" then (Return snap, w)
        else migrateToVersion mgr' snap (m_version latest) w.
Proof.
  intros mgr'.
  assert (migrations mgr' ≡ₚ migrations mgr ++ [migration]) as Hperm by apply sort_Permutation.
  assert (StronglySorted (λ a b, compareVersions (m_version a) (m_version b) ≤ 0)
            (migrations mgr')) as Hsorted.
  { apply (sort_sorted (λ a b, compareVersions (m_version a) (m_version b))).
    - intros a b. apply compareVersions_opp.
    - intros a b c. apply compareVersions_trans. }
  assert (∀ m, m ∈ migrations mgr' ↔ m ∈ migrations mgr ∨ m = migration) as Hmem.
  { intros m. rewrite Hperm, elem_of_app, list_elem_of_singleton. done. }
  destruct (last (migrations mgr')) as [latest|] eqn:Hlast.
  2:{ apply last_None in Hlast. rewrite Hlast in Hperm.
      apply Permutation_nil_l in Hperm. by destruct (migrations mgr). }
  exists latest. split; [done|]. split; [|split].
  - apply Hmem. apply last_Some in Hlast as [l' ->]. apply elem_of_app. right. by left.
  - intros m Hm. apply Hmem in Hm.
    apply (last_sorted_max _ _ _ _ (λ a, proj2 (Z.le_lteq _ _)
             (or_intror (proj2 (compareVersions_zero _ _) (λ _, eq_refl)))) Hsorted Hlast Hm).
  - unfold migrateToLatest. rewrite Hlast. by destruct (String.eqb _ _).
Qed.

Lemma order_fold_spec (l : list Migration) (errors : list string) (prev : string) :
  ∃ new, (foldl order_step (errors, prev) l).1 = errors ++ new
         ∧ (new = [] ↔ versions_increase prev l).
Proof.
  revert errors prev. induction l as [|m l IH]; intros errors prev; simpl.
  - exists []. by rewrite app_nil_r.
  - destruct (negb (String.eqb prev "") && (compareVersions (m_version m) prev <=? 0)) eqn:Htest.
    + destruct (IH (errors ++ ["Invalid version order: " +:+ prev +:+ " -> " +:+ m_version m])
                  (m_version m)) as (new & -> & _).
      eexists. split; [by rewrite <- app_assoc|]. split; [done|].
      intros [[->|Hlt] _].
      * done.
      * apply andb_true_iff in Htest as [_ Hle%Z.leb_le]. lia.
    + destruct (IH errors (m_version m)) as (new & -> & Hiff).
      exists new. split; [done|]. rewrite Hiff. split; [|tauto]. intros Hrest. split; [|done].
      apply andb_false_iff in Htest as [Hempty|Hgt].
      * left. apply negb_false_iff in Hempty. by apply String.eqb_eq.
      * right. apply Z.leb_gt in Hgt. lia.
Qed.

Lemma reversibility_step_spec (errors : list string) (m : Migration) :
  ∃ new, reversibility_step errors m = errors ++ new ∧ (new = [] ↔ reversible m).
Proof.
  unfold reversibility_step, reversible.
  destruct (up m []) as [upResult|e] eqn:Hup; cbn [obind].
  - destruct (down m upResult) as [downResult|e] eqn:Hdown.
    + destruct (decide (stringify (VObj 0 []) = stringify (VObj 0 downResult))) as [Heq|Hne].
      * rewrite bool_decide_eq_false_2 by tauto. exists []. rewrite app_nil_r.
        split; [done|]. split; [|done]. intros _. by exists upResult, downResult.
      * rewrite bool_decide_eq_true_2 by done. eexists. split; [done|]. split; [done|].
        intros (u & d & [= <-] & Hd & Hs). rewrite Hdown in Hd. injection Hd as <-. congruence.
    + eexists. split; [done|]. split; [done|].
      intros (u & d & [= <-] & Hd & _). congruence.
  - eexists. split; [done|]. split; [done|]. intros (u & d & ? & _). congruence.
Qed.

Lemma reversibility_fold_spec (l : list Migration) (errors : list string) :
  ∃ new, foldl reversibility_step errors l = errors ++ new
         ∧ (new = [] ↔ Forall reversible l).
Proof.
  revert errors. induction l as [|m l IH]; intros errors; simpl.
  - exists []. by rewrite app_nil_r.
  - destruct (reversibility_step_spec errors m) as (new1 & -> & Hiff1).
    destruct (IH (errors ++ new1)) as (new2 & -> & Hiff2).
    exists (new1 ++ new2). split; [by rewrite app_assoc|].
    rewrite Forall_cons, <- Hiff1, <- Hiff2. split.
    + by intros [-> ->]%app_eq_nil.
    + by intros [-> ->].
Qed.

(** X21: validateMigrations does nothing for a manager that is not
    strict.  For a strict one it returns exactly when every version is
    greater than the one before it, the first one greater than 0.0.0,
    and every migration's [down] returns, on what its [up] returns for
    the empty state, a state that serializes like the empty state;
    otherwise it throws one Error whose message starts with
    [Migration validation failed:]. *)
Theorem validateMigrations_passes (mgr : SnapshotMigrationManager)
    (config : SnapshotFormConfig) :
  (strict mgr = false → validateMigrations mgr config = Return ())
  ∧ (strict mgr = true →
     (validateMigrations mgr config = Return ()
      ↔ versions_increase "0.0.0" (migrations mgr) ∧ Forall reversible (migrations mgr))
     ∧ (validateMigrations mgr config ≠ Return () →
        ∃ message, validateMigrations mgr config = Throw (JsError "Error" message)
                   ∧ String.prefix "Migration validation failed:" message = true)).
Proof.
  unfold validateMigrations. split; [by intros ->|]. intros ->. cbn [negb].
  destruct (order_fold_spec (migrations mgr) [] "0.0.0") as (new1 & -> & Hiff1).
  destruct (reversibility_fold_spec (migrations mgr) ([] ++ new1)) as (new2 & -> & Hiff2).
  rewrite <- Hiff1, <- Hiff2. simpl.
  destruct (new1 ++ new2) as [|line lines] eqn:Hnew.
  - apply app_eq_nil in Hnew as [-> ->]. simpl. split; [done|]. by intros H.
  - simpl. split.
    + split; [done|]. intros [-> ->]. done.
    + intros _. eexists. split; [reflexivity|]. done.
Qed.

(** ** Report generator: filters and summary *)

Lemma filterSnapshots_in_scope (fs : ReportFilters) (l : list FormSnapshot) (s : FormSnapshot) :
  s ∈ filterSnapshots fs l ↔ s ∈ l ∧ in_scope fs s.
Proof.
  unfold filterSnapshots, in_scope.
  destruct (filter_versions fs) as [[|v vs]|]; destruct (toDate fs) as [d2|];
    destruct (fromDate fs) as [d1|];
    rewrite ?list_elem_of_filter, elem_of_sort; split.
  all: try (intros (? & ? & ? & ?)); try (intros (? & ? & ?)); try (intros (? & ?));
    try intros ?.
  all: repeat split; try done; try (intros; simplify_eq; done).
  all: repeat match goal with
       | H : ∀ d, Some ?x = Some d → _ |- _ => specialize (H x eq_refl)
       | H : ∀ vs, Some ?x = Some vs → _ |- _ => specialize (H x eq_refl)
       end; try done.
  all: match goal with H : _ ≠ [] → _ |- _ => by apply H end.
Qed.

Lemma filterSnapshots_sublist (fs : ReportFilters) (l : list FormSnapshot) :
  filterSnapshots fs l `sublist_of` sort (λ a b, timestamp a - timestamp b) l.
Proof.
  unfold filterSnapshots.
  destruct (filter_versions fs) as [[|v vs]|]; destruct (toDate fs) as [d2|];
    destruct (fromDate fs) as [d1|];
    repeat (etrans; [apply sublist_filter|]); done.
Qed.

Lemma snapshot_processSnapshot (fs : ReportFilters) (config : SnapshotFormConfig)
    (filtered : list FormSnapshot) (i : nat) (s : FormSnapshot) :
  snapshot (processSnapshot fs config filtered i s) = s.
Proof. by rewrite processSnapshot_unfold. Qed.

Lemma snapshot_processSnapshots (fs : ReportFilters) (config : SnapshotFormConfig)
    (filtered : list FormSnapshot) :
  snapshot <$> processSnapshots fs config filtered = filtered.
Proof.
  unfold processSnapshots. rewrite fmap_imap.
  rewrite (imap_ext _ (const id)), imap_const, list_fmap_id; [done|].
  intros i s _. apply snapshot_processSnapshot.
Qed.

Lemma finalSnapshots_sublist (fs : ReportFilters) (config : SnapshotFormConfig)
    (l : list FormSnapshot) :
  finalSnapshots fs config l `sublist_of` processSnapshots fs config (filterSnapshots fs l)
  ∧ (onlyImportant fs = false →
     finalSnapshots fs config l = processSnapshots fs config (filterSnapshots fs l))
  ∧ (onlyImportant fs = true → ∀ p, p ∈ finalSnapshots fs config l → importance p = high).
Proof.
  unfold finalSnapshots. destruct (onlyImportant fs).
  - split; [apply sublist_filter|]. split; [done|]. intros _ p Hp.
    by apply list_elem_of_filter in Hp as [? _].
  - done.
Qed.

(** X22: the snapshots of a report are taken, in the order of their
    timestamps, from the given list; each of them passes the date and
    version filters, an empty version list filtering nothing, and is of
    high importance when [onlyImportant] is set; without
    [onlyImportant] every given snapshot that passes the filters is in
    the report. *)
Theorem generateReport_filters (l : list FormSnapshot) (config : SnapshotFormConfig)
    (options : ReportOptions) (w : World) :
  let fs := default no_filters (filters options) in
  ∃ report w',
    generateReport l config options w = (Return report, w')
    ∧ (snapshot <$> snapshots report) `sublist_of` sort (λ a b, timestamp a - timestamp b) l
    ∧ (∀ p, p ∈ snapshots report →
            snapshot p ∈ l ∧ in_scope fs (snapshot p)
            ∧ (onlyImportant fs = true → importance p = high))
    ∧ (onlyImportant fs = false →
       ∀ s, s ∈ l → in_scope fs s → ∃ p, p ∈ snapshots report ∧ snapshot p = s).
Proof.
  intros fs.
  destruct (generateReport_returns l config options w) as (report & w' & Hgen & Hsnaps).
  fold fs in Hsnaps. exists report, w'. split; [done|]. rewrite Hsnaps.
  destruct (finalSnapshots_sublist fs config l) as (Hsub & Hall & Hhigh).
  split; [|split].
  - etrans; [apply fmap_sublist, Hsub|]. rewrite snapshot_processSnapshots.
    apply filterSnapshots_sublist.
  - intros p Hp.
    assert (snapshot p ∈ filterSnapshots fs l) as Hin.
    { rewrite <- (snapshot_processSnapshots fs config (filterSnapshots fs l)).
      apply list_elem_of_fmap. exists p. split; [done|]. by eapply elem_of_sublist. }
    apply filterSnapshots_in_scope in Hin as [? ?]. split; [done|]. split; [done|].
    intros Honly. by apply Hhigh.
  - intros Honly s Hs Hscope. rewrite (Hall Honly).
    assert (s ∈ snapshot <$> processSnapshots fs config (filterSnapshots fs l)) as Hin.
    { rewrite snapshot_processSnapshots. by apply filterSnapshots_in_scope. }
    apply list_elem_of_fmap in Hin as (p & -> & Hp). by exists p.
Qed.

Lemma filter_length_le {A} (P Q : A → Prop) `{∀ x, Decision (P x)} `{∀ x, Decision (Q x)}
    (l : list A) :
  (∀ x, x ∈ l → P x → Q x) → (List.length (filter P l) ≤ List.length (filter Q l))%nat.
Proof.
  induction l as [|x l IH]; intros Himp; [done|].
  assert (List.length (filter P l) ≤ List.length (filter Q l))%nat as Hle.
  { apply IH. intros y Hy. apply Himp. by right. }
  rewrite !filter_cons. destruct (decide (P x)) as [HP|HP].
  - rewrite decide_True by (apply Himp; [by left|done]). simpl. lia.
  - destruct (decide (Q x)); simpl; lia.
Qed.

Lemma generateReport_summary (l : list FormSnapshot) (config : SnapshotFormConfig)
    (options : ReportOptions) (w w' : World) (report : SnapshotReport) :
  generateReport l config options w = (Return report, w') →
  let final := snapshots report in
  totalSnapshots (summary report) = List.length final
  ∧ versions (summary report) = sort compareVersions (new_Set (version ∘ snapshot <$> final))
  ∧ totalChanges (summary report) = List.length (filter (λ s, is_Some (changes s)) final)
  ∧ importantChanges (summary report) = List.length (filter (λ s, importance s = high) final)
  ∧ timestamp_or_now (timestamp ∘ snapshot <$> head final) w
    = (Return (dateRange_from (summary report)),
       (timestamp_or_now (timestamp ∘ snapshot <$> head final) w).2)
  ∧ timestamp_or_now (timestamp ∘ snapshot <$> last final)
      (timestamp_or_now (timestamp ∘ snapshot <$> head final) w).2
    = (Return (dateRange_to (summary report)), w').
Proof.
  unfold generateReport, bind.
  destruct (timestamp_or_now_returns
              (timestamp ∘ snapshot <$> head (finalSnapshots (default no_filters (filters options))
                                                              config l)) w)
    as (z1 & w1 & Hfrom).
  destruct (timestamp_or_now_returns
              (timestamp ∘ snapshot <$> last (finalSnapshots (default no_filters (filters options))
                                                              config l)) w1)
    as (z2 & w2 & Hto).
  rewrite Hfrom, Hto. unfold ret. intros [= <- <-]. cbn [snapshots summary totalSnapshots versions
    totalChanges importantChanges dateRange_from dateRange_to].
  rewrite Hfrom. cbn [fst snd]. by rewrite Hto.
Qed.

(** A reported snapshot never carries an empty change object, and one
    that is not of low importance carries changes. *)
Lemma report_shape (l : list FormSnapshot) (config : SnapshotFormConfig)
    (options : ReportOptions) (w w' : World) (report : SnapshotReport) (p : ProcessedSnapshot) :
  generateReport l config options w = (Return report, w') →
  p ∈ snapshots report →
  changes p ≠ Some [] ∧ (importance p ≠ low → changes p ≠ None).
Proof.
  intros Hgen Hp.
  destruct (report_snapshot_processed l config options w w' report p Hgen Hp)
    as (i & snap & _ & ->).
  set (fs := default no_filters (filters options)).
  pose proof (recorded_important fs config (filterSnapshots fs l) i snap) as Hrec.
  rewrite processSnapshot_unfold. cbn [changes importance]. cbv zeta in Hrec.
  destruct (recorded fs config (filterSnapshots fs l) i snap) as [ch n]. cbn [fst snd] in *.
  destruct ch as [|c ch]; simpl.
  - split; [done|]. intros Hlow. destruct (Nat.ltb 0 n) eqn:Hn; [|done].
    apply Nat.ltb_lt, Hrec in Hn as (x & Hx & _). by apply elem_of_nil in Hx.
  - done.
Qed.

(** X23: in the summary of a report, [totalSnapshots] is the number of
    its snapshots, [totalChanges] the number of those that carry
    changes and [importantChanges] the number of those of high
    importance, so that importantChanges ≤ totalChanges ≤
    totalSnapshots; a snapshot never carries an empty change object,
    and one of high or medium importance always carries changes. *)
Theorem generateReport_counts (l : list FormSnapshot) (config : SnapshotFormConfig)
    (options : ReportOptions) (w : World) :
  ∃ report w',
    generateReport l config options w = (Return report, w')
    ∧ totalSnapshots (summary report) = List.length (snapshots report)
    ∧ totalChanges (summary report)
      = List.length (filter (λ p, changes p ≠ None) (snapshots report))
    ∧ importantChanges (summary report)
      = List.length (filter (λ p, importance p = high) (snapshots report))
    ∧ (importantChanges (summary report) ≤ totalChanges (summary report)
       ≤ totalSnapshots (summary report))%nat
    ∧ ∀ p, p ∈ snapshots report →
           changes p ≠ Some [] ∧ (importance p ≠ low → changes p ≠ None).
Proof.
  destruct (generateReport_returns l config options w) as (report & w' & Hgen & _).
  exists report, w'. split; [done|].
  destruct (generateReport_summary _ _ _ _ _ _ Hgen) as (Htotal & _ & Hch & Himp & _).
  assert (filter (λ s, is_Some (changes s)) (snapshots report)
          = filter (λ p, changes p ≠ None) (snapshots report)) as Hsame.
  { apply list_filter_iff. intros p. by rewrite is_Some_alt; destruct (changes p). }
  split; [done|]. split; [by rewrite Hch, Hsame|]. split; [done|].
  split; [|intros p Hp; by eapply report_shape].
  rewrite Himp, Hch, Hsame, Htotal. split; [|apply length_filter].
  apply filter_length_le. intros p Hp Hhigh.
  apply (report_shape _ _ _ _ _ _ p Hgen Hp). by rewrite Hhigh.
Qed.

(** X24: the version list of a summary has no duplicates, is ordered
    by the version comparator, and holds exactly the versions of the
    snapshots of the report. *)
Theorem generateReport_versions (l : list FormSnapshot) (config : SnapshotFormConfig)
    (options : ReportOptions) (w : World) :
  ∃ report w',
    generateReport l config options w = (Return report, w')
    ∧ NoDup (versions (summary report))
    ∧ StronglySorted (λ v1 v2, compareVersions v1 v2 ≤ 0) (versions (summary report))
    ∧ ∀ v, v ∈ versions (summary report)
           ↔ ∃ p, p ∈ snapshots report ∧ version (snapshot p) = v.
Proof.
  destruct (generateReport_returns l config options w) as (report & w' & Hgen & Hsnaps).
  exists report, w'. split; [done|].
  destruct (generateReport_summary _ _ _ _ _ _ Hgen) as (_ & -> & _).
  split; [|split].
  - rewrite sort_Permutation. apply NoDup_new_Set.
  - apply sort_sorted; [apply compareVersions_opp|apply compareVersions_trans].
  - intros v. rewrite elem_of_sort, elem_of_new_Set, list_elem_of_fmap. split.
    + intros (p & -> & Hp). by exists p.
    + intros (p & Hp & <-). by exists p.
Qed.

Lemma sublist_sorted {A} (R : A → A → Prop) (l1 l2 : list A) :
  l1 `sublist_of` l2 → StronglySorted R l2 → StronglySorted R l1.
Proof.
  induction 1 as [|x l1 l2 Hsub IH|x l1 l2 Hsub IH]; intros Hl2; [done| |].
  - apply StronglySorted_cons in Hl2 as [Hx Hl2]. apply StronglySorted_cons. split; [|by apply IH].
    apply Forall_forall. intros y Hy. rewrite Forall_forall in Hx.
    apply Hx. by eapply elem_of_sublist.
  - apply StronglySorted_cons in Hl2 as [_ Hl2]. by apply IH.
Qed.

(** X25: generateReport leaves the storage and the console alone.  For
    a report without snapshots the date range is two successive
    readings of the clock and the summary counts nothing; otherwise the
    first snapshot is not later than the last, the range runs from the
    timestamp of the first to that of the last, and the clock is not
    read, except that a timestamp of 0 is replaced by a clock reading. *)
Theorem generateReport_dateRange (l : list FormSnapshot) (config : SnapshotFormConfig)
    (options : ReportOptions) (w : World) :
  ∃ report w',
    generateReport l config options w = (Return report, w')
    ∧ storage w' = storage w ∧ console w' = console w
    ∧ match snapshots report with
      | [] =>
          dateRange_from (summary report) = clock w (ticks w)
          ∧ dateRange_to (summary report) = clock w (S (ticks w))
          ∧ ticks w' = S (S (ticks w))
          ∧ summary report
            = {| totalSnapshots := 0; dateRange_from := clock w (ticks w);
                 dateRange_to := clock w (S (ticks w)); versions := [];
                 totalChanges := 0; importantChanges := 0 |}
      | first :: rest =>
          let final := default first (last rest) in
          timestamp (snapshot first) ≤ timestamp (snapshot final)
          ∧ (timestamp (snapshot first) ≠ 0 →
             dateRange_from (summary report) = timestamp (snapshot first))
          ∧ (timestamp (snapshot final) ≠ 0 →
             dateRange_to (summary report) = timestamp (snapshot final))
          ∧ (timestamp (snapshot first) ≠ 0 → timestamp (snapshot final) ≠ 0 → w' = w)
      end.
Proof.
  destruct (generateReport_returns l config options w) as (report & w' & Hgen & Hsnaps).
  exists report, w'. split; [done|].
  destruct (generateReport_summary _ _ _ _ _ _ Hgen) as (Htotal & Hvs & Hch & Himp & Hfrom & Hto).
  cbv zeta in *.
  set (fs := default no_filters (filters options)) in *.
  assert (chronological (snapshot <$> snapshots report)) as Hchrono.
  { destruct (finalSnapshots_sublist fs config l) as (Hsub & _).
    rewrite Hsnaps.
    eapply (sublist_sorted _ _ (snapshot <$> processSnapshots fs config (filterSnapshots fs l))).
    - by apply fmap_sublist.
    - rewrite snapshot_processSnapshots. apply filterSnapshots_chronological. }
  destruct (snapshots report) as [|first rest] eqn:Hfinal.
  - simpl in Hfrom, Hto. unfold Date_now in Hfrom, Hto. simpl in Hfrom, Hto.
    injection Hfrom as Hf. injection Hto as Ht Hw. subst w'. simpl.
    split; [done|]. split; [done|]. split; [done|]. split; [done|]. split; [done|].
    destruct report as [[n f t vs c i] snaps]. simpl in *. by subst.
  - assert (last (first :: rest) = Some (default first (last rest))) as Hlast.
    { destruct rest as [|r rest]; [done|]. rewrite last_cons_cons.
      destruct (last (r :: rest)) eqn:Hl; [done|]. by apply last_None in Hl. }
    rewrite Hlast in Hto. simpl in Hfrom, Hto.
    assert (timestamp (snapshot first) ≤ timestamp (snapshot (default first (last rest))))
      as Hle.
    { rewrite fmap_cons in Hchrono. apply StronglySorted_cons in Hchrono as [Hall _].
      destruct (last rest) as [final|] eqn:Hl; [|simpl; lia].
      simpl. rewrite Forall_forall in Hall. apply (Hall (snapshot final)).
      apply list_elem_of_fmap. exists final. split; [done|].
      apply last_Some in Hl as [rest' ->]. apply elem_of_app. right. by left. }
    assert (∀ t w0, (timestamp_or_now (Some t) w0).2 = w0 ∨ t = 0) as Hquiet.
    { intros t w0. simpl. destruct (t =? 0) eqn:Ht; [right; lia|by left]. }
    assert (storage w' = storage w ∧ console w' = console w) as [Hst Hco].
    { simpl in *.
      destruct (timestamp (snapshot first) =? 0);
        destruct (timestamp (snapshot (default first (last rest))) =? 0);
        unfold Date_now, ret in *; simpl in *; simplify_eq; done. }
    split; [done|]. split; [done|]. cbv zeta. split; [done|].
    simpl in *.
    destruct (timestamp (snapshot first) =? 0) eqn:H1;
      destruct (timestamp (snapshot (default first (last rest))) =? 0) eqn:H2;
      unfold Date_now, ret in *; simpl in *; simplify_eq;
      repeat split; intros; try done; try lia.
    all: try (apply Z.eqb_eq in H1; done); try (apply Z.eqb_eq in H2; done).
Qed.

(** ** Timeline and charts against the report *)

Arguments timeline_step : simpl never.
Arguments version_step : simpl never.
Arguments count_step : simpl never.

(** Without a field filter the report records what the timeline records. *)
Lemma report_fold_timeline (config : SnapshotFormConfig) (prev snap : FormSnapshot)
    (l : list string) (ch : StateChanges) (n : nat) :
  (foldl (report_step no_filters config prev snap) (ch, n) l).1
  = foldl (timeline_step snap prev) ch l.
Proof.
  revert ch n. induction l as [|k l IH]; intros ch n; [done|]. simpl.
  unfold report_step at 2, timeline_step at 2, field_changed, field_selected. simpl.
  destruct (serialized_changed (get (state snap) k) (get (state prev) k)); apply IH.
Qed.

Lemma timeline_item_agrees (config : SnapshotFormConfig) (prev snap : FormSnapshot) :
  timeline_changes snap (Some prev) = Some (report_changes no_filters config prev snap).1
  ∧ (timeline_importantChanges (timeline_changes snap (Some prev)) (Some config) ≠ []
     ↔ (0 < (report_changes no_filters config prev snap).2)%nat).
Proof.
  assert (timeline_changes snap (Some prev) = Some (report_changes no_filters config prev snap).1)
    as Hsame.
  { unfold timeline_changes, report_changes. by rewrite report_fold_timeline. }
  split; [done|]. rewrite Hsame.
  destruct (report_changes_spec no_filters config prev snap) as (_ & -> & _).
  unfold timeline_importantChanges, keys.
  set (ch := (report_changes no_filters config prev snap).1).
  split.
  - intros Hne. destruct (filter _ ch) as [|[k c] rest] eqn:Hf; [done|].
    assert ((k, c) ∈ filter (λ entry, Is_true (is_important config entry.1)) ch) as Hin
      by (rewrite Hf; by left).
    apply list_elem_of_filter in Hin as [Himp Hin]. exists k. split.
    + apply list_elem_of_fmap. by exists (k, c).
    + by apply Is_true_true.
  - intros (k & Hk & Himp) Hnil. apply list_elem_of_fmap in Hk as ([k' c] & -> & Hin).
    apply fmap_nil_inv in Hnil.
    assert ((k', c) ∈ filter (λ entry, Is_true (is_important config entry.1)) ch) as Hf.
    { apply list_elem_of_filter. split; [by apply Is_true_true|done]. }
    rewrite Hnil in Hf. by apply elem_of_nil in Hf.
Qed.

Lemma StronglySorted_reverse {A} (R : A → A → Prop) (l : list A) :
  StronglySorted R l → StronglySorted (flip R) (reverse l).
Proof.
  induction 1 as [|x l Hl IH Hx]; [constructor|].
  rewrite reverse_cons. apply StronglySorted_app_2; [|done|repeat constructor].
  intros x1 x2 Hx1 ->%list_elem_of_singleton. unfold flip.
  rewrite Forall_forall in Hx. apply Hx. by apply elem_of_reverse.
Qed.

Lemma StronglySorted_weaken {A} (R1 R2 : A → A → Prop) (l : list A) :
  (∀ a b, R1 a b → R2 a b) → StronglySorted R1 l → StronglySorted R2 l.
Proof.
  intros Himp. induction 1 as [|x l Hl IH Hx]; constructor; [done|].
  eapply Forall_impl; [exact Hx|]. intros y. apply Himp.
Qed.

Lemma NoDup_fmap_inj_on {A B} (f : A → B) (l : list A) (x y : A) :
  NoDup (f <$> l) → x ∈ l → y ∈ l → f x = f y → x = y.
Proof.
  induction l as [|z l IH]; intros Hnd Hx Hy Heq; [by apply elem_of_nil in Hx|].
  rewrite fmap_cons in Hnd. apply NoDup_cons in Hnd as [Hz Hnd].
  apply elem_of_cons in Hx as [->|Hx]; apply elem_of_cons in Hy as [->|Hy]; try done.
  - exfalso. apply Hz. rewrite Heq. apply list_elem_of_fmap. by exists y.
  - exfalso. apply Hz. rewrite <- Heq. apply list_elem_of_fmap. by exists x.
  - by apply IH.
Qed.

(** With distinct timestamps, newest-first is oldest-first reversed. *)
Lemma sortedSnapshots_reverse (l : list FormSnapshot) :
  NoDup (timestamp <$> l) →
  sortedSnapshots l = reverse (sort (λ a b, timestamp a - timestamp b) l).
Proof.
  intros Hnd. set (asc := sort (λ a b, timestamp a - timestamp b) l).
  assert (reverse (sortedSnapshots l) = asc) as <-; [|by rewrite reverse_involutive].
  apply (StronglySorted_unique_strong (λ a b, timestamp a ≤ timestamp b)).
  - intros x1 x2 Hx1 Hx2 H12 H21. apply (NoDup_fmap_inj_on timestamp l); [done| | |lia].
    + rewrite elem_of_reverse in Hx1. unfold sortedSnapshots in Hx1.
      by rewrite elem_of_sort in Hx1.
    + subst asc. by rewrite elem_of_sort in Hx2.
  - apply (StronglySorted_reverse (λ a b, timestamp b ≤ timestamp a)).
    unfold sortedSnapshots.
    apply (StronglySorted_weaken (λ a b, timestamp b - timestamp a ≤ 0)).
    + intros a b. lia.
    + apply (sort_sorted (λ a b : FormSnapshot, timestamp b - timestamp a)).
      * intros a b. lia.
      * intros a b c. lia.
  - apply sort_chronological.
  - rewrite reverse_Permutation. unfold sortedSnapshots, asc. by rewrite !sort_Permutation.
Qed.

(** X26: for snapshots with distinct timestamps and a report without
    filters, the timeline, read from its last item to its first, shows
    the snapshots of the report in order; an item's changed fields and
    their values are those the report records for the snapshot, and it
    lists important changes exactly when the report gives the snapshot
    high importance. *)
Theorem timeline_agrees_with_report (l : list FormSnapshot) (config : SnapshotFormConfig)
    (options : ReportOptions) (w : World) :
  filters options = None →
  NoDup (timestamp <$> l) →
  ∃ report w',
    generateReport l config options w = (Return report, w')
    ∧ Forall2 (λ item p,
                 item_snapshot item = snapshot p
                 ∧ default [] (item_changes item) = default [] (changes p)
                 ∧ (item_importantChanges item ≠ [] ↔ importance p = high))
              (reverse (FormSnapshotTimeline l (Some config))) (snapshots report).
Proof.
  intros Hnone Hnd.
  destruct (generateReport_returns l config options w) as (report & w' & Hgen & Hsnaps).
  exists report, w'. split; [done|]. rewrite Hsnaps, Hnone. simpl.
  unfold finalSnapshots. simpl. unfold FormSnapshotTimeline.
  rewrite (sortedSnapshots_reverse l Hnd).
  change (filterSnapshots no_filters l) with (sort (λ a b, timestamp a - timestamp b) l).
  set (asc := sort (λ a b, timestamp a - timestamp b) l).
  apply Forall2_same_length_lookup_2.
  { unfold processSnapshots. by rewrite length_reverse, !length_imap, length_reverse. }
  intros i item p Hitem Hp.
  unfold processSnapshots in Hp. apply list_lookup_imap_Some in Hp as (s & Hs & ->).
  apply reverse_lookup_Some in Hitem as [Hitem Hi].
  rewrite length_imap, length_reverse in Hitem, Hi.
  apply list_lookup_imap_Some in Hitem as (s' & Hs' & ->).
  assert (i < List.length asc)%nat as Hlen by (by eapply lookup_lt_Some).
  rewrite reverse_lookup in Hs' by lia.
  replace (List.length asc - S (List.length asc - S i))%nat with i in Hs' by lia.
  rewrite Hs in Hs'. injection Hs' as <-.
  cbn [item_snapshot item_changes item_importantChanges].
  rewrite processSnapshot_unfold. cbn [snapshot changes importance]. split; [done|].
  unfold recorded. destruct i as [|j].
  - assert (reverse asc !! (List.length asc - 1 + 1)%nat = None) as ->.
    { apply lookup_ge_None_2. rewrite length_reverse. lia. }
    done.
  - destruct (lookup_lt_is_Some_2 asc j) as [prev Hprev]; [lia|].
    assert (reverse asc !! (List.length asc - S (S j) + 1)%nat = Some prev) as ->.
    { rewrite reverse_lookup by lia. rewrite <- Hprev. f_equal. lia. }
    change (Nat.ltb 0 (S j)) with true. cbn iota.
    replace (S j - 1)%nat with j by lia. rewrite Hprev.
    destruct (timeline_item_agrees config prev s) as [Hch Himp].
    rewrite Hch in *. split.
    + by destruct (report_changes no_filters config prev s).1.
    + rewrite Himp. destruct (Nat.ltb 0 (report_changes no_filters config prev s).2) eqn:Hn.
      * apply Nat.ltb_lt in Hn. tauto.
      * apply Nat.ltb_ge in Hn. split; [lia|].
        by destruct (Nat.ltb 3 _).
Qed.

Lemma timeline_agrees_with_report_witness :
  ∃ report w',
    generateReport five_history five_config plain_options quiet_world = (Return report, w')
    ∧ Forall2 (λ item p,
                 item_snapshot item = snapshot p
                 ∧ default [] (item_changes item) = default [] (changes p)
                 ∧ (item_importantChanges item ≠ [] ↔ importance p = high))
              (reverse (FormSnapshotTimeline five_history (Some five_config)))
              (snapshots report).
Proof.
  apply (timeline_agrees_with_report five_history five_config plain_options quiet_world).
  - reflexivity.
  - apply (bool_decide_unpack _). by vm_compute.
Defined.


Lemma count_fold_spec (l : list ProcessedSnapshot) (counts : ImportanceCounts) :
  let res := foldl count_step counts l in
  count_high res = (count_high counts + List.length (filter (λ p, importance p = high) l))%nat
  ∧ count_medium res
    = (count_medium counts + List.length (filter (λ p, importance p = medium) l))%nat
  ∧ count_low res = (count_low counts + List.length (filter (λ p, importance p = low) l))%nat.
Proof.
  revert counts. induction l as [|p l IH]; intros counts; simpl; [lia|].
  destruct (IH (count_step counts p)) as (Hh & Hm & Hl). rewrite Hh, Hm, Hl.
  rewrite !filter_cons. unfold count_step.
  destruct (importance p); simpl; lia.
Qed.

(** X27: the three counts of the importance chart add up to the number
    of snapshots of the report; the high count is the summary's
    [importantChanges], and the high and medium counts together do not
    exceed its [totalChanges]. *)
Theorem importanceCounts_total (l : list FormSnapshot) (config : SnapshotFormConfig)
    (options : ReportOptions) (w : World) :
  ∃ report w',
    generateReport l config options w = (Return report, w')
    ∧ let counts := importanceCounts report in
      (count_high counts + count_medium counts + count_low counts)%nat
      = totalSnapshots (summary report)
      ∧ count_high counts = importantChanges (summary report)
      ∧ (count_high counts + count_medium counts ≤ totalChanges (summary report))%nat.
Proof.
  destruct (generateReport_returns l config options w) as (report & w' & Hgen & _).
  destruct (generateReport_summary _ _ _ _ _ _ Hgen) as (Htotal & _ & Hch' & Himp & _).
  assert (totalChanges (summary report)
          = List.length (filter (λ p, changes p ≠ None) (snapshots report))) as Hch.
  { rewrite Hch'. f_equal. apply list_filter_iff. intros p.
    by rewrite is_Some_alt; destruct (changes p). }
  assert (∀ p, p ∈ snapshots report →
               changes p ≠ Some [] ∧ (importance p ≠ low → changes p ≠ None)) as Hshape.
  { intros p Hp. by eapply report_shape. }
  clear Hch'.
  exists report, w'. split; [done|]. cbv zeta.
  destruct (count_fold_spec (snapshots report)
              {| count_high := 0; count_medium := 0; count_low := 0 |}) as (Hh & Hm & Hl).
  fold (importanceCounts report) in Hh, Hm, Hl. simpl in Hh, Hm, Hl.
  rewrite Hh, Hm, Hl, Htotal, Himp, Hch. clear Hh Hm Hl Htotal Himp Hch Hgen.
  induction (snapshots report) as [|p ps IH]; [done|].
  assert (∀ q, q ∈ ps → changes q ≠ Some [] ∧ (importance q ≠ low → changes q ≠ None)) as Hps.
  { intros q Hq. apply Hshape. by right. }
  destruct (IH Hps) as (IH1 & _ & IH3).
  destruct (Hshape p) as [_ Hp]; [by left|].
  rewrite !filter_cons. split; [|split; [done|]].
  - destruct (importance p); simpl in *; lia.
  - destruct (importance p) eqn:Himp; simpl.
    + rewrite decide_True by (apply Hp; by rewrite ?Himp). simpl. lia.
    + rewrite decide_True by (apply Hp; by rewrite ?Himp). simpl. lia.
    + destruct (decide (changes p ≠ None)); simpl; lia.
Qed.

Lemma elem_of_set_iff {A} (o : list (string * A)) (k : string) (v : A) (x : string) (c : A) :
  NoDup (keys o) →
  (x, c) ∈ set o k v ↔ (x = k ∧ c = v) ∨ (x ≠ k ∧ (x, c) ∈ o).
Proof.
  unfold keys. induction o as [|[k' v'] o IH]; simpl; intros Hnd.
  - rewrite list_elem_of_singleton, elem_of_nil. split.
    + intros [= -> ->]. by left.
    + intros [[-> ->]|[_ []]]. done.
  - apply NoDup_cons in Hnd as [Hk' Hnd].
    destruct (decide (k' = k)) as [->|Hne]; rewrite !elem_of_cons.
    + split.
      * intros [[= -> ->]|Hin]; [by left|]. right. split; [|by right].
        intros ->. apply Hk'. apply list_elem_of_fmap. by exists (k, c).
      * intros [[-> ->]|[Hx [[= -> ->]|Hin]]]; [by left|done|by right].
    + rewrite (IH Hnd). split.
      * intros [[= -> ->]|[[-> ->]|[Hx Hin]]]; [right; split; [done|by left]|by left|].
        right. split; [done|by right].
      * intros [[-> ->]|[Hx [[= -> ->]|Hin]]]; [right; by left|by left|].
        right. right. by split.
Qed.

(** X28: the bar chart has one bar per version that has a snapshot
    with changes, and the bar of a version shows the number of changed
    fields of the last such snapshot of the report, not a sum over the
    version's snapshots. *)
Theorem changesByVersion_last (report : SnapshotReport) (v : string) (n : nat) :
  NoDup (keys (changesByVersion report))
  ∧ ((v, n) ∈ changesByVersion report
     ↔ ∃ p, last (filter (λ p, version (snapshot p) = v ∧ changes p ≠ None) (snapshots report))
            = Some p
            ∧ n = List.length (changed_fields p)).
Proof.
  unfold changesByVersion. revert v n.
  induction (snapshots report) as [|p l IH] using rev_ind; intros v n.
  - simpl. split; [apply NoDup_nil_2|]. rewrite elem_of_nil. split; [done|]. by intros (p & ? & _).
  - rewrite foldl_app, filter_app. simpl.
    destruct (IH v n) as [Hnd Hiff]. unfold version_step at 1 3.
    destruct (changes p) as [recorded|] eqn:Hch.
    + split; [by apply NoDup_keys_set|].
      rewrite (elem_of_set_iff _ _ _ _ _ Hnd).
      destruct (decide (version (snapshot p) = v)) as [Hv|Hv].
      * rewrite filter_cons_True by (rewrite Hch; done). rewrite filter_nil, last_snoc.
        unfold changed_fields. split.
        -- intros [[_ ->]|[Hne _]]; [|done]. exists p. by rewrite Hch.
        -- intros (q & [= <-] & ->). left. by rewrite Hch.
      * rewrite filter_cons_False by tauto. rewrite filter_nil, app_nil_r, <- Hiff.
        split; [intros [[? _]|[_ ?]]; done|]. intros Hin. right. by split.
    + rewrite filter_cons_False by (rewrite Hch; tauto).
      rewrite filter_nil, app_nil_r. done.
Qed.

(** ** Report formatters: when they return *)

Lemma omap_returns_iff {A B} (f : A → outcome B) (l : list A) :
  (∃ ys, omap f l = Return ys) ↔ ∀ x, x ∈ l → ∃ y, f x = Return y.
Proof.
  split; [|apply omap_total].
  intros [ys Hys] x Hx. apply omap_returns in Hys.
  apply list_elem_of_lookup in Hx as [i Hi].
  destruct (Forall2_lookup_l _ _ _ _ _ Hys Hi) as (y & _ & Hy). eauto.
Qed.

Lemma omap_throws {A B} (f : A → outcome B) (l : list A) (e : exn) :
  omap f l = Throw e → ∃ x, x ∈ l ∧ f x = Throw e.
Proof.
  induction l as [|x l IH]; simpl; [done|].
  destruct (f x) as [y|e'] eqn:Hfx; simpl.
  - destruct (omap f l) as [ys|e'']; simpl; [done|]. intros [= ->].
    destruct IH as (x' & Hx' & Hf); [done|]. exists x'. split; [by right|done].
  - intros [= ->]. exists x. split; [by left|done].
Qed.

Lemma escape_serialized_defined (gap ind : string) (v : value) :
  (∃ r, escape_serialized (ser gap ind) v = Return r) ↔ v ≠ VUndefined.
Proof.
  unfold escape_serialized. split.
  - intros [r Hr] ->. by simpl in Hr.
  - intros Hv. destruct (ser_defined gap ind v Hv) as [s ->]. eauto.
Qed.

Lemma escape_serialized_throws (serialize : value → option string) (v : value) (e : exn) :
  escape_serialized serialize v = Throw e → is_TypeError e.
Proof.
  unfold escape_serialized. destruct (serialize v); [done|]. intros [= <-]. by eexists.
Qed.

Lemma row_returns (serialize : value → option string) {B} (g : rope → rope → B)
    (change : FieldChange) (r : B) :
  (∀ v r', escape_serialized serialize v = Return r' → v ≠ VUndefined) →
  obind (escape_serialized serialize (from change)) (λ from_text,
  obind (escape_serialized serialize (to change)) (λ to_text,
  Return (g from_text to_text))) = Return r →
  from change ≠ VUndefined ∧ to change ≠ VUndefined.
Proof.
  intros Hdef.
  destruct (escape_serialized serialize (from change)) as [ft|e] eqn:Hf; [|done].
  destruct (escape_serialized serialize (to change)) as [tt|e] eqn:Ht; [|done]. eauto.
Qed.

Lemma escape_stringify_defined (v : value) (r : rope) :
  escape_serialized stringify v = Return r → v ≠ VUndefined.
Proof. intros Hr. apply (escape_serialized_defined "" ""). eauto. Qed.

Lemma escape_stringify2_defined (v : value) (r : rope) :
  escape_serialized stringify2 v = Return r → v ≠ VUndefined.
Proof. intros Hr. apply (escape_serialized_defined "  " ""). eauto. Qed.

Lemma row_throws (serialize : value → option string) {B} (g : rope → rope → B)
    (change : FieldChange) (e : exn) :
  obind (escape_serialized serialize (from change)) (λ from_text,
  obind (escape_serialized serialize (to change)) (λ to_text,
  Return (g from_text to_text))) = Throw e →
  is_TypeError e.
Proof.
  destruct (escape_serialized serialize (from change)) as [ft|e1] eqn:Hf; simpl.
  - destruct (escape_serialized serialize (to change)) as [tt|e2] eqn:Ht; simpl; [done|].
    intros [= ->]. by eapply escape_serialized_throws.
  - intros [= ->]. by eapply escape_serialized_throws.
Qed.

Section FormatterOutcomes.

Variables toLocaleDateString toLocaleString toISOString : Z → string.

Lemma formatChangesTable_outcome (changes : StateChanges) :
  ((∃ r, formatChangesTable changes = Return r)
   ↔ ∀ entry, entry ∈ changes → from entry.2 ≠ VUndefined ∧ to entry.2 ≠ VUndefined)
  ∧ ∀ e, formatChangesTable changes = Throw e → is_TypeError e.
Proof.
  unfold formatChangesTable. split.
  - split; [|apply formatChangesTable_total].
    intros [r Hr]. destruct (omap formatChangesTable_row changes) as [rows|e] eqn:Hrows; [|done].
    intros [fld change] Hin.
    destruct (proj1 (omap_returns_iff _ _) (ex_intro _ rows Hrows) _ Hin) as [row Hrow].
    unfold formatChangesTable_row in Hrow.
    by apply (row_returns _ _ _ _ escape_stringify2_defined) in Hrow.
  - intros e. destruct (omap formatChangesTable_row changes) as [rows|e'] eqn:Hrows; [done|].
    simpl. intros [= ->]. apply omap_throws in Hrows as ([fld change] & _ & Hrow).
    unfold formatChangesTable_row in Hrow. by apply row_throws in Hrow.
Qed.

Lemma formatSnapshotSection_outcome (p : ProcessedSnapshot) :
  ((∃ r, formatSnapshotSection toLocaleString toISOString p = Return r)
   ↔ changes_serializable p)
  ∧ ∀ e, formatSnapshotSection toLocaleString toISOString p = Throw e → is_TypeError e.
Proof.
  split.
  - split; [|apply formatSnapshotSection_total].
    intros [r Hr]. unfold changes_serializable. unfold formatSnapshotSection in Hr.
    destruct (changes p) as [[|c cs]|]; cbn [default]; try (intros ? Hin; by apply elem_of_nil in Hin).
    destruct (formatChangesTable (c :: cs)) as [table|e] eqn:Htable; [|done].
    apply (formatChangesTable_outcome (c :: cs)). eauto.
  - intros e. unfold formatSnapshotSection.
    destruct (changes p) as [[|c cs]|]; cbn [obind].
    + destruct (metadata (snapshot p)) as [md|]; [|done].
      destruct (escape_serialized stringify2 (VObj 0 md)) as [mt|e'] eqn:Hm; [done|].
      simpl. intros [= ->]. by eapply escape_serialized_throws.
    + destruct (formatChangesTable (c :: cs)) as [table|e'] eqn:Htable; cbn [obind].
      * destruct (metadata (snapshot p)) as [md|]; [|done].
        destruct (escape_serialized stringify2 (VObj 0 md)) as [mt|e'] eqn:Hm; [done|].
        simpl. intros [= ->]. by eapply escape_serialized_throws.
      * intros [= ->]. by apply (formatChangesTable_outcome (c :: cs)).
    + destruct (metadata (snapshot p)) as [md|]; [|done].
      destruct (escape_serialized stringify2 (VObj 0 md)) as [mt|e'] eqn:Hm; [done|].
      simpl. intros [= ->]. by eapply escape_serialized_throws.
Qed.

Lemma formatChangesAsTable_outcome (changes : StateChanges) :
  ((∃ r, formatChangesAsTable changes = Return r)
   ↔ ∀ entry, entry ∈ changes → from entry.2 ≠ VUndefined ∧ to entry.2 ≠ VUndefined)
  ∧ ∀ e, formatChangesAsTable changes = Throw e → is_TypeError e.
Proof.
  unfold formatChangesAsTable. split.
  - split; [|apply formatChangesAsTable_total].
    intros [r Hr]. destruct (omap _ changes) as [rows|e] eqn:Hrows; [|done].
    intros [fld change] Hin.
    destruct (proj1 (omap_returns_iff _ _) (ex_intro _ rows Hrows) _ Hin) as [row Hrow].
    by apply (row_returns _ _ _ _ escape_stringify_defined) in Hrow.
  - intros e. destruct (omap _ changes) as [rows|e'] eqn:Hrows; [done|].
    simpl. intros [= ->]. apply omap_throws in Hrows as ([fld change] & _ & Hrow).
    by apply row_throws in Hrow.
Qed.

Lemma addSnapshotSection_outcome (p : ProcessedSnapshot) (lines0 : list rope) :
  ((∃ lines, addSnapshotSection toLocaleString p lines0 = Return lines)
   ↔ changes_serializable p)
  ∧ ∀ e, addSnapshotSection toLocaleString p lines0 = Throw e → is_TypeError e.
Proof.
  split.
  - split; [|apply addSnapshotSection_total].
    intros [r Hr]. unfold changes_serializable. unfold addSnapshotSection in Hr.
    destruct (changes p) as [[|c cs]|]; cbn [default];
      try (intros ? Hin; by apply elem_of_nil in Hin).
    destruct (formatChangesAsTable (c :: cs)) as [table|e] eqn:Htable; [|done].
    apply (formatChangesAsTable_outcome (c :: cs)). eauto.
  - intros e. unfold addSnapshotSection.
    destruct (changes p) as [[|c cs]|]; cbn [obind]; try done.
    destruct (formatChangesAsTable (c :: cs)) as [table|e'] eqn:Htable; cbn [obind]; [done|].
    intros [= ->]. by apply (formatChangesAsTable_outcome (c :: cs)).
Qed.

Lemma addSnapshotSections_outcome (group : list ProcessedSnapshot) (lines0 : list rope) :
  ((∃ lines, addSnapshotSections toLocaleString group lines0 = Return lines)
   ↔ ∀ p, p ∈ group → changes_serializable p)
  ∧ ∀ e, addSnapshotSections toLocaleString group lines0 = Throw e → is_TypeError e.
Proof.
  revert lines0. induction group as [|p group IH]; intros lines0; simpl.
  - split; [|done]. split; [|eauto]. intros _ p Hp. by apply elem_of_nil in Hp.
  - destruct (addSnapshotSection_outcome p lines0) as [Hret Hthrow].
    destruct (addSnapshotSection toLocaleString p lines0) as [lines|e'] eqn:Hsec; cbn [obind].
    + destruct (IH lines) as [IHret IHthrow]. split; [|done].
      rewrite IHret. split.
      * intros Hall q [->|Hq]%elem_of_cons; [apply Hret; eauto|by apply Hall].
      * intros Hall q Hq. apply Hall. by right.
    + split.
      * split; [by intros [? ?]|]. intros Hall. exfalso.
        destruct (proj2 Hret) as [? ?]; [apply Hall; by left|done].
      * intros e [= ->]. by apply Hthrow.
Qed.

Lemma sections_outcome (group : list ProcessedSnapshot) :
  ((∃ sections, omap (formatSnapshotSection toLocaleString toISOString) group = Return sections)
   ↔ ∀ p, p ∈ group → changes_serializable p)
  ∧ ∀ e, omap (formatSnapshotSection toLocaleString toISOString) group = Throw e →
         is_TypeError e.
Proof.
  split.
  - rewrite omap_returns_iff. split; intros Hall p Hp; by apply formatSnapshotSection_outcome, Hall.
  - intros e (p & _ & Hp)%omap_throws. by apply (formatSnapshotSection_outcome p).
Qed.

Lemma by_importance_all (l : list ProcessedSnapshot) (P : ProcessedSnapshot → Prop) :
  (∀ p, p ∈ l → P p)
  ↔ (∀ p, p ∈ filter (λ s, importance s = high) l → P p)
    ∧ (∀ p, p ∈ filter (λ s, importance s = medium) l → P p)
    ∧ (∀ p, p ∈ filter (λ s, importance s = low) l → P p).
Proof.
  split.
  - intros Hall. repeat split; intros p [_ Hp]%list_elem_of_filter; by apply Hall.
  - intros (Hh & Hm & Hl) p Hp.
    destruct (importance p) eqn:Hi; [apply Hh|apply Hm|apply Hl]; by apply list_elem_of_filter.
Qed.

Lemma group_part {B} (f : ProcessedSnapshot → outcome rope) (group : list ProcessedSnapshot)
    (d : B) (g : list rope → B) :
  match group with
  | [] => Return d
  | x :: xs => obind (omap f (x :: xs)) (λ sections, Return (g sections))
  end
  = obind (omap f group) (λ sections, Return (match group with [] => d | _ => g sections end)).
Proof. destruct group; [done|]. simpl. by destruct (f p). Qed.

Lemma formatHtmlReport_outcome (report : SnapshotReport) :
  ((∃ text, formatHtmlReport toLocaleDateString toLocaleString toISOString report = Return text)
   ↔ ∀ p, p ∈ snapshots report → changes_serializable p)
  ∧ ∀ e, formatHtmlReport toLocaleDateString toLocaleString toISOString report = Throw e →
         is_TypeError e.
Proof.
  rewrite (by_importance_all (snapshots report) changes_serializable).
  unfold formatHtmlReport, formatHtmlReport_rope. cbv zeta.
  destruct (sections_outcome (filter (λ s, importance s = high) (snapshots report)))
    as [Hh Hh'].
  destruct (sections_outcome (filter (λ s, importance s = medium) (snapshots report)))
    as [Hm Hm'].
  destruct (sections_outcome (filter (λ s, importance s = low) (snapshots report)))
    as [Hl Hl'].
  rewrite <- Hh, <- Hm, <- Hl. rewrite !group_part.
  destruct (omap _ (filter (λ s, importance s = high) (snapshots report))) as [sh|eh];
    destruct (omap _ (filter (λ s, importance s = medium) (snapshots report))) as [sm|em];
    destruct (omap _ (filter (λ s, importance s = low) (snapshots report))) as [sl|el];
    cbn [obind].
  all: split; [split|].
  all: try (intros [? ?]; try done; repeat split; eauto; fail).
  all: try (intros ([? ?] & [? ?] & [? ?]); try done; eauto; fail).
  all: intros e He; try done; injection He as <-; eauto.
Qed.

Lemma md_group_part (group : list ProcessedSnapshot) (lines header : list rope) :
  match group with
  | [] => Return lines
  | x :: xs => addSnapshotSections toLocaleString (x :: xs) (lines ++ header)
  end
  = addSnapshotSections toLocaleString group (match group with [] => lines | _ => lines ++ header end).
Proof. by destruct group. Qed.

Lemma md_low_part {B} (group : list ProcessedSnapshot) (d : B) (g : list rope → B) :
  match group with
  | [] => Return d
  | x :: xs => obind (addSnapshotSections toLocaleString (x :: xs) [])
                 (λ lowImportanceLines, Return (g lowImportanceLines))
  end
  = obind (addSnapshotSections toLocaleString group [])
      (λ lowImportanceLines, Return (match group with [] => d | _ => g lowImportanceLines end)).
Proof. by destruct group. Qed.

Lemma formatMarkdownReport_outcome (report : SnapshotReport) :
  ((∃ text, formatMarkdownReport toLocaleDateString toLocaleString report = Return text)
   ↔ ∀ p, p ∈ snapshots report → changes_serializable p)
  ∧ ∀ e, formatMarkdownReport toLocaleDateString toLocaleString report = Throw e →
         is_TypeError e.
Proof.
  rewrite (by_importance_all (snapshots report) changes_serializable).
  unfold formatMarkdownReport, formatMarkdownReport_rope. cbv zeta.
  rewrite md_group_part.
  match goal with |- context [addSnapshotSections _ (filter (λ s, importance s = high) _) ?l0] =>
    destruct (addSnapshotSections_outcome (filter (λ s, importance s = high) (snapshots report))
                l0) as [Hh Hh'];
    destruct (addSnapshotSections toLocaleString
                (filter (λ s, importance s = high) (snapshots report)) l0) as [lh|eh]
  end; cbn [obind].
  2:{ split.
      - split; [by intros [? ?]|]. intros (Hall & _). apply Hh in Hall as [? ?]. done.
      - intros e [= <-]. by apply Hh'. }
  rewrite md_group_part.
  match goal with |- context [addSnapshotSections _ (filter (λ s, importance s = medium) _) ?l0] =>
    destruct (addSnapshotSections_outcome
                (filter (λ s, importance s = medium) (snapshots report)) l0) as [Hm Hm'];
    destruct (addSnapshotSections toLocaleString
                (filter (λ s, importance s = medium) (snapshots report)) l0) as [lm|em]
  end; cbn [obind].
  2:{ split.
      - split; [by intros [? ?]|]. intros (_ & Hall & _). apply Hm in Hall as [? ?]. done.
      - intros e [= <-]. by apply Hm'. }
  rewrite md_low_part.
  destruct (addSnapshotSections_outcome
              (filter (λ s, importance s = low) (snapshots report)) []) as [Hl Hl'].
  destruct (addSnapshotSections toLocaleString
              (filter (λ s, importance s = low) (snapshots report)) []) as [ll|el]; cbn [obind].
  2:{ split.
      - split; [by intros [? ?]|]. intros (_ & _ & Hall). apply Hl in Hall as [? ?]. done.
      - intros e [= <-]. by apply Hl'. }
  split; [|done]. split; [|eauto]. intros _.
  split; [apply Hh; eauto|]. split; [apply Hm; eauto|apply Hl; eauto].
Qed.

(** X29: the HTML and the Markdown formatter return a text exactly when
    no recorded change of the report has an [undefined] previous or new
    value; what they throw otherwise is a TypeError. *)
Theorem formatters_return_iff (report : SnapshotReport) :
  ((∃ text, formatHtmlReport toLocaleDateString toLocaleString toISOString report = Return text)
   ↔ ∀ p, p ∈ snapshots report → changes_serializable p)
  ∧ ((∃ text, formatMarkdownReport toLocaleDateString toLocaleString report = Return text)
     ↔ ∀ p, p ∈ snapshots report → changes_serializable p)
  ∧ ∀ e, formatHtmlReport toLocaleDateString toLocaleString toISOString report = Throw e
         ∨ formatMarkdownReport toLocaleDateString toLocaleString report = Throw e →
         ∃ message, e = JsError "TypeError" message.
Proof.
  destruct (formatHtmlReport_outcome report) as [Hh Hh'].
  destruct (formatMarkdownReport_outcome report) as [Hm Hm'].
  split; [done|]. split; [done|]. intros e [He|He]; [by apply Hh'|by apply Hm'].
Qed.

(** X30: when a selected field of a snapshot has a value and the
    snapshot before it in the filtered list has none for it, the report
    records the change with an [undefined] previous value, and both
    formatters throw a TypeError on that report.  With [onlyImportant]
    the field has to be important for the snapshot to be reported. *)
Theorem added_field_breaks_formatters (l : list FormSnapshot) (config : SnapshotFormConfig)
    (options : ReportOptions) (w w' : World) (report : SnapshotReport) (i : nat)
    (prev snap : FormSnapshot) (key : string) :
  let fs := default no_filters (filters options) in
  generateReport l config options w = (Return report, w') →
  filterSnapshots fs l !! i = Some prev →
  filterSnapshots fs l !! S i = Some snap →
  key ∈ keys (state snap) →
  field_selected fs key = true →
  get (state prev) key = VUndefined →
  get (state snap) key ≠ VUndefined →
  (onlyImportant fs = true → is_important config key = true) →
  (∃ p, p ∈ snapshots report ∧ snapshot p = snap
        ∧ (key, {| from := VUndefined; to := get (state snap) key |})
          ∈ default [] (changes p))
  ∧ (∃ e, formatHtmlReport toLocaleDateString toLocaleString toISOString report = Throw e
          ∧ is_TypeError e)
  ∧ (∃ e, formatMarkdownReport toLocaleDateString toLocaleString report = Throw e
          ∧ is_TypeError e).
Proof.
  intros fs Hgen Hprev Hsnap Hkey Hsel Hundef Hdef Hkept.
  destruct (generateReport_returns l config options w) as (report' & w'' & Hgen' & Hsnaps).
  rewrite Hgen in Hgen'. injection Hgen' as <- <-. fold fs in Hsnaps.
  set (filtered := filterSnapshots fs l) in *.
  set (p := processSnapshot fs config filtered (S i) snap).
  assert (recorded fs config filtered (S i) snap = report_changes fs config prev snap) as Hrec.
  { unfold recorded. change (Nat.ltb 0 (S i)) with true. cbn iota.
    replace (S i - 1)%nat with i by lia. by rewrite Hprev. }
  destruct (report_changes_spec fs config prev snap) as (Hkeys & Hcount & Hvals).
  assert (key ∈ keys (report_changes fs config prev snap).1) as Hin.
  { apply Hkeys. split; [done|]. unfold field_changed. rewrite Hsel. simpl.
    apply serialized_changed_true. rewrite Hundef.
    destruct (ser_defined "" "" _ Hdef) as [t Ht]. unfold stringify. rewrite Ht. done. }
  assert ((key, {| from := VUndefined; to := get (state snap) key |})
          ∈ default [] (changes p)) as Hc.
  { subst p. rewrite changed_fields_recorded, Hrec.
    unfold keys in Hin. apply list_elem_of_fmap in Hin as ([k c] & Hk & Hin).
    simpl in Hk. subst k. pose proof (Hvals _ _ Hin) as Hval. subst c.
    by rewrite Hundef in Hin. }
  assert (p ∈ snapshots report) as Hp.
  { rewrite Hsnaps. unfold finalSnapshots. fold filtered.
    assert (p ∈ processSnapshots fs config filtered) as Hproc.
    { unfold processSnapshots. by apply elem_of_lookup_imap_2. }
    destruct (onlyImportant fs) eqn:Honly; [|done].
    apply list_elem_of_filter. split; [|done].
    subst p. rewrite processSnapshot_unfold. cbn [importance]. rewrite Hrec.
    assert (0 < (report_changes fs config prev snap).2)%nat as Hpos.
    { apply Hcount. exists key. split; [done|]. by apply Hkept. }
    apply Nat.ltb_lt in Hpos. by rewrite Hpos. }
  assert (¬ ∀ q, q ∈ snapshots report → changes_serializable q) as Hnot.
  { intros Hall. destruct (Hall p Hp _ Hc) as [Hf _]. done. }
  destruct (formatHtmlReport_outcome report) as [Hh Hh'].
  destruct (formatMarkdownReport_outcome report) as [Hm Hm'].
  split; [exists p; split; [done|]; split; [apply snapshot_processSnapshot|done]|].
  split.
  - destruct (formatHtmlReport _ _ _ report) as [text|e].
    + exfalso. apply Hnot, Hh. eauto.
    + exists e. split; [done|]. by apply Hh'.
  - destruct (formatMarkdownReport _ _ report) as [text|e].
    + exfalso. apply Hnot, Hm. eauto.
    + exists e. split; [done|]. by apply Hm'.
Qed.

End FormatterOutcomes.

Lemma added_field_breaks_formatters_witness :
  (∃ p, p ∈ snapshots named_later_report
        ∧ snapshot p = five_at 2 [("name", VStr "Ann")]
        ∧ (("name", {| from := VUndefined;
                       to := get (state (five_at 2 [("name", VStr "Ann")])) "name" |})
           ∈ default [] (changes p)))
  ∧ (∃ e, formatHtmlReport time_value time_value time_value named_later_report = Throw e
          ∧ is_TypeError e)
  ∧ (∃ e, formatMarkdownReport time_value time_value named_later_report = Throw e
          ∧ is_TypeError e).
Proof.
  apply (added_field_breaks_formatters time_value time_value time_value named_later []
           plain_options quiet_world
           (generateReport named_later [] plain_options quiet_world).2
           named_later_report 0
           (five_at 1 []) (five_at 2 [("name", VStr "Ann")]) "name");
    try (by vm_compute).
  vm_compute. by left.
Defined.
